(** * terminal-org-chart: the org-tree engine (classes [Employee] and [OrgChart])

    A shallow embedding of the id-keyed [OrgChart] class and of the
    [Employee] objects it links together.  JavaScript objects are mutable
    and shared: the same [Employee] is referenced from the [employees]
    dictionary, from its manager's [reports] array and from the [manager]
    field of each of its reports.  The embedding therefore keeps an explicit
    object store ([heap]) and every reference is a location in it. *)

From Stdlib Require Import Lia Ascii.
From stdpp Require Import base tactics option list sets strings.

Local Open Scope string_scope.
Local Open Scope nat_scope.
Local Open Scope list_scope.
Local Open Scope stdpp_scope.
Set Warnings "-register-all".

(* ================================================================== *)
(** * Part 1.  The program                                              *)
(* ================================================================== *)

(** ** JavaScript values reaching the optional id parameters *)

Inductive jsval :=
  | JUndefined
  | JNull
  | JString (s : string).

(** [v] used as a condition: [null], [undefined] and [''] are falsy. *)
Definition truthy (v : jsval) : bool :=
  match v with
  | JString s => negb (bool_decide (s = ""))
  | _ => false
  end.

(** [obj[v]] converts [v] to a property key first. *)
Definition to_key (v : jsval) : string :=
  match v with
  | JUndefined => "undefined"
  | JNull => "null"
  | JString s => s
  end.

(** ** Strings

    A JavaScript string is kept as the bytes of its UTF-8 encoding, the form
    in which the files and the terminal hand it over.  Two strings are
    [===] when they have the same bytes. *)

(** The white space and line terminators [String.prototype.trim] strips:
    the code points 9 to 13 and 32, in one byte; A0 in two; 1680, 2000 to
    200A, 2028, 2029, 202F, 205F, 3000 and FEFF in three. *)
Definition is_space (c : ascii) : bool :=
  let n := nat_of_ascii c in
  ((n =? 32) || ((9 <=? n) && (n <=? 13)))%nat.

Definition is_space2 (c1 c2 : ascii) : bool :=
  ((nat_of_ascii c1 =? 194) && (nat_of_ascii c2 =? 160))%nat.

Definition is_space3 (c1 c2 c3 : ascii) : bool :=
  let a := nat_of_ascii c1 in
  let b := nat_of_ascii c2 in
  let c := nat_of_ascii c3 in
  (((a =? 225) && (b =? 154) && (c =? 128))
   || ((a =? 226) && (b =? 128)
       && (((128 <=? c) && (c <=? 138)) || (c =? 168) || (c =? 169) || (c =? 175)))
   || ((a =? 226) && (b =? 129) && (c =? 159))
   || ((a =? 227) && (b =? 128) && (c =? 128))
   || ((a =? 239) && (b =? 187) && (c =? 191)))%nat.

Fixpoint trimStart (s : string) : string :=
  match s with
  | String c1 s1 =>
      if is_space c1 then trimStart s1
      else
        match s1 with
        | String c2 s2 =>
            if is_space2 c1 c2 then trimStart s2
            else
              match s2 with
              | String c3 s3 => if is_space3 c1 c2 c3 then trimStart s3 else s
              | EmptyString => s
              end
        | EmptyString => s
        end
  | EmptyString => EmptyString
  end.

(** From the end: [c] in front of what is left of the rest.  When that is
    empty, or one or two bytes that complete a white space with [c], the
    string ends here. *)
Fixpoint trimEnd (s : string) : string :=
  match s with
  | String c s' =>
      match trimEnd s' with
      | EmptyString => if is_space c then EmptyString else String c EmptyString
      | String c2 EmptyString =>
          if is_space2 c c2 then EmptyString else String c (String c2 EmptyString)
      | String c2 (String c3 EmptyString) =>
          if is_space3 c c2 c3 then EmptyString
          else String c (String c2 (String c3 EmptyString))
      | t => String c t
      end
  | EmptyString => EmptyString
  end.

Definition trim (s : string) : string := trimEnd (trimStart s).

(** [toLowerCase] maps A to Z to a to z and leaves every other character
    of the ASCII range as it is.  What it makes of a string with a
    character outside that range is decided by the case mappings of the
    Unicode tables, which are no part of the source: [fold] stands for
    them. *)
Definition lower_ascii (c : ascii) : ascii :=
  let n := nat_of_ascii c in
  if ((65 <=? n) && (n <=? 90))%nat then ascii_of_nat (n + 32) else c.

Fixpoint is_ascii (s : string) : bool :=
  match s with
  | String c s' => (nat_of_ascii c <? 128)%nat && is_ascii s'
  | EmptyString => true
  end.

Fixpoint lower_string (s : string) : string :=
  match s with
  | String c s' => String (lower_ascii c) (lower_string s')
  | EmptyString => EmptyString
  end.

Definition toLowerCase (fold : string -> string) (s : string) : string :=
  if is_ascii s then lower_string s else fold s.

(** [a || b] on strings: the empty string is falsy. *)
Definition str_or (a b : string) : string :=
  if bool_decide (a = "") then b else a.

(** ** Objects and the object store *)

Abbreviation loc := nat.

Record Employee := mkEmployee {
  id : string;
  name : string;
  title : string;
  lob : string;
  division : string;
  dept : string;
  email : string;
  manager : option loc;
  reports : list loc;
  level : nat
}.

Global Instance Employee_inhabited : Inhabited Employee :=
  populate (mkEmployee "" "" "" "" "" "" "" None [] 0).

Definition set_id (v : string) (e : Employee) : Employee :=
  mkEmployee v (name e) (title e) (lob e) (division e) (dept e) (email e)
             (manager e) (reports e) (level e).
Definition set_name (v : string) (e : Employee) : Employee :=
  mkEmployee (id e) v (title e) (lob e) (division e) (dept e) (email e)
             (manager e) (reports e) (level e).
Definition set_title (v : string) (e : Employee) : Employee :=
  mkEmployee (id e) (name e) v (lob e) (division e) (dept e) (email e)
             (manager e) (reports e) (level e).
Definition set_lob (v : string) (e : Employee) : Employee :=
  mkEmployee (id e) (name e) (title e) v (division e) (dept e) (email e)
             (manager e) (reports e) (level e).
Definition set_division (v : string) (e : Employee) : Employee :=
  mkEmployee (id e) (name e) (title e) (lob e) v (dept e) (email e)
             (manager e) (reports e) (level e).
Definition set_dept (v : string) (e : Employee) : Employee :=
  mkEmployee (id e) (name e) (title e) (lob e) (division e) v (email e)
             (manager e) (reports e) (level e).
Definition set_email (v : string) (e : Employee) : Employee :=
  mkEmployee (id e) (name e) (title e) (lob e) (division e) (dept e) v
             (manager e) (reports e) (level e).
Definition set_manager (v : option loc) (e : Employee) : Employee :=
  mkEmployee (id e) (name e) (title e) (lob e) (division e) (dept e) (email e)
             v (reports e) (level e).
Definition set_reports (v : list loc) (e : Employee) : Employee :=
  mkEmployee (id e) (name e) (title e) (lob e) (division e) (dept e) (email e)
             (manager e) v (level e).
Definition set_level (v : nat) (e : Employee) : Employee :=
  mkEmployee (id e) (name e) (title e) (lob e) (division e) (dept e) (email e)
             (manager e) (reports e) v.

(** The store: location [l] holds the [l]-th object ever created.  Objects
    are never freed (garbage is unobservable). *)
Abbreviation heap := (list Employee).

(** [o.f = v] for the object at [l]. *)
Definition update (l : loc) (f : Employee -> Employee) (h : heap) : heap :=
  <[l := f (h !!! l)]> h.

(** [new Employee(name, title, lob, division, dept, email, manager)]; [uuid]
    is the value [uuidv4()] returns for this object. *)
Definition new_Employee (h : heap) (uuid name title lob division dept email : string)
    (manager : option loc) : Employee :=
  {| id := uuid; name := name; title := title; lob := lob;
     division := division; dept := dept; email := email;
     manager := manager; reports := [];
     level := match manager with
              | Some m => level (h !!! m) + 1
              | None => 0
              end |}.

(** [this.addReport(employee)] *)
Definition addReport (this employee : loc) (h : heap) : heap :=
  let h := update employee (set_manager (Some this)) h in
  let h := update employee (set_level (level (h !!! this) + 1)) h in
  update this (set_reports (reports (h !!! this) ++ [employee])) h.

(** ** The portable document and the chart *)

(** The nested object [_prepareForExport] builds.  [JSON.stringify] renders
    it as text and [JSON.parse] reads that text back to the same nested
    value, so a snapshot is kept as the document it denotes. *)
Inductive portable :=
  PNode (pid pname ptitle plob pdivision pdept pemail : string)
        (plevel : nat) (preports : list portable).

(** ** A plain object used as a dictionary

    [employees] is an object literal, [{}], and a member is kept under its
    id.  The own properties are listed in the order in which they were
    created.  The object has a prototype besides, [Object.prototype] to start
    with; the assignment [employees['__proto__'] = e] does not create a
    property but makes [e] the prototype.  The entry under ["__proto__"]
    stands for that: the prototype when it is an [Employee]. *)
Abbreviation dict := (list (string * loc)).

Fixpoint dict_get (d : dict) (k : string) : option loc :=
  match d with
  | [] => None
  | (k', v) :: d' => if decide (k = k') then Some v else dict_get d' k
  end.

(** [d[k] = v] *)
Fixpoint dict_set (d : dict) (k : string) (v : loc) : dict :=
  match d with
  | [] => [(k, v)]
  | (k', v') :: d' =>
      if decide (k = k') then (k', v) :: d' else (k', v') :: dict_set d' k v
  end.

(** [delete d[k]]; there is no own property ["__proto__"] to delete. *)
Definition dict_delete (d : dict) (k : string) : dict :=
  if decide (k = "__proto__") then d else filter (fun p => p.1 <> k) d.

(** A key that is an array index: the decimal form, without leading zeros,
    of a number below [2^32 - 1]. *)
Definition digit (c : ascii) : option N :=
  let n := N_of_ascii c in
  if ((48 <=? n) && (n <=? 57))%N then Some (n - 48)%N else None.

Fixpoint digits (s : string) (acc : N) : option N :=
  match s with
  | EmptyString => Some acc
  | String c s' =>
      match digit c with
      | Some n => digits s' (10 * acc + n)%N
      | None => None
      end
  end.

Definition array_index (k : string) : option N :=
  match k with
  | EmptyString => None
  | String c s' =>
      if bool_decide (c = "0"%char) then
        if bool_decide (s' = EmptyString) then Some 0%N else None
      else
        match digits k 0 with
        | Some n => if (n <? 4294967295)%N then Some n else None
        | None => None
        end
  end.

Fixpoint insert_index (n : N) (v : loc) (l : list (N * loc)) : list (N * loc) :=
  match l with
  | [] => [(n, v)]
  | (m, w) :: l' => if (n <? m)%N then (n, v) :: l else (m, w) :: insert_index n v l'
  end.

(** The own properties whose key is an array index, by ascending index. *)
Fixpoint indexed (d : dict) : list (N * loc) :=
  match d with
  | [] => []
  | (k, v) :: d' =>
      match array_index k with
      | Some n => insert_index n v (indexed d')
      | None => indexed d'
      end
  end.

(** [Object.values(d)]: the values under array-index keys first, by
    ascending index, then the others in the order of their creation. *)
Definition dict_values (d : dict) : list loc :=
  (indexed d).*2
  ++ (filter (fun p => array_index p.1 = None /\ p.1 <> "__proto__") d).*2.

Record OrgChart := mkOrgChart {
  mem : heap;
  root : option loc;
  employees : dict;
  history : list portable;
  future : list portable
}.

Definition set_mem (v : heap) (s : OrgChart) : OrgChart :=
  mkOrgChart v (root s) (employees s) (history s) (future s).
Definition set_root (v : option loc) (s : OrgChart) : OrgChart :=
  mkOrgChart (mem s) v (employees s) (history s) (future s).
Definition set_employees (v : dict) (s : OrgChart) : OrgChart :=
  mkOrgChart (mem s) (root s) v (history s) (future s).
Definition set_history (v : list portable) (s : OrgChart) : OrgChart :=
  mkOrgChart (mem s) (root s) (employees s) v (future s).
Definition set_future (v : list portable) (s : OrgChart) : OrgChart :=
  mkOrgChart (mem s) (root s) (employees s) (history s) v.

(** [new OrgChart()]; the store starts empty. *)
Definition new_OrgChart : OrgChart := mkOrgChart [] None [] [] [].

(** ** Reading [this.employees[k]]

    The expression finds an own property first, then what the prototype and
    its prototypes hold under [k].  [Object.prototype] has a function under
    each of its names and, under ["__proto__"], a getter that returns the
    prototype of the object it is read from. *)
Definition object_prototype_keys : list string :=
  ["constructor"; "__defineGetter__"; "__defineSetter__"; "hasOwnProperty";
   "__lookupGetter__"; "__lookupSetter__"; "isPrototypeOf"; "propertyIsEnumerable";
   "toString"; "valueOf"; "__proto__"; "toLocaleString"].

(** The values found that are no [Employee].  Two of them are [===] when
    they are equal here. *)
Inductive builtin :=
  | ObjectPrototype                  (* [Object.prototype] itself *)
  | ObjectFunction (k : string)      (* the function [Object.prototype[k]] *)
  | EmployeeFunction (k : string)    (* the class, or its method [addReport] *)
  | Text (v : string)                (* a string that is not empty *)
  | Number (n : nat)                 (* a number that is not 0 *)
  | ReportsOf (l : loc).             (* the array [reports] of the object at [l] *)

Global Instance builtin_eq_dec : EqDecision builtin.
Proof. solve_decision. Defined.

(** [Falsy] is [undefined], [null], [''] or [0]. *)
Inductive property :=
  | Found (l : loc)
  | Other (b : builtin)
  | Falsy.

Definition text_property (v : string) : property :=
  if bool_decide (v = "") then Falsy else Other (Text v).

(** What an object without own property [k] inherits under [k], with
    prototype [Object.prototype] ([None]) or the [Employee] at [p]. *)
Definition inherited (h : heap) (proto : option loc) (k : string) : property :=
  match proto with
  | None =>
      if bool_decide (k = "__proto__") then Other ObjectPrototype
      else if bool_decide (k ∈ object_prototype_keys) then Other (ObjectFunction k)
      else Falsy
  | Some p =>
      let e := h !!! p in
      if bool_decide (k = "__proto__") then Found p
      else if bool_decide (k = "id") then text_property (id e)
      else if bool_decide (k = "name") then text_property (name e)
      else if bool_decide (k = "title") then text_property (title e)
      else if bool_decide (k = "lob") then text_property (lob e)
      else if bool_decide (k = "division") then text_property (division e)
      else if bool_decide (k = "dept") then text_property (dept e)
      else if bool_decide (k = "email") then text_property (email e)
      else if bool_decide (k = "manager") then
        match manager e with
        | Some m => Found m
        | None => Falsy
        end
      else if bool_decide (k = "reports") then Other (ReportsOf p)
      else if bool_decide (k = "level") then
        if (level e =? 0)%nat then Falsy else Other (Number (level e))
      else if bool_decide (k = "constructor") || bool_decide (k = "addReport")
      then Other (EmployeeFunction k)
      else if bool_decide (k ∈ object_prototype_keys) then Other (ObjectFunction k)
      else Falsy
  end.

Definition employees_get (s : OrgChart) (k : string) : property :=
  match dict_get (employees s) k with
  | Some l => Found l
  | None => inherited (mem s) (dict_get (employees s) "__proto__") k
  end.

(** ** Recursion over the object graph

    The recursive methods follow [reports] arrays through the store.  On a
    cyclic graph the JavaScript recursion never returns (the engine aborts
    it with a [RangeError]).  The embedding gives each such method a depth
    budget and returns [None] when it is used up; [None] is also the
    outcome for any other exception.  A walk deeper than the number of
    objects in the store must visit some object twice, so the budget
    [recursion_limit] is exhausted on cyclic graphs only. *)
Definition recursion_limit (h : heap) : nat := S (length h).

Fixpoint serializeNode (fuel : nat) (h : heap) (node : loc) : option portable :=
  match fuel with
  | 0 => None
  | S fuel' =>
      let e := h !!! node in
      match mapM (serializeNode fuel' h) (reports e) with
      | Some rs =>
          Some (PNode (id e) (name e) (title e) (lob e) (division e) (dept e)
                      (email e) (level e) rs)
      | None => None
      end
  end.

(** [serializeNode(this.root)]; reading a field of [null] throws. *)
Definition _prepareForExport (s : OrgChart) : option portable :=
  match root s with
  | Some r => serializeNode (recursion_limit (mem s)) (mem s) r
  | None => None
  end.

Definition _serializeOrg (s : OrgChart) : option portable := _prepareForExport s.

Definition pushState (s : OrgChart) : option OrgChart :=
  match _serializeOrg s with
  | Some snapshot => Some (set_future [] (set_history (history s ++ [snapshot]) s))
  | None => None
  end.

Fixpoint _recreateFromJSON (obj : portable) (manager : option loc) (s : OrgChart)
    : OrgChart * loc :=
  match obj with
  | PNode oid oname otitle olob odivision odept oemail olevel oreports =>
      let employee := length (mem s) in
      (* the generated id is overwritten at once, so is the level *)
      let e := new_Employee (mem s) oid oname otitle olob odivision odept oemail manager in
      let e := set_level olevel (set_id oid e) in
      let s := set_mem (mem s ++ [e]) s in
      let s := set_employees (dict_set (employees s) oid employee) s in
      let s := match manager with
               | None => set_root (Some employee) s
               | Some m =>
                   set_mem (update m (set_reports (reports (mem s !!! m) ++ [employee])) (mem s)) s
               end in
      let s := fold_left (fun s child => (_recreateFromJSON child (Some employee) s).1)
                         oreports s in
      (s, employee)
  end.

Definition _loadSnapshot (snapshot : portable) (s : OrgChart) : OrgChart :=
  let s := set_employees [] s in
  (_recreateFromJSON snapshot None s).1.

(** [array.pop()] of a non-empty array: the last element and the rest. *)
Definition pop {A} (l : list A) : option (A * list A) :=
  match last l with
  | Some x => Some (x, removelast l)
  | None => None
  end.

Definition undo (s : OrgChart) : bool * OrgChart :=
  if (length (history s) <? 2)%nat then (false, s)
  else
    match pop (history s) with
    | Some (current, hist) =>
        let s := set_future (future s ++ [current]) (set_history hist s) in
        match last (history s) with
        | Some previous => (true, _loadSnapshot previous s)
        | None => (false, s)   (* not reached: two entries at least *)
        end
    | None => (false, s)       (* not reached *)
    end.

Definition redo (s : OrgChart) : bool * OrgChart :=
  if (length (future s) =? 0)%nat then (false, s)
  else
    match pop (future s) with
    | Some (snapshot, fut) =>
        let s := set_history (history s ++ [snapshot]) (set_future fut s) in
        (true, _loadSnapshot snapshot s)
    | None => (false, s)       (* not reached *)
    end.

(** ** Basic methods

    A method returns [None] when it throws: inside [pushState], before it
    has changed anything, or when it takes a value that is no [Employee]
    for one ([manager.addReport is not a function]).  An exception ends the
    program unless [importFromCSV] catches it. *)

(** [setRoot(employee)]; the caller has created [employee]. *)
Definition setRoot (employee : loc) (s : OrgChart) : option OrgChart :=
  let s := set_root (Some employee) s in
  let s := set_employees (dict_set (employees s) (id (mem s !!! employee)) employee) s in
  pushState s.

(** [addEmployee(name, title, managerId, lob, division, dept, email)];
    the result is the new employee, or [null]. *)
Definition addEmployee (uuid name title : string) (managerId : jsval)
    (lob division dept email : string) (s : OrgChart) : option (option loc * OrgChart) :=
  match root s with
  | None => Some (None, s)
  | Some r =>
      match pushState s with
      | None => None
      | Some s =>
          match (match employees_get s (to_key managerId) with
                 | Found m => Some m
                 | Falsy => Some r
                 | Other _ => None       (* [manager.addReport] is no function *)
                 end) with
          | None => None
          | Some manager =>
              let employee := length (mem s) in
              let e := new_Employee (mem s) uuid name title lob division dept email
                                    (Some manager) in
              let s := set_mem (mem s ++ [e]) s in
              let s := set_mem (addReport manager employee (mem s)) s in
              let s := set_employees
                         (dict_set (employees s) (id (mem s !!! employee)) employee) s in
              Some (Some employee, s)
          end
      end
  end.

(** [employee.manager.reports.filter((r) => r.id !== employee.id)] assigned
    back, when [employee.manager] is not [null]. *)
Definition detach (employee : loc) (h : heap) : heap :=
  match manager (h !!! employee) with
  | Some m =>
      update m (set_reports
                  (filter (fun r => id (h !!! r) <> id (h !!! employee))
                          (reports (h !!! m)))) h
  | None => h
  end.

Definition removeEmployee (employeeId : string) (newManagerId : jsval) (s : OrgChart)
    : option (bool * OrgChart) :=
  if match root s with
     | Some r => bool_decide (id (mem s !!! r) = employeeId)
     | None => false
     end
  then Some (false, s)
  else
    match employees_get s employeeId with
    | Falsy => Some (false, s)
    | Other _ => None                  (* [employee.reports] is [undefined] *)
    | Found employee =>
        match pushState s with
        | None => None
        | Some s =>
            let h := mem s in
            match (match (if truthy newManagerId
                          then employees_get s (to_key newManagerId)
                          else Falsy) with
                   | Found newManager =>
                       Some (fold_left (fun h r => addReport newManager r h)
                                       (reports (h !!! employee)) h)
                   | Other _ =>
                       (* [newManager.addReport] is no function: the first
                          report, if there is one, makes the call throw *)
                       if bool_decide (reports (h !!! employee) = []) then Some h else None
                   | Falsy =>
                       Some (fold_left (fun h r => update r (set_manager None) h)
                                       (reports (h !!! employee)) h)
                   end) with
            | None => None
            | Some h =>
                let h := detach employee h in
                let s := set_mem h s in
                let s := set_employees (dict_delete (employees s) employeeId) s in
                Some (true, s)
            end
        end
    end.

(** The fields of [newData]; [None] is a field that is absent or not a string. *)
Record patch := mkPatch {
  p_name : option string;
  p_title : option string;
  p_lob : option string;
  p_division : option string;
  p_dept : option string;
  p_email : option string
}.

(** [if (typeof v === 'string') { field = v.trim() || field; }] *)
Definition patched (v : option string) (field : string) : string :=
  match v with
  | Some x => str_or (trim x) field
  | None => field
  end.

(** No field of [newData] is a string: nothing is assigned. *)
Definition assigns_nothing (newData : patch) : bool :=
  bool_decide (p_name newData = None) && bool_decide (p_title newData = None)
  && bool_decide (p_lob newData = None) && bool_decide (p_division newData = None)
  && bool_decide (p_dept newData = None) && bool_decide (p_email newData = None).

(** The assignments of [editEmployee] to a value that is no [Employee].
    The code of a class is strict: assigning to a property of a string or
    of a number throws, and so does assigning to the [name] of a function,
    which is read-only.  The other properties of a function and those of
    an array are created, and nothing of the chart changes.  [true] when
    the assignments go through.  Those to [Object.prototype] would give
    every object of the program a new property; the embedding does not
    follow them and ends the call like an exception. *)
Definition assigns_to_builtin (b : builtin) (newData : patch) : bool :=
  assigns_nothing newData ||
  match b with
  | ObjectFunction _ | EmployeeFunction _ => bool_decide (p_name newData = None)
  | ReportsOf _ => true
  | Text _ | Number _ | ObjectPrototype => false
  end.

Definition editEmployee (employeeId : string) (newData : patch) (s : OrgChart)
    : option (bool * OrgChart) :=
  match employees_get s employeeId with
  | Falsy => Some (false, s)
  | Other b =>
      match pushState s with
      | None => None
      | Some s => if assigns_to_builtin b newData then Some (true, s) else None
      end
  | Found employee =>
      match pushState s with
      | None => None
      | Some s =>
          let h := mem s in
          let h := update employee (fun e => set_name (patched (p_name newData) (name e)) e) h in
          let h := update employee (fun e => set_title (patched (p_title newData) (title e)) e) h in
          let h := update employee (fun e => set_lob (patched (p_lob newData) (lob e)) e) h in
          let h := update employee (fun e => set_division (patched (p_division newData) (division e)) e) h in
          let h := update employee (fun e => set_dept (patched (p_dept newData) (dept e)) e) h in
          let h := update employee (fun e => set_email (patched (p_email newData) (email e)) e) h in
          Some (true, set_mem h s)
      end
  end.

(** [_isDescendant(root, candidate)]: the [for ... of] loop over
    [root.reports], leaving at the first hit. *)
Fixpoint _isDescendant (fuel : nat) (h : heap) (root candidate : loc) : option bool :=
  match fuel with
  | 0 => None
  | S fuel' =>
      (fix loop (rs : list loc) : option bool :=
         match rs with
         | [] => Some false
         | r :: rs' =>
             if decide (id (h !!! r) = id (h !!! candidate)) then Some true
             else match _isDescendant fuel' h r candidate with
                  | None => None
                  | Some true => Some true
                  | Some false => loop rs'
                  end
         end) (reports (h !!! root))
  end.

(** [_updateLevels(node, level)] *)
Fixpoint _updateLevels (fuel : nat) (node : loc) (lvl : nat) (h : heap) : option heap :=
  match fuel with
  | 0 => None
  | S fuel' =>
      let h := update node (set_level lvl) h in
      (fix each (rs : list loc) (h : heap) : option heap :=
         match rs with
         | [] => Some h
         | r :: rs' =>
             match _updateLevels fuel' r (lvl + 1) h with
             | Some h => each rs' h
             | None => None
             end
         end) (reports (h !!! node)) h
  end.

Definition moveSubtree (employeeId newManagerId : string) (s : OrgChart)
    : option (bool * OrgChart) :=
  match employees_get s employeeId, employees_get s newManagerId with
  | Falsy, _ | _, Falsy => Some (false, s)
  | Other _, Other _ => Some (false, s)    (* [undefined === undefined] *)
  | Other _, Found _ => None               (* [root.reports] is not iterable *)
  | Found employee, Other _ =>
      (* no report has the id [undefined]: the guard lets the move pass,
         and [newManager.addReport] is no function *)
      if bool_decide (root s = Some employee) then Some (false, s) else None
  | Found employee, Found newManager =>
      if bool_decide (root s = Some employee) then Some (false, s)
      else if bool_decide (id (mem s !!! employee) = id (mem s !!! newManager))
      then Some (false, s)
      else
        match _isDescendant (recursion_limit (mem s)) (mem s) employee newManager with
        | None => None
        | Some true => Some (false, s)
        | Some false =>
            match pushState s with
            | None => None
            | Some s =>
                let h := mem s in
                let h := detach employee h in
                let h := addReport newManager employee h in
                match _updateLevels (recursion_limit h) employee
                                    (level (h !!! newManager) + 1) h with
                | Some h => Some (true, set_mem h s)
                | None => None
                end
            end
        end
  end.

(** [getPath(employeeId)]: the chain of managers, root first.  The [while]
    loop follows [manager] references and does not end on a cyclic chain. *)
Fixpoint getPath_from (fuel : nat) (h : heap) (current : option loc) (path : list loc)
    : option (list loc) :=
  match current with
  | None => Some path
  | Some c =>
      match fuel with
      | 0 => None
      | S fuel' => getPath_from fuel' h (manager (h !!! c)) (c :: path)
      end
  end.

(** The path holds the objects followed; a value that is no [Employee]
    has no [manager] and is a path by itself. *)
Definition getPath (employeeId : string) (s : OrgChart) : option (list property) :=
  match employees_get s employeeId with
  | Found l =>
      match getPath_from (recursion_limit (mem s)) (mem s) (Some l) [] with
      | Some path => Some (Found <$> path)
      | None => None
      end
  | Other b => Some [Other b]
  | Falsy => Some []
  end.

(** ** The cycle guard of the older variant

    [src/unnamed/part_001] is the same engine with a guard that compares
    object references where the one above compares ids: [employee ===
    newManager], [r === candidate], and [r !== employee] in the filter.
    Two references are equal when they are the same location. *)
Module Part001.

Fixpoint _isDescendant (fuel : nat) (h : heap) (root candidate : loc) : option bool :=
  match fuel with
  | 0 => None
  | S fuel' =>
      if (length (reports (h !!! root)) =? 0)%nat then Some false
      else
        (fix loop (rs : list loc) : option bool :=
           match rs with
           | [] => Some false
           | r :: rs' =>
               if decide (r = candidate) then Some true
               else match _isDescendant fuel' h r candidate with
                    | None => None
                    | Some true => Some true
                    | Some false => loop rs'
                    end
           end) (reports (h !!! root))
  end.

Definition detach (employee : loc) (h : heap) : heap :=
  match manager (h !!! employee) with
  | Some m =>
      update m (set_reports (filter (fun r => r <> employee) (reports (h !!! m)))) h
  | None => h
  end.

Definition moveSubtree (employeeId newManagerId : string) (s : OrgChart)
    : option (bool * OrgChart) :=
  match employees_get s employeeId, employees_get s newManagerId with
  | Falsy, _ | _, Falsy => Some (false, s)
  | Other a, Other b =>
      (* the same value, or [root.reports.length] of [undefined] *)
      if bool_decide (a = b) then Some (false, s) else None
  | Other _, Found _ => None
  | Found employee, Other _ =>
      if bool_decide (root s = Some employee) then Some (false, s) else None
  | Found employee, Found newManager =>
      if bool_decide (root s = Some employee) then Some (false, s)
      else if bool_decide (employee = newManager) then Some (false, s)
      else
        match _isDescendant (recursion_limit (mem s)) (mem s) employee newManager with
        | None => None
        | Some true => Some (false, s)
        | Some false =>
            match pushState s with
            | None => None
            | Some s =>
                let h := mem s in
                let h := detach employee h in
                let h := addReport newManager employee h in
                match _updateLevels (recursion_limit h) employee
                                    (level (h !!! newManager) + 1) h with
                | Some h => Some (true, set_mem h s)
                | None => None
                end
            end
        end
  end.

End Part001.

(** ** CSV import

    [Papa.parse] hands over one object per line; a column that is missing
    is [undefined] ([None]).  [uuid k] is the value of the [k]-th call of
    [uuidv4()] made during the import, and [fold] is what [toLowerCase]
    makes of the names that are not ASCII. *)

Record csv_row := mkRow {
  row_name : option string;
  row_title : option string;
  row_managerName : option string;
  row_lob : option string;
  row_division : option string;
  row_dept : option string;
  row_email : option string
}.

Record pending_row := mkPending {
  r_name : string;
  r_title : string;
  r_managerName : string;
  r_lob : string;
  r_division : string;
  r_dept : string;
  r_email : string
}.

(** [v?.trim() || ''] *)
Definition trimmed (v : option string) : string :=
  match v with
  | Some x => str_or (trim x) ""
  | None => ""
  end.

Definition normalize (row : csv_row) : pending_row :=
  {| r_name := trimmed (row_name row);
     r_title := trimmed (row_title row);
     r_managerName := trimmed (row_managerName row);
     r_lob := trimmed (row_lob row);
     r_division := trimmed (row_division row);
     r_dept := trimmed (row_dept row);
     r_email := trimmed (row_email row) |}.

(** [Object.values(this.employees).find((emp) =>
      emp.name.toLowerCase() === managerName.toLowerCase())] *)
Definition find_by_name (fold : string -> string) (managerName : string) (s : OrgChart)
    : option loc :=
  find (fun emp => bool_decide (toLowerCase fold (name (mem s !!! emp))
                                = toLowerCase fold managerName))
       (dict_values (employees s)).

Record csv_state := mkCsv {
  chart : OrgChart;
  pending : list pending_row;
  addedAny : bool;
  minted : nat
}.

(** The import either goes on or has thrown; an exception is caught at the
    end of [importFromCSV] with the chart as it was when thrown: with the
    snapshot of [addEmployee] on [history], unless it was thrown by
    [pushState]. *)
Inductive csv_outcome :=
  | Running (st : csv_state)
  | Threw (s : OrgChart).

(** The body of the [for] loop at index [i]. *)
Definition csv_body (fold : string -> string) (uuid : nat -> string) (i : nat)
    (st : csv_state) : csv_outcome :=
  match pending st !! i with
  | None => Running st
  | Some p =>
      if bool_decide (r_name p = "") || bool_decide (r_title p = "") then
        Running (mkCsv (chart st) (delete i (pending st)) (addedAny st) (minted st))
      else
        let s := chart st in
        let found := if bool_decide (r_managerName p = "") then None
                     else find_by_name fold (r_managerName p) s in
        if negb (bool_decide (r_managerName p = "")) && bool_decide (found = None)
        then Running st
        else
          let managerId := match found with
                           | Some m => JString (id (mem s !!! m))
                           | None => JNull
                           end in
          let managerId :=
            if bool_decide (r_managerName p = "") || negb (truthy managerId)
            then match root s with
                 | Some r => JString (id (mem s !!! r))
                 | None => JNull
                 end
            else managerId in
          match addEmployee (uuid (minted st)) (r_name p) (r_title p) managerId
                            (r_lob p) (r_division p) (r_dept p) (r_email p) s with
          | None => Threw (default s (pushState s))
          | Some (res, s') =>
              Running (mkCsv s' (delete i (pending st)) true
                             (if res is Some _ then S (minted st) else minted st))
          end
  end.

(** [for (let i = pending.length - 1; i >= 0; i--)], entered with
    [n = pending.length]. *)
Fixpoint csv_for (fold : string -> string) (uuid : nat -> string) (n : nat)
    (st : csv_state) : csv_outcome :=
  match n with
  | 0 => Running st
  | S i =>
      match csv_body fold uuid i st with
      | Running st' => csv_for fold uuid i st'
      | Threw s => Threw s
      end
  end.

(** [while (pending.length && addedAny)].  A pass that sets [addedAny]
    shortens [pending], so [S (length pending)] tests of the condition are
    enough; [fuel] counts them. *)
Fixpoint csv_while (fold : string -> string) (uuid : nat -> string) (fuel : nat)
    (st : csv_state) : csv_outcome :=
  match fuel with
  | 0 => Running st
  | S fuel' =>
      if negb (length (pending st) =? 0) && addedAny st then
        match csv_for fold uuid (length (pending st))
                      (mkCsv (chart st) (pending st) false (minted st)) with
        | Running st' => csv_while fold uuid fuel' st'
        | Threw s => Threw s
        end
      else Running st
  end.

Definition importFromCSV (fold : string -> string) (uuid : nat -> string)
    (rows : list csv_row) (s : OrgChart) : bool * OrgChart :=
  if length rows =? 0 then (false, s)
  else
    match pushState s with
    | None => (false, s)
    | Some s =>
        let pending := normalize <$> rows in
        match csv_while fold uuid (S (length pending)) (mkCsv s pending true 0) with
        | Running st => (true, chart st)
        | Threw s' => (false, s')
        end
    end.

(** The number the import reports as the rows that could not be imported,
    [pending.length] at the end of the loop; [None] when the import
    returns [false] and reports no number. *)
Definition importFromCSV_unimported (fold : string -> string) (uuid : nat -> string)
    (rows : list csv_row) (s : OrgChart) : option nat :=
  if length rows =? 0 then None
  else
    match pushState s with
    | None => None
    | Some s =>
        let rows := normalize <$> rows in
        match csv_while fold uuid (S (length rows)) (mkCsv s rows true 0) with
        | Running st => Some (length (pending st))
        | Threw _ => None
        end
    end.

(** ** The five mutation operations as commands

    [OpSetRoot] creates the employee and makes it the root, the way the
    caller of [setRoot] does. *)
Inductive op :=
  | OpSetRoot (uuid name title lob division dept email : string)
  | OpAdd (uuid name title : string) (managerId : jsval) (lob division dept email : string)
  | OpEdit (employeeId : string) (newData : patch)
  | OpRemove (employeeId : string) (newManagerId : jsval)
  | OpMove (employeeId newManagerId : string).

Definition apply_op (o : op) (s : OrgChart) : option OrgChart :=
  match o with
  | OpSetRoot uuid name title lob division dept email =>
      let ceo := length (mem s) in
      let e := new_Employee (mem s) uuid name title lob division dept email None in
      setRoot ceo (set_mem (mem s ++ [e]) s)
  | OpAdd uuid name title managerId lob division dept email =>
      snd <$> addEmployee uuid name title managerId lob division dept email s
  | OpEdit employeeId newData => snd <$> editEmployee employeeId newData s
  | OpRemove employeeId newManagerId => snd <$> removeEmployee employeeId newManagerId s
  | OpMove employeeId newManagerId => snd <$> moveSubtree employeeId newManagerId s
  end.

Fixpoint run (ops : list op) (s : OrgChart) : option OrgChart :=
  match ops with
  | [] => Some s
  | o :: ops' =>
      match apply_op o s with
      | Some s' => run ops' s'
      | None => None
      end
  end.

(** ** Example charts *)

Definition ceo_chart : OrgChart :=
  default new_OrgChart (apply_op (OpSetRoot "u0" "Ada" "CEO" "" "" "" "") new_OrgChart).

Definition chart3 : OrgChart :=
  default new_OrgChart
    (run [OpAdd "u1" "Bob" "VP" (JString "u0") "" "" "" "";
          OpAdd "u2" "Cy" "Eng" (JString "u1") "" "" "" "";
          OpAdd "u3" "Di" "Eng" (JString "u1") "" "" "" ""] ceo_chart).

(* ================================================================== *)
(** * Part 2.  What a valid chart is                                    *)
(* ================================================================== *)

(** ** The data-model invariants, read off the object graph

    The members are the objects held in the [employees] dictionary; the
    [managerId] of a member is the id of the object its [manager] field
    points to. *)

Definition member (s : OrgChart) (l : loc) : Prop :=
  l ∈ dict_values (employees s).

Definition managerId_of (h : heap) (l : loc) : option string :=
  (fun m => id (h !!! m)) <$> manager (h !!! l).

(** Following [manager] from [l] ends at the root. *)
Inductive chain_ends (s : OrgChart) : loc -> Prop :=
  | chain_root l :
      manager (mem s !!! l) = None -> root s = Some l -> chain_ends s l
  | chain_step l m :
      manager (mem s !!! l) = Some m -> chain_ends s m -> chain_ends s l.

(** 1. exactly one member has no manager, or the store is empty *)
Definition single_root (s : OrgChart) : Prop :=
  employees s = [] \/
  exists r, member s r /\ manager (mem s !!! r) = None /\
            forall l, member s l -> manager (mem s !!! l) = None -> l = r.

(** 2. the manager graph is acyclic *)
Definition acyclic (s : OrgChart) : Prop :=
  forall l, member s l -> chain_ends s l.

(** 3. [level] is consistent with the manager chain *)
Definition levels_consistent (s : OrgChart) : Prop :=
  forall l, member s l ->
    level (mem s !!! l) = match manager (mem s !!! l) with
                          | None => 0
                          | Some m => level (mem s !!! m) + 1
                          end.

(** 4. every manager reference resolves to a member *)
Definition managers_exist (s : OrgChart) : Prop :=
  forall l m, member s l -> manager (mem s !!! l) = Some m -> member s m.

Definition invariants (s : OrgChart) : Prop :=
  single_root s /\ acyclic s /\ levels_consistent s /\ managers_exist s.

(** ** Reachability through direct-report edges *)

Inductive descendant (h : heap) : loc -> loc -> Prop :=
  | desc_report a b : b ∈ reports (h !!! a) -> descendant h a b
  | desc_step a r b : r ∈ reports (h !!! a) -> descendant h r b -> descendant h a b.

(** [x] lies [d] report edges below [a]. *)
Inductive at_depth (h : heap) : loc -> nat -> loc -> Prop :=
  | at_depth_O a : at_depth h a 0 a
  | at_depth_S a r d x :
      r ∈ reports (h !!! a) -> at_depth h r d x -> at_depth h a (S d) x.

(** ** The shape of the object graph

    The engine keeps each parent/child edge twice, in [reports] and in
    [manager], and each member a third time in [employees].  A chart is
    valid when the three agree on one tree; [shape] is that tree, with the
    location of each object. *)

Inductive shape := Node (l : loc) (cs : list shape).

Definition top (t : shape) : loc := match t with Node l _ => l end.
Definition kids (t : shape) : list shape := match t with Node _ cs => cs end.

Fixpoint locs (t : shape) : list loc :=
  match t with Node l cs => l :: (cs ≫= locs) end.

Fixpoint height (t : shape) : nat :=
  match t with Node _ cs => S (max_list (height <$> cs)) end.

(** The locations strictly below the top. *)
Definition below (t : shape) : list loc := kids t ≫= locs.

Fixpoint first_some {A} (os : list (option A)) : option A :=
  match os with
  | [] => None
  | Some x :: _ => Some x
  | None :: os' => first_some os'
  end.

(** The subtree whose top is [a]. *)
Fixpoint subtree_at (a : loc) (t : shape) : option shape :=
  match t with
  | Node l cs =>
      if decide (l = a) then Some t else first_some (subtree_at a <$> cs)
  end.

(** [t] without the subtree whose top is [a]. *)
Fixpoint prune (a : loc) (t : shape) : shape :=
  match t with
  | Node l cs =>
      Node l ((fix go (cs : list shape) : list shape :=
                 match cs with
                 | [] => []
                 | c :: cs' => if decide (top c = a) then go cs' else prune a c :: go cs'
                 end) cs)
  end.

(** [t] with the shapes [us] as new last children of the node at [b]. *)
Fixpoint graft (b : loc) (us : list shape) (t : shape) : shape :=
  match t with
  | Node l cs => Node l ((graft b us <$> cs) ++ (if decide (l = b) then us else []))
  end.

(** [reports] and [manager] agree along [t]; [parent] is what the top's
    [manager] field holds. *)
Inductive links_ok (h : heap) : option loc -> shape -> Prop :=
  | links_ok_node parent l cs :
      l < length h ->
      manager (h !!! l) = parent ->
      reports (h !!! l) = top <$> cs ->
      Forall (links_ok h (Some l)) cs ->
      links_ok h parent (Node l cs).

(** The top of [t] is at level [lvl], each child one deeper. *)
Inductive levels_ok (h : heap) : nat -> shape -> Prop :=
  | levels_ok_node lvl l cs :
      level (h !!! l) = lvl ->
      Forall (levels_ok h (S lvl)) cs ->
      levels_ok h lvl (Node l cs).

(** [employees] holds exactly the objects of [t], each under its id.  None
    of the ids is ["__proto__"] ([valid_own] below): each member is an own
    property of [employees], and the prototype is [Object.prototype]. *)
Definition dict_ok (h : heap) (d : dict) (t : shape) : Prop :=
  NoDup d.*1 /\
  forall i l, (i, l) ∈ d <-> l ∈ locs t /\ id (h !!! l) = i.

Record valid_tree (s : OrgChart) (t : shape) : Prop := mkValid {
  valid_root : root s = Some (top t);
  valid_links : links_ok (mem s) None t;
  valid_levels : levels_ok (mem s) 0 t;
  valid_nodup : NoDup (locs t);
  valid_dict : dict_ok (mem s) (employees s) t;
  valid_ids : forall l, l ∈ locs t -> id (mem s !!! l) <> "";
  valid_own : forall l, l ∈ locs t -> id (mem s !!! l) <> "__proto__"
}.

(** A chart with a root whose object graph is a well-formed tree. *)
Definition valid (s : OrgChart) : Prop := exists t, valid_tree s t.

Definition empty_store (s : OrgChart) : Prop :=
  root s = None /\ employees s = [].

(** ** Documents *)

(** The document [serializeNode] produces along [t]. *)
Fixpoint doc_of (h : heap) (t : shape) : portable :=
  match t with
  | Node l cs =>
      let e := h !!! l in
      PNode (id e) (name e) (title e) (lob e) (division e) (dept e) (email e)
            (level e) (doc_of h <$> cs)
  end.

Fixpoint psize (d : portable) : nat :=
  match d with
  | PNode _ _ _ _ _ _ _ _ rs => S (sum_list (psize <$> rs))
  end.

(** The shape [_recreateFromJSON] lays out for [d] when the next free
    location is [base]: nodes are created parent first, children in order. *)
Fixpoint shape_of_doc (base : nat) (d : portable) : shape :=
  match d with
  | PNode _ _ _ _ _ _ _ _ rs =>
      Node base
        ((fix go (b : nat) (rs : list portable) : list shape :=
            match rs with
            | [] => []
            | r :: rs' => shape_of_doc b r :: go (b + psize r) rs'
            end) (S base) rs)
  end.

(** What a caller can see of the member with id [i]. *)
Record member_view := mkView {
  v_name : string;
  v_title : string;
  v_lob : string;
  v_division : string;
  v_dept : string;
  v_email : string;
  v_managerId : option string;
  v_reports : list string;
  v_level : nat
}.

Definition view (s : OrgChart) (i : string) : option member_view :=
  (fun l =>
     let e := mem s !!! l in
     {| v_name := name e; v_title := title e; v_lob := lob e;
        v_division := division e; v_dept := dept e; v_email := email e;
        v_managerId := managerId_of (mem s) l;
        v_reports := (fun r => id (mem s !!! r)) <$> reports e;
        v_level := level e |}) <$> dict_get (employees s) i.

(** ** What a mutation reports

    [true] or [false] as the method returns it; [addEmployee] reports
    failure by returning [null], [setRoot] returns nothing and counts as
    done. *)
Definition outcome (o : op) (s : OrgChart) : option (bool * OrgChart) :=
  match o with
  | OpSetRoot _ _ _ _ _ _ _ => (fun s' => (true, s')) <$> apply_op o s
  | OpAdd uuid name title managerId lob division dept email =>
      (fun r => (bool_decide (is_Some r.1), r.2))
        <$> addEmployee uuid name title managerId lob division dept email s
  | OpEdit employeeId newData => editEmployee employeeId newData s
  | OpRemove employeeId newManagerId => removeEmployee employeeId newManagerId s
  | OpMove employeeId newManagerId => moveSubtree employeeId newManagerId s
  end.

(** A chart with two employees, and the command that adds a third. *)
Definition chart2 : OrgChart :=
  default new_OrgChart
    (run [OpAdd "u1" "Bob" "VP" (JString "u0") "" "" "" ""] ceo_chart).

Definition add_cy : op := OpAdd "u2" "Cy" "Eng" (JString "u1") "" "" "" "".

(** ** What [_recreateFromJSON] builds *)

(** The ids of a document, parent first, children in order. *)
Fixpoint doc_ids (d : portable) : list string :=
  match d with
  | PNode i _ _ _ _ _ _ _ rs => i :: (rs ≫= doc_ids)
  end.

(** The shapes laid out for a list of documents, from location [b] on. *)
Fixpoint shapes_from (b : nat) (rs : list portable) : list shape :=
  match rs with
  | [] => []
  | r :: rs' => shape_of_doc b r :: shapes_from (b + psize r) rs'
  end.

(** [employees[i] = l] for the ids in order and consecutive locations. *)
Fixpoint register (d : dict) (ids : list string) (l : loc) : dict :=
  match ids with
  | [] => d
  | i :: ids' => register (dict_set d i l) ids' (S l)
  end.

(** The view of the object at [l], whatever [employees] holds. *)
Definition node_view (h : heap) (l : loc) : member_view :=
  let e := h !!! l in
  {| v_name := name e; v_title := title e; v_lob := lob e;
     v_division := division e; v_dept := dept e; v_email := email e;
     v_managerId := managerId_of h l;
     v_reports := (fun r => id (h !!! r)) <$> reports e;
     v_level := level e |}.

(** ** The three records of the import example *)

Definition row_ceo : csv_row :=
  mkRow (Some "CEO") (Some "Chief Executive") None None None None None.
Definition row_vp : csv_row :=
  mkRow (Some "VP") (Some "Vice President") (Some "CEO") None None None None.
Definition row_eng : csv_row :=
  mkRow (Some "Eng") (Some "Engineer") (Some "VP") None None None None.

(** The subtree the three records make, with the ids [uuid 0], [uuid 1]
    and [uuid 2] generated for them, hanging one level below the root. *)
Definition chain_doc (uuid : nat -> string) : portable :=
  PNode (uuid 0) "CEO" "Chief Executive" "" "" "" "" 1
    [PNode (uuid 1) "VP" "Vice President" "" "" "" "" 2
       [PNode (uuid 2) "Eng" "Engineer" "" "" "" "" 3 []]].

(** No member is called CEO or VP, in any letter case. *)
Definition no_name_clash (fold : string -> string) (s : OrgChart) : Prop :=
  forall l, member s l ->
    toLowerCase fold (name (mem s !!! l)) <> "ceo" /\
    toLowerCase fold (name (mem s !!! l)) <> "vp".

(** The first three ids [uuidv4()] returns are new and distinct. *)
Definition fresh_ids (uuid : nat -> string) (s : OrgChart) : Prop :=
  NoDup [uuid 0; uuid 1; uuid 2] /\
  forall k, k < 3 ->
    uuid k <> "" /\ uuid k <> "__proto__" /\ dict_get (employees s) (uuid k) = None.

(** The chart [addEmployee] leaves when it creates an employee under [m]
    after pushing the snapshot [snap]. *)
Definition added (uuid name title lob division dept email : string) (m : loc)
    (snap : portable) (s : OrgChart) : OrgChart :=
  mkOrgChart
    (update m (set_reports (reports (mem s !!! m) ++ [length (mem s)]))
       (mem s ++ [mkEmployee uuid name title lob division dept email (Some m) []
                             (level (mem s !!! m) + 1)]))
    (root s)
    (dict_set (employees s) uuid (length (mem s)))
    (history s ++ [snap]) [].

(** The charts the import example goes through: after the snapshot of
    [importFromCSV], and after each of the three employees is added. *)
Definition imp0 (s : OrgChart) (t : shape) : OrgChart :=
  set_future [] (set_history (history s ++ [doc_of (mem s) t]) s).

Definition tree1 (s : OrgChart) (t : shape) : shape :=
  graft (top t) [Node (length (mem s)) []] t.
Definition imp1 (uuid : nat -> string) (s : OrgChart) (t : shape) : OrgChart :=
  added (uuid 0) "CEO" "Chief Executive" "" "" "" "" (top t)
        (doc_of (mem s) t) (imp0 s t).

Definition tree2 (s : OrgChart) (t : shape) : shape :=
  graft (length (mem s)) [Node (S (length (mem s))) []] (tree1 s t).
Definition imp2 (uuid : nat -> string) (s : OrgChart) (t : shape) : OrgChart :=
  added (uuid 1) "VP" "Vice President" "" "" "" "" (length (mem s))
        (doc_of (mem (imp1 uuid s t)) (tree1 s t)) (imp1 uuid s t).

Definition tree3 (s : OrgChart) (t : shape) : shape :=
  graft (S (length (mem s))) [Node (S (S (length (mem s)))) []] (tree2 s t).
Definition imp3 (uuid : nat -> string) (s : OrgChart) (t : shape) : OrgChart :=
  added (uuid 2) "Eng" "Engineer" "" "" "" "" (S (length (mem s)))
        (doc_of (mem (imp2 uuid s t)) (tree2 s t)) (imp2 uuid s t).

Definition p_ceo : pending_row := mkPending "CEO" "Chief Executive" "" "" "" "" "".
Definition p_vp : pending_row := mkPending "VP" "Vice President" "CEO" "" "" "" "".
Definition p_eng : pending_row := mkPending "Eng" "Engineer" "VP" "" "" "" "".

(** Two runs of [uuidv4()], and a record naming a manager nobody has. *)
Definition ids_a (k : nat) : string :=
  match k with 0 => "a0" | 1 => "a1" | _ => "a2" end.
Definition ids_b (k : nat) : string :=
  match k with 0 => "b0" | 1 => "b1" | _ => "b2" end.

Definition row_ghost : csv_row :=
  mkRow (Some "A") (Some "Analyst") (Some "Ghost") None None None None.

(* ================================================================== *)
(** * Part 2a.  The rest of the engine, and what the menus compute      *)
(* ================================================================== *)

(** ** JSON files

    What [fs.readFile] and [JSON.parse] make of the file named: nothing (the
    file cannot be read or is not JSON, and the exception is thrown before
    the chart is touched), the value [null], or a document of the form
    [exportToJSON] writes.  JSON of another form, a number or an object
    without [reports], is not among the cases. *)
Inductive json_file :=
  | Unreadable
  | NullDocument
  | Document (obj : portable).

(** [importFromJSON(filename)]: [this.employees = {}] comes before
    [_recreateFromJSON(obj)], which throws on [null] when it reads
    [obj.name]. *)
Definition importFromJSON (file : json_file) (s : OrgChart) : bool * OrgChart :=
  match file with
  | Unreadable => (false, s)
  | NullDocument => (false, set_employees [] s)
  | Document obj =>
      let s := set_employees [] s in
      let s := (_recreateFromJSON obj None s).1 in
      match pushState s with
      | Some s => (true, s)
      | None => (false, s)
      end
  end.

(** [exportToJSON(filename)]: the document written to the file, [None] when
    nothing is written (no root, or the serialization throws). *)
Definition exportToJSON (s : OrgChart) : option portable :=
  match root s with
  | None => None
  | Some _ => _prepareForExport s
  end.

(** ** Printing

    [console.log] is modelled by the list of lines logged.  The colours of
    [chalk] are functions on strings, left open. *)

(** [_printSubtree(node, prefix, isTail)] *)
Fixpoint _printSubtree (fuel : nat) (h : heap) (node : loc) (prefix : string) (isTail : bool)
    : option (list string) :=
  match fuel with
  | 0 => None
  | S fuel' =>
      let e : Employee := h !!! node in
      let connector := if isTail then "└── " else "├── " in
      let line := (prefix ++ connector ++ name e ++ " (" ++ title e ++ ")")%string in
      let childPrefix := (prefix ++ (if isTail then "    " else "│   "))%string in
      match
        (fix each (rs : list loc) (idx : nat) : option (list string) :=
           match rs with
           | [] => Some []
           | report :: rs' =>
               match _printSubtree fuel' h report childPrefix
                                   (idx =? length (reports e) - 1) with
               | Some ls =>
                   match each rs' (S idx) with
                   | Some ls' => Some (ls ++ ls')
                   | None => None
                   end
               | None => None
               end
           end) (reports e) 0
      with
      | Some ls => Some (line :: ls)
      | None => None
      end
  end.

(** [printSubtree(employee)] *)
Definition printSubtree (employee : loc) (s : OrgChart) : option (list string) :=
  _printSubtree (recursion_limit (mem s)) (mem s) employee "" true.

Section Chalk.

Variables green blue red : string -> string.

(** [_printNode(node, prefix, isTail)] *)
Fixpoint _printNode (fuel : nat) (h : heap) (node : loc) (prefix : string) (isTail : bool)
  : option (list string) :=
match fuel with
| 0 => None
| S fuel' =>
    let e : Employee := h !!! node in
    let connector := if isTail then "└── " else "├── " in
    let line := (prefix ++ connector ++ green (name e) ++ " "
                 ++ blue ("(" ++ title e ++ ")"))%string in
    let childPrefix := (prefix ++ (if isTail then "    " else "│   "))%string in
    match
      (fix each (rs : list loc) (idx : nat) : option (list string) :=
         match rs with
         | [] => Some []
         | report :: rs' =>
             match _printNode fuel' h report childPrefix
                              (idx =? length (reports e) - 1) with
             | Some ls =>
                 match each rs' (S idx) with
                 | Some ls' => Some (ls ++ ls')
                 | None => None
                 end
             | None => None
             end
         end) (reports e) 0
    with
    | Some ls => Some (line :: ls)
    | None => None
    end
end.

(** [print()] *)
Definition print (s : OrgChart) : option (list string) :=
match root s with
| None => Some [red "Organization chart is empty. Add a CEO first."]
| Some r => _printNode (recursion_limit (mem s)) (mem s) r "" true
end.

End Chalk.

(** ** The lists the menus offer ([OrgChartApp])

    A choice is a label and the id it stands for. *)
Definition choice (e : Employee) : string * string :=
  ((name e ++ " (" ++ title e ++ ")")%string, id e).

(** [Object.values(this.orgChart.employees).filter((e) => e !== this.orgChart.root)]
    mapped to choices: the employees offered by [moveSubtree] and
    [removeEmployee] of the menu. *)
Definition employeeChoices (s : OrgChart) : list (string * string) :=
  (fun l => choice (mem s !!! l))
    <$> filter (fun l => root s <> Some l) (dict_values (employees s)).

(** [Object.values(this.orgChart.employees).filter((e) => e.id !== employeeId)]
    mapped to choices: the new managers offered for [employeeId]. *)
Definition managerChoices (employeeId : string) (s : OrgChart) : list (string * string) :=
  (fun l => choice (mem s !!! l))
    <$> filter (fun l => id (mem s !!! l) <> employeeId) (dict_values (employees s)).

(** ** The numbers of the statistics report

    [printStatisticsReport] up to the text it writes: the average span and
    the share of individual contributors are floating-point numbers and the
    text carries the date, so the record stops at the integers. *)
Record statistics := mkStatistics {
  totalEmployees : nat;
  maxLevel : nat;
  employeesByLevel : list nat;
  managersCount : nat;
  maxReports : nat;
  managerWithMostReports : option loc;
  individualContributors : nat
}.

(** [employees.forEach((e) => { employeesByLevel[e.level]++; })]; no index
    is out of range, [maxLevel] being the largest level. *)
Definition count_levels (h : heap) (employees : list loc) (maxLevel : nat) : list nat :=
  fold_left (fun arr e => alter S (level (h !!! e)) arr) employees (replicate (maxLevel + 1) 0).

(** The loop that looks for the manager with the most direct reports. *)
Definition most_reports (h : heap) (employees : list loc) : nat * option loc :=
  fold_left (fun '(maxReports, who) e =>
               if maxReports <? length (reports (h !!! e))
               then (length (reports (h !!! e)), Some e)
               else (maxReports, who))
            employees (0, None).

(** [None] when there are no employees: the report is not written. *)
Definition printStatisticsReport (s : OrgChart) : option statistics :=
  let h := mem s in
  let employees := dict_values (employees s) in
  if length employees =? 0 then None
  else
    let maxLevel := max_list ((fun e => level (h !!! e)) <$> employees) in
    let most := most_reports h employees in
    Some {| totalEmployees := length employees;
            maxLevel := maxLevel;
            employeesByLevel := count_levels h employees maxLevel;
            managersCount :=
              length (filter (fun e => 0 < length (reports (h !!! e))) employees);
            maxReports := most.1;
            managerWithMostReports := most.2;
            individualContributors :=
              length (filter (fun e => length (reports (h !!! e)) = 0) employees) |}.

(* ================================================================== *)
(** * Part 2b.  Definitions used by the statements and the proofs       *)
(* ================================================================== *)

(** A name that no member has as its id and no object inherits. *)
Definition unknown_id (s : OrgChart) (k : string) : Prop :=
  dict_get (employees s) k = None /\ k ∉ object_prototype_keys.

(** A name that every object inherits, unless a member has it as its id. *)
Definition builtin_name (s : OrgChart) (k : string) : Prop :=
  dict_get (employees s) k = None /\ k ∈ object_prototype_keys.

(** The manager [addEmployee] settles on, when what it finds under
    [managerId] is an [Employee] or nothing. *)
Definition resolve_manager (managerId : jsval) (s : OrgChart) (r : loc) : loc :=
  match employees_get s (to_key managerId) with
  | Found m => m
  | _ => r
  end.

(** The store after [addEmployee] created an employee under [m]. *)
Definition mem_added (h : heap) (m : loc) (e : Employee) : heap :=
  update m (set_reports (reports (h !!! m) ++ [length h])) (h ++ [e]).

Definition same_struct (e e' : Employee) : Prop :=
  id e' = id e /\ manager e' = manager e /\ reports e' = reports e /\ level e' = level e.

Definition ids_of (h : heap) (ls : list loc) : list string :=
  (fun r => id (h !!! r)) <$> ls.

(** [e'] is [e] with another [level]. *)
Definition same_but_level (e e' : Employee) : Prop :=
  set_level 0 e' = set_level 0 e.

(** What a run of [_updateLevels] (or of its loop) does to the store:
    levels change, inside [ls] only. *)
Definition relevelled (ls : list loc) (h h' : heap) : Prop :=
  length h' = length h /\
  (forall x, x ∉ ls -> h' !!! x = h !!! x) /\
  (forall x, same_but_level (h !!! x) (h' !!! x)).

Definition op_ok (s : OrgChart) (o : op) : Prop :=
  match o with
  | OpSetRoot uuid _ _ _ _ _ _ => empty_store s /\ uuid <> "" /\ uuid <> "__proto__"
  | OpAdd uuid _ _ managerId _ _ _ _ =>
      root s = None \/
      (uuid <> "" /\ uuid <> "__proto__" /\ dict_get (employees s) uuid = None /\
       ~ builtin_name s (to_key managerId))
  | OpEdit employeeId newData =>
      builtin_name s employeeId ->
      root s <> None /\ p_name newData = None /\
      (employeeId = "__proto__" -> assigns_nothing newData = true)
  | OpRemove employeeId newManagerId =>
      ~ builtin_name s employeeId /\
      forall l, dict_get (employees s) employeeId = Some l -> root s <> Some l ->
        reports (mem s !!! l) = [] \/
        exists x, truthy newManagerId = true /\
                  dict_get (employees s) (to_key newManagerId) = Some x /\
                  x <> l /\ ~ descendant (mem s) l x /\
                  (level (mem s !!! x) = level (mem s !!! l) \/
                   forall r, r ∈ reports (mem s !!! l) -> reports (mem s !!! r) = [])
  | OpMove employeeId newManagerId =>
      ~ (builtin_name s employeeId /\ is_Some (dict_get (employees s) newManagerId)) /\
      ~ (builtin_name s newManagerId /\
         exists a, dict_get (employees s) employeeId = Some a /\ root s <> Some a)
  end.

Fixpoint ops_ok (s : OrgChart) (ops : list op) : Prop :=
  match ops with
  | [] => True
  | o :: ops' => op_ok s o /\ forall s', apply_op o s = Some s' -> ops_ok s' ops'
  end.

Definition session1 : list op :=
  [OpSetRoot "u0" "Ada" "CEO" "" "" "" "";
   OpAdd "u1" "Bob" "VP" (JString "u0") "" "" "" "";
   OpAdd "u2" "Cy" "Eng" (JString "u1") "" "" "" "";
   OpAdd "u3" "Di" "Eng" JNull "" "" "" "";
   OpMove "u1" "u3";
   OpEdit "u2" (mkPatch (Some " Cyrus ") None None None None (Some ""));
   OpMove "u3" "u2";
   OpMove "u9" "u2";
   OpMove "u9" "constructor";
   OpEdit "toString" (mkPatch None (Some "x") None None None None);
   OpRemove "u1" (JString "u0");
   OpRemove "u2" JNull;
   OpRemove "u0" JNull].


Definition chart5 : OrgChart :=
  default new_OrgChart
    (run [OpSetRoot "u0" "Ada" "CEO" "" "" "" "";
          OpAdd "u1" "Bob" "VP" (JString "u0") "" "" "" "";
          OpAdd "u2" "Cy" "Eng" (JString "u1") "" "" "" "";
          OpAdd "u3" "Di" "Eng" (JString "u1") "" "" "" "";
          OpAdd "u4" "Ed" "Eng" (JString "u1") "" "" "" ""] new_OrgChart).

Definition recreate_children (rs : list portable) (parent : nat) (s : OrgChart) : OrgChart :=
  fold_left (fun s child => (_recreateFromJSON child (Some parent) s).1) rs s.

(** What [_recreateFromJSON d mgr] has done when it returns, from chart
    [s] to chart [s']. *)
Record recreated (d : portable) (mgr : option nat) (s s' : OrgChart) : Prop := mkRecreated {
  rc_length : length (mem s') = length (mem s) + psize d;
  rc_old : forall x, x < length (mem s) -> mgr <> Some x -> mem s' !!! x = mem s !!! x;
  rc_manager : forall m, mgr = Some m -> m < length (mem s) ->
    mem s' !!! m = set_reports (reports (mem s !!! m) ++ [length (mem s)]) (mem s !!! m);
  rc_links : links_ok (mem s') mgr (shape_of_doc (length (mem s)) d);
  rc_doc : doc_of (mem s') (shape_of_doc (length (mem s)) d) = d;
  rc_employees : employees s' = register (employees s) (doc_ids d) (length (mem s));
  rc_root : root s' = match mgr with None => Some (length (mem s)) | Some _ => root s end;
  rc_history : history s' = history s;
  rc_future : future s' = future s
}.

Record recreated_children (rs : list portable) (parent : nat) (s s' : OrgChart) : Prop :=
  mkRecreatedChildren {
  rcs_length : length (mem s') = length (mem s) + sum_list (psize <$> rs);
  rcs_old : forall x, x < length (mem s) -> x <> parent -> mem s' !!! x = mem s !!! x;
  rcs_parent :
    mem s' !!! parent =
    set_reports (reports (mem s !!! parent) ++ (top <$> shapes_from (length (mem s)) rs))
                (mem s !!! parent);
  rcs_links : Forall (links_ok (mem s') (Some parent)) (shapes_from (length (mem s)) rs);
  rcs_doc : doc_of (mem s') <$> shapes_from (length (mem s)) rs = rs;
  rcs_employees : employees s' = register (employees s) (rs ≫= doc_ids) (length (mem s));
  rcs_root : root s' = root s;
  rcs_history : history s' = history s;
  rcs_future : future s' = future s
}.

Definition doc_id (d : portable) : string :=
  match d with PNode i _ _ _ _ _ _ _ _ => i end.

Definition chart3_snapshot : portable :=
  PNode "u0" "Ada" "CEO" "" "" "" "" 0
    [PNode "u1" "Bob" "VP" "" "" "" "" 1
       [PNode "u2" "Cy" "Eng" "" "" "" "" 2 [];
        PNode "u3" "Di" "Eng" "" "" "" "" 2 []]].

(** The record has a name and a title. *)
Definition has_name_title (p : pending_row) : bool :=
  negb (bool_decide (r_name p = "")) && negb (bool_decide (r_title p = "")).

(** The record names a manager that no member of [s] is called. *)
Definition unresolved (fold : string -> string) (s : OrgChart) (p : pending_row) : Prop :=
  r_name p <> "" /\ r_title p <> "" /\ r_managerName p <> "" /\
  find_by_name fold (r_managerName p) s = None.

(** The same as a test. *)
Definition is_unresolved (fold : string -> string) (s : OrgChart) (p : pending_row) : bool :=
  has_name_title p && negb (bool_decide (r_managerName p = "")) &&
  bool_decide (find_by_name fold (r_managerName p) s = None).

(** What holds of the import between two steps of its loops: [rows0] are
    the records it started with, [c0] of them with name and title, and
    [n0] the members at the start.  The records that are no longer
    pending are not among those that stay without manager, in this chart
    or in one with more members. *)
Record csv_inv (fold : string -> string) (uuid : nat -> string) (rows0 : list pending_row)
    (n0 c0 : nat) (st : csv_state) : Prop := mkCsvInv {
  inv_valid : valid (chart st);
  inv_fresh : forall k, minted st <= k -> dict_get (employees (chart st)) (uuid k) = None;
  inv_size : length (employees (chart st)) = n0 + minted st;
  inv_count : minted st + length (filter (fun p => has_name_title p = true) (pending st)) = c0;
  inv_left : forall s',
    (forall q, unresolved fold s' q -> unresolved fold (chart st) q) ->
    filter (fun p => is_unresolved fold s' p = true) (pending st) =
    filter (fun p => is_unresolved fold s' p = true) rows0
}.

(** Ids for the examples: [#], [#i], [#ii], ... *)
Definition tally (k : nat) : string := String "#" (Nat.iter k (String "i") "").

(** The two printers are one walk with two ways of writing an employee. *)
Fixpoint walk (fmt : Employee -> string) (fuel : nat) (h : heap) (node : loc)
    (prefix : string) (isTail : bool) : option (list string) :=
  match fuel with
  | 0 => None
  | S fuel' =>
      let e : Employee := h !!! node in
      let connector := if isTail then "└── " else "├── " in
      let line := (prefix ++ connector ++ fmt e)%string in
      let childPrefix := (prefix ++ (if isTail then "    " else "│   "))%string in
      match
        (fix each (rs : list loc) (idx : nat) : option (list string) :=
           match rs with
           | [] => Some []
           | report :: rs' =>
               match walk fmt fuel' h report childPrefix (idx =? length (reports e) - 1) with
               | Some ls =>
                   match each rs' (S idx) with
                   | Some ls' => Some (ls ++ ls')
                   | None => None
                   end
               | None => None
               end
           end) (reports e) 0
      with
      | Some ls => Some (line :: ls)
      | None => None
      end
  end.

Fixpoint cat (bs : list string) : string :=
  match bs with
  | [] => ""
  | b :: bs' => (b ++ cat bs')%string
  end.

Definition is_block (b : string) : Prop := b = "    " \/ b = "│   ".

Definition is_connector (c : string) : Prop := c = "└── " \/ c = "├── ".

(** A line of the tree for a node [depth] edges below the node printed
    first: [depth] blocks of indentation, a connector, the text. *)
Definition tree_line (text : string) (depth : nat) (line : string) : Prop :=
  exists blocks c,
    length blocks = depth /\ Forall is_block blocks /\ is_connector c /\
    line = (cat blocks ++ c ++ text)%string.

(** The nodes of a shape, parent first, with their depth. *)
Fixpoint nodes_at (d : nat) (t : shape) : list (loc * nat) :=
  match t with Node l cs => (l, d) :: (cs ≫= nodes_at (S d)) end.

Definition plain_text (e : Employee) : string :=
  (name e ++ " (" ++ title e ++ ")")%string.

Definition coloured_text (green blue : string -> string) (e : Employee) : string :=
  (green (name e) ++ " " ++ blue ("(" ++ title e ++ ")"))%string.

Definition line_ok (fmt : Employee -> string) (h : heap) (line : string) (xd : loc * nat) : Prop :=
  tree_line (fmt (h !!! xd.1)) xd.2 line.

(** The colours of a terminal without colours. *)
Definition no_colour (x : string) : string := x.

(* ================================================================== *)
(** * Part 3.  Lemmas                                                   *)
(* ================================================================== *)

(** ** The object store *)

Lemma update_length l f (h : heap) : length (update l f h) = length h.
Proof. unfold update. apply length_insert. Qed.

Lemma update_eq l f (h : heap) :
  l < length h -> update l f h !!! l = f (h !!! l).
Proof. intros Hl. unfold update. by rewrite list_lookup_total_insert_eq. Qed.

Lemma update_ne l l' f (h : heap) :
  l <> l' -> update l f h !!! l' = h !!! l'.
Proof. intros Hl. unfold update. by rewrite list_lookup_total_insert_ne. Qed.

Lemma alloc_old (h : heap) e l : l < length h -> (h ++ [e]) !!! l = h !!! l.
Proof. intros. by rewrite lookup_total_app_l. Qed.

Lemma alloc_new (h : heap) e : (h ++ [e]) !!! length h = e.
Proof. rewrite lookup_total_app_r by lia. by rewrite Nat.sub_diag. Qed.

Lemma set_fields_simpl e :
  (forall v, id (set_manager v e) = id e) /\
  (forall v, id (set_level v e) = id e) /\
  (forall v, id (set_reports v e) = id e).
Proof. by destruct e. Qed.

(** ** Induction on shapes *)

Lemma shape_ind' (P : shape -> Prop) :
  (forall l cs, Forall P cs -> P (Node l cs)) -> forall t, P t.
Proof.
  intros H. fix IH 1. intros [l cs]. apply H.
  induction cs as [|c cs IHcs]; constructor; [apply IH | apply IHcs].
Qed.

Lemma portable_ind' (P : portable -> Prop) :
  (forall i n t lo dv de em lv rs, Forall P rs -> P (PNode i n t lo dv de em lv rs)) ->
  forall d, P d.
Proof.
  intros H. fix IH 1. intros [i n t lo dv de em lv rs]. apply H.
  induction rs as [|r rs IHrs]; constructor; [apply IH | apply IHrs].
Qed.

Lemma top_in_locs t : top t ∈ locs t.
Proof. destruct t; simpl. apply list_elem_of_here. Qed.

Lemma locs_child l cs c x : c ∈ cs -> x ∈ locs c -> x ∈ locs (Node l cs).
Proof.
  intros Hc Hx. simpl. apply list_elem_of_further.
  apply list_elem_of_bind. eauto.
Qed.

Lemma locs_node_inv l cs x :
  x ∈ locs (Node l cs) <-> x = l \/ exists c, c ∈ cs /\ x ∈ locs c.
Proof.
  simpl. rewrite elem_of_cons, list_elem_of_bind. split.
  - intros [->|(c & Hx & Hc)]; [by left|right; eauto].
  - intros [->|(c & Hc & Hx)]; [by left|right; eauto].
Qed.

Lemma below_in_locs t x : x ∈ below t -> x ∈ locs t.
Proof. destruct t as [l cs]. unfold below. simpl. apply list_elem_of_further. Qed.

Lemma locs_top_or_below t x : x ∈ locs t <-> x = top t \/ x ∈ below t.
Proof. destruct t as [l cs]. unfold below. simpl. apply elem_of_cons. Qed.

(** ** Links and levels along a shape *)

Lemma links_ok_inv h p l cs :
  links_ok h p (Node l cs) <->
  l < length h /\ manager (h !!! l) = p /\ reports (h !!! l) = top <$> cs /\
  Forall (links_ok h (Some l)) cs.
Proof.
  split.
  - inversion 1; subst. done.
  - intros (?&?&?&?). by constructor.
Qed.

Lemma levels_ok_inv h lvl l cs :
  levels_ok h lvl (Node l cs) <->
  level (h !!! l) = lvl /\ Forall (levels_ok h (S lvl)) cs.
Proof.
  split.
  - inversion 1; subst. done.
  - intros (?&?). by constructor.
Qed.

Lemma links_ok_bound h p t x : links_ok h p t -> x ∈ locs t -> x < length h.
Proof.
  revert p. induction t as [l cs IH] using shape_ind'. intros p Hok Hx.
  apply links_ok_inv in Hok as (Hl & _ & _ & Hcs).
  apply locs_node_inv in Hx as [->|(c & Hc & Hx)]; [done|].
  rewrite Forall_forall in IH, Hcs. eapply IH; eauto.
Qed.

Lemma links_ok_top_manager h p t : links_ok h p t -> manager (h !!! top t) = p.
Proof. destruct t. intros (?&?&?&?)%links_ok_inv. done. Qed.

Lemma links_ok_top_reports h p t : links_ok h p t -> reports (h !!! top t) = top <$> kids t.
Proof. destruct t. intros (?&?&?&?)%links_ok_inv. done. Qed.

(** [links_ok] reads the store only at the locations of the shape, and
    there only [manager] and [reports]. *)
Lemma links_ok_agree h h' p t :
  links_ok h p t ->
  (forall x, x ∈ locs t ->
     x < length h' /\ manager (h' !!! x) = manager (h !!! x) /\
     reports (h' !!! x) = reports (h !!! x)) ->
  links_ok h' p t.
Proof.
  revert p. induction t as [l cs IH] using shape_ind'. intros p Hok Hag.
  apply links_ok_inv in Hok as (Hl & Hm & Hr & Hcs).
  destruct (Hag l) as (Hl' & Hm' & Hr'); [apply (top_in_locs (Node l cs))|].
  apply links_ok_inv. repeat split; [done|congruence|congruence|].
  rewrite Forall_forall in IH, Hcs. apply Forall_forall. intros c Hc.
  apply IH; [done|by apply Hcs|]. intros x Hx. apply Hag. by eapply locs_child.
Qed.

(** The [manager] field of the top can be changed on its own. *)
Lemma links_ok_reparent h h' p p' t :
  links_ok h p t ->
  top t < length h' -> manager (h' !!! top t) = p' ->
  reports (h' !!! top t) = reports (h !!! top t) ->
  (forall x, x ∈ below t ->
     x < length h' /\ manager (h' !!! x) = manager (h !!! x) /\
     reports (h' !!! x) = reports (h !!! x)) ->
  links_ok h' p' t.
Proof.
  destruct t as [l cs]. simpl. intros Hok Hl Hm Hr Hag.
  apply links_ok_inv in Hok as (_ & _ & Hr0 & Hcs).
  apply links_ok_inv. repeat split; [done|done|congruence|].
  rewrite Forall_forall in Hcs. apply Forall_forall. intros c Hc.
  eapply links_ok_agree; [by apply Hcs|]. intros x Hx. apply Hag.
  unfold below. simpl. apply list_elem_of_bind. eauto.
Qed.

Lemma levels_ok_agree h h' lvl t :
  levels_ok h lvl t ->
  (forall x, x ∈ locs t -> level (h' !!! x) = level (h !!! x)) ->
  levels_ok h' lvl t.
Proof.
  revert lvl. induction t as [l cs IH] using shape_ind'. intros lvl Hok Hag.
  apply levels_ok_inv in Hok as (Hl & Hcs).
  apply levels_ok_inv. split.
  - rewrite Hag; [done|apply (top_in_locs (Node l cs))].
  - rewrite Forall_forall in IH, Hcs. apply Forall_forall. intros c Hc.
    apply IH; [done|by apply Hcs|]. intros x Hx. apply Hag. by eapply locs_child.
Qed.

Lemma levels_ok_top h lvl t : levels_ok h lvl t -> level (h !!! top t) = lvl.
Proof. destruct t. intros (?&?)%levels_ok_inv. done. Qed.

(** ** Serialising along a shape *)

Lemma height_child l cs c : c ∈ cs -> height c < height (Node l cs).
Proof.
  intros Hc. simpl. apply Nat.lt_succ_r.
  apply max_list_elem_of_le. apply list_elem_of_fmap. eauto.
Qed.

Lemma mapM_serialize fuel h (cs : list shape) :
  Forall (fun c => serializeNode fuel h (top c) = Some (doc_of h c)) cs ->
  mapM (serializeNode fuel h) (top <$> cs) = Some (doc_of h <$> cs).
Proof.
  intros H. apply mapM_Some. apply Forall2_fmap.
  induction H; constructor; auto.
Qed.

Lemma serializeNode_spec fuel h p t :
  links_ok h p t -> height t <= fuel ->
  serializeNode fuel h (top t) = Some (doc_of h t).
Proof.
  revert fuel p. induction t as [l cs IH] using shape_ind'. intros fuel p Hok Hf.
  apply links_ok_inv in Hok as (Hl & Hm & Hr & Hcs).
  destruct fuel as [|fuel]; [simpl in Hf; lia|].
  simpl. rewrite Hr. rewrite (mapM_serialize fuel h cs); [done|].
  rewrite Forall_forall in IH, Hcs. apply Forall_forall. intros c Hc.
  eapply IH; [done|by apply Hcs|].
  pose proof (height_child l cs c Hc). simpl in *. lia.
Qed.

Lemma height_le_locs t : height t <= length (locs t).
Proof.
  induction t as [l cs IH] using shape_ind'. simpl. apply le_n_S.
  induction IH as [|c cs Hc _ IHcs]; [simpl; lia|].
  rewrite fmap_cons, bind_cons, length_app. simpl. lia.
Qed.

Lemma NoDup_bounded_length (ls : list nat) n :
  NoDup ls -> (forall x, x ∈ ls -> x < n) -> length ls <= n.
Proof.
  intros Hnd Hb.
  assert (ls ⊆+ seq 0 n) as Hsub.
  { apply NoDup_submseteq; [done|]. intros x Hx. apply elem_of_seq. specialize (Hb x Hx). lia. }
  apply submseteq_length in Hsub. by rewrite length_seq in Hsub.
Qed.

Lemma height_le_heap h p t :
  links_ok h p t -> NoDup (locs t) -> height t <= length h.
Proof.
  intros Hok Hnd. eapply Nat.le_trans; [apply height_le_locs|].
  apply NoDup_bounded_length; [done|]. intros x Hx. by eapply links_ok_bound.
Qed.

Lemma valid_prepareForExport s t :
  valid_tree s t -> _prepareForExport s = Some (doc_of (mem s) t).
Proof.
  intros [Hroot Hlinks _ Hnd _ _]. unfold _prepareForExport. rewrite Hroot.
  eapply serializeNode_spec; [done|].
  unfold recursion_limit. pose proof (height_le_heap _ _ _ Hlinks Hnd). lia.
Qed.

Lemma valid_pushState s t :
  valid_tree s t ->
  pushState s = Some (set_future [] (set_history (history s ++ [doc_of (mem s) t]) s)).
Proof.
  intros Hv. unfold pushState, _serializeOrg. by rewrite (valid_prepareForExport s t).
Qed.

(** Validity does not read [history] and [future]. *)
Lemma valid_tree_ext s s' t :
  mem s' = mem s -> root s' = root s -> employees s' = employees s ->
  valid_tree s t -> valid_tree s' t.
Proof.
  intros Hm Hr He [? ? ? ? ? ?]. split; rewrite ?Hm, ?Hr, ?He; done.
Qed.

(** ** The dictionary *)

Lemma dict_get_Some_elem (d : dict) k v : dict_get d k = Some v -> (k, v) ∈ d.
Proof.
  induction d as [|[k' v'] d IH]; simpl; [done|].
  case_decide; intros Hg.
  - inversion Hg; subst. apply list_elem_of_here.
  - apply list_elem_of_further. auto.
Qed.

Lemma dict_get_None (d : dict) k : dict_get d k = None <-> k ∉ d.*1.
Proof.
  induction d as [|[k' v'] d IH]; simpl.
  - split; [intros _; apply not_elem_of_nil|done].
  - rewrite not_elem_of_cons. case_decide; [subst|]; split; try done.
    + by intros [? _].
    + intros H'. split; [done|]. by apply IH.
    + intros [_ H']. by apply IH.
Qed.

Lemma dict_get_elem (d : dict) k v :
  NoDup d.*1 -> (dict_get d k = Some v <-> (k, v) ∈ d).
Proof.
  intros Hnd. split; [apply dict_get_Some_elem|].
  induction d as [|[k' v'] d IH]; [by intros ?%elem_of_nil|].
  simpl in Hnd. apply NoDup_cons in Hnd as [Hk Hnd].
  intros [Heq|Hin]%elem_of_cons; simpl.
  - inversion Heq; subst. by rewrite decide_True.
  - rewrite decide_False; [by apply IH|]. intros ->. apply Hk.
    apply list_elem_of_fmap. by exists (k', v).
Qed.

Lemma dict_set_fresh (d : dict) k v : k ∉ d.*1 -> dict_set d k v = d ++ [(k, v)].
Proof.
  induction d as [|[k' v'] d IH]; simpl; [done|].
  rewrite not_elem_of_cons. intros [Hne Hk].
  rewrite decide_False by done. by rewrite IH.
Qed.

Lemma dict_delete_own (d : dict) k :
  k <> "__proto__" -> dict_delete d k = filter (fun p => p.1 <> k) d.
Proof. intros Hk. unfold dict_delete. by rewrite decide_False. Qed.

Lemma dict_delete_elem (d : dict) k i l :
  k <> "__proto__" -> ((i, l) ∈ dict_delete d k <-> (i, l) ∈ d /\ i <> k).
Proof. intros Hk. rewrite dict_delete_own by done. rewrite list_elem_of_filter. simpl. tauto. Qed.

Lemma dict_delete_NoDup (d : dict) k : NoDup d.*1 -> NoDup (dict_delete d k).*1.
Proof.
  unfold dict_delete. case_decide; [done|].
  induction d as [|[k' v'] d IH]; simpl; [done|].
  intros [Hk Hnd]%NoDup_cons. rewrite filter_cons. case_decide; simpl; [|by apply IH].
  apply NoDup_cons. split; [|by apply IH].
  intros Hin. apply Hk. apply list_elem_of_fmap in Hin as ([i l] & -> & Hin).
  apply list_elem_of_filter in Hin as [_ Hin]. apply list_elem_of_fmap. by exists (i, l).
Qed.

Lemma dict_ok_get h d t i l :
  dict_ok h d t -> (dict_get d i = Some l <-> l ∈ locs t /\ id (h !!! l) = i).
Proof. intros [Hnd Hd]. rewrite dict_get_elem by done. apply Hd. Qed.

(** Distinct members have distinct ids. *)
Lemma dict_ok_inj h d t x y :
  dict_ok h d t -> x ∈ locs t -> y ∈ locs t -> id (h !!! x) = id (h !!! y) -> x = y.
Proof.
  intros Hd Hx Hy Hid.
  assert (dict_get d (id (h !!! x)) = Some x) as H1 by (by apply (dict_ok_get h d t)).
  assert (dict_get d (id (h !!! x)) = Some y) as H2 by (by apply (dict_ok_get h d t)).
  congruence.
Qed.

(** ** [Object.values] *)

Lemma insert_index_perm n v l : insert_index n v l ≡ₚ (n, v) :: l.
Proof.
  induction l as [|[m w] l IH]; simpl; [done|].
  destruct (n <? m)%N; [done|]. rewrite IH. apply Permutation_swap.
Qed.

Lemma array_index_proto : array_index "__proto__" = None.
Proof. reflexivity. Qed.

(** The values are those of the own properties, in some order. *)
Lemma dict_values_own (d : dict) :
  dict_values d ≡ₚ (filter (fun p => p.1 <> "__proto__") d).*2.
Proof.
  unfold dict_values. induction d as [|[k v] d IH]; [done|].
  rewrite !filter_cons. cbn [indexed fst].
  destruct (array_index k) as [n|] eqn:Hk.
  - rewrite decide_False by (intros [? _]; done).
    rewrite decide_True by (intros ->; by rewrite array_index_proto in Hk).
    rewrite insert_index_perm. cbn [fmap list_fmap snd]. simpl. by rewrite IH.
  - destruct (decide (k = "__proto__")) as [->|Hne].
    + rewrite decide_False by (intros [_ Hx]; by apply Hx). done.
    + rewrite decide_True by done. rewrite decide_True by done.
      rewrite !fmap_cons. cbn [snd].
      rewrite <- Permutation_middle. by rewrite IH.
Qed.

Lemma dict_values_all (d : dict) : "__proto__" ∉ d.*1 -> dict_values d ≡ₚ d.*2.
Proof.
  intros Hp. rewrite dict_values_own. f_equiv.
  induction d as [|[k v] d IH]; [done|].
  rewrite fmap_cons in Hp. apply not_elem_of_cons in Hp as [Hk Hp]. simpl in Hk.
  rewrite filter_cons, decide_True by (simpl; congruence). by rewrite IH.
Qed.

Lemma elem_of_dict_values (d : dict) v :
  v ∈ dict_values d <-> exists k, (k, v) ∈ d /\ k <> "__proto__".
Proof.
  rewrite dict_values_own, list_elem_of_fmap. split.
  - intros ([k v'] & -> & [? ?]%list_elem_of_filter). by exists k.
  - intros (k & Hin & Hk). exists (k, v). split; [done|]. by apply list_elem_of_filter.
Qed.

(** No array index among the keys: the values come in the order of the
    dictionary. *)
Lemma dict_values_plain (d : dict) :
  Forall (fun k => array_index k = None /\ k <> "__proto__") d.*1 -> dict_values d = d.*2.
Proof.
  intros Hd. unfold dict_values.
  assert (indexed d = [] /\
          filter (fun p => array_index p.1 = None /\ p.1 <> "__proto__") d = d) as [-> ->];
    [|done].
  induction d as [|[k v] d IH]; [done|].
  rewrite fmap_cons in Hd. apply Forall_cons in Hd as [[Hk Hp] Hd]. simpl in Hk, Hp.
  destruct (IH Hd) as [Hi Hf]. cbn [indexed]. rewrite Hk. split; [done|].
  rewrite filter_cons, decide_True by done. by rewrite Hf.
Qed.

Lemma dict_ok_own h d t :
  dict_ok h d t -> (forall l, l ∈ locs t -> id (h !!! l) <> "__proto__") ->
  "__proto__" ∉ d.*1.
Proof.
  intros [Hnd Hd] Hown Hin. apply list_elem_of_fmap in Hin as ([i l] & Hi & Hin).
  simpl in Hi. subst i. apply Hd in Hin as [Hl Hid]. by apply (Hown l).
Qed.

Lemma dict_ok_values h d t l :
  dict_ok h d t -> (forall l, l ∈ locs t -> id (h !!! l) <> "__proto__") ->
  (l ∈ dict_values d <-> l ∈ locs t).
Proof.
  intros Hok Hown. pose proof (dict_ok_own _ _ _ Hok Hown) as Hp.
  destruct Hok as [Hnd Hd].
  rewrite (dict_values_all d Hp), list_elem_of_fmap. split.
  - intros ([i l'] & -> & Hin). by apply Hd in Hin as [? _].
  - intros Hl. exists (id (h !!! l), l). split; [done|]. by apply Hd.
Qed.

(** ** Reading a property of [employees] *)

Lemma employees_get_Found s k l :
  dict_get (employees s) k = Some l -> employees_get s k = Found l.
Proof. intros H. unfold employees_get. by rewrite H. Qed.

Lemma employees_get_plain s k :
  dict_get (employees s) "__proto__" = None ->
  employees_get s k =
    match dict_get (employees s) k with
    | Some l => Found l
    | None => if bool_decide (k = "__proto__") then Other ObjectPrototype
              else if bool_decide (k ∈ object_prototype_keys) then Other (ObjectFunction k)
              else Falsy
    end.
Proof. intros Hp. unfold employees_get. by rewrite Hp. Qed.

Lemma employees_get_Falsy s k :
  dict_get (employees s) "__proto__" = None ->
  unknown_id s k -> employees_get s k = Falsy.
Proof.
  intros Hp [Hk Hb]. rewrite employees_get_plain, Hk by done.
  rewrite bool_decide_eq_false_2; [by rewrite bool_decide_eq_false_2|].
  intros ->. apply Hb. unfold object_prototype_keys. set_solver.
Qed.

Lemma employees_get_Other s k :
  dict_get (employees s) "__proto__" = None ->
  builtin_name s k -> exists b, employees_get s k = Other b.
Proof.
  intros Hp [Hk Hb]. rewrite employees_get_plain, Hk by done.
  case_bool_decide; [by eexists|]. rewrite bool_decide_eq_true_2 by done. by eexists.
Qed.

Lemma valid_no_proto s t : valid_tree s t -> dict_get (employees s) "__proto__" = None.
Proof.
  intros Hv. apply dict_get_None.
  apply (dict_ok_own _ _ _ (valid_dict _ _ Hv) (valid_own _ _ Hv)).
Qed.

Lemma valid_member s t l : valid_tree s t -> (member s l <-> l ∈ locs t).
Proof. intros Hv. apply (dict_ok_values _ _ _ _ (valid_dict _ _ Hv) (valid_own _ _ Hv)). Qed.

(** ** Grafting subtrees *)

Lemma fmap_fixed {A} (f : A -> A) (l : list A) :
  Forall (fun x => f x = x) l -> f <$> l = l.
Proof. induction 1 as [|x l Hx _ IH]; [done|]. by rewrite fmap_cons, Hx, IH. Qed.

Lemma top_graft b us t : top (graft b us t) = top t.
Proof. by destruct t. Qed.

Lemma tops_graft b us (cs : list shape) : top <$> (graft b us <$> cs) = top <$> cs.
Proof. induction cs as [|c cs IH]; [done|]. by rewrite !fmap_cons, top_graft, IH. Qed.

Lemma graft_notin b us t : b ∉ locs t -> graft b us t = t.
Proof.
  induction t as [l cs IH] using shape_ind'. intros Hb. simpl.
  rewrite decide_False; [|intros Heq; apply Hb; subst; apply list_elem_of_here].
  rewrite app_nil_r. f_equal. apply fmap_fixed.
  rewrite Forall_forall in IH. apply Forall_forall. intros c Hc. apply IH; [done|].
  intros Hin. apply Hb. by eapply locs_child.
Qed.

Lemma bind_graft_notin b us (cs : list shape) :
  b ∉ cs ≫= locs -> graft b us <$> cs = cs.
Proof.
  intros Hb. apply fmap_fixed. apply Forall_forall. intros c Hc.
  apply graft_notin. intros Hin. apply Hb. apply list_elem_of_bind. eauto.
Qed.

Lemma locs_graft b us t :
  NoDup (locs t) -> b ∈ locs t -> locs (graft b us t) ≡ₚ locs t ++ (us ≫= locs).
Proof.
  induction t as [l cs IH] using shape_ind'. intros Hnd Hb.
  simpl in Hnd. apply NoDup_cons in Hnd as [Hl Hnd]. simpl.
  destruct (decide (l = b)) as [->|Hne].
  - rewrite bind_graft_notin by done. by rewrite bind_app.
  - rewrite app_nil_r. f_equiv.
    apply locs_node_inv in Hb as [->|(c0 & Hc0 & Hb)]; [done|].
    assert (b ∈ cs ≫= locs) as Hbin by (apply list_elem_of_bind; eauto).
    clear c0 Hc0 Hb Hl. induction cs as [|c cs IHcs]; [by apply elem_of_nil in Hbin|].
    apply Forall_cons in IH as [IHc IH]. rewrite bind_cons in Hnd, Hbin.
    apply NoDup_app in Hnd as (Hndc & Hdisj & Hndcs).
    rewrite fmap_cons, !bind_cons.
    apply elem_of_app in Hbin as [Hbc|Hbcs].
    + rewrite (bind_graft_notin b us cs) by (by apply Hdisj).
      rewrite IHc by done. rewrite <- !(assoc (++)). f_equiv. apply Permutation_app_comm.
    + rewrite graft_notin by (intros Hbc; by apply (Hdisj b)).
      rewrite IHcs by done. by rewrite (assoc (++)).
Qed.

Lemma links_ok_graft h h' p b us t :
  links_ok h p t ->
  (forall x, x ∈ locs t -> x < length h' /\ manager (h' !!! x) = manager (h !!! x)) ->
  (forall x, x ∈ locs t -> x <> b -> reports (h' !!! x) = reports (h !!! x)) ->
  reports (h' !!! b) = reports (h !!! b) ++ (top <$> us) ->
  Forall (links_ok h' (Some b)) us ->
  links_ok h' p (graft b us t).
Proof.
  intros Hok Hm Hr Hb Hu. revert p Hok Hm Hr.
  induction t as [l cs IH] using shape_ind'. intros p Hok Hm Hr.
  apply links_ok_inv in Hok as (Hl & Hml & Hrl & Hcs).
  destruct (Hm l) as [Hl' Hml']; [apply (top_in_locs (Node l cs))|].
  simpl. apply links_ok_inv. repeat split; [done|congruence| |].
  - rewrite fmap_app, tops_graft.
    case_decide as Hlb.
    + subst l. by rewrite Hb, Hrl.
    + simpl. rewrite app_nil_r. rewrite Hr; [done|apply (top_in_locs (Node l cs))|done].
  - apply Forall_app. split.
    + rewrite Forall_fmap. rewrite Forall_forall in IH, Hcs. apply Forall_forall. intros c Hc.
      simpl. apply IH; [done|by apply Hcs| |].
      * intros x Hx. apply Hm. by eapply locs_child.
      * intros x Hx. apply Hr. by eapply locs_child.
    + case_decide; [by subst|constructor].
Qed.

Lemma levels_ok_graft h h' lvl b us t :
  levels_ok h lvl t ->
  (forall x, x ∈ locs t -> level (h' !!! x) = level (h !!! x)) ->
  Forall (levels_ok h' (S (level (h !!! b)))) us ->
  levels_ok h' lvl (graft b us t).
Proof.
  intros Hok Hag Hu. revert lvl Hok Hag.
  induction t as [l cs IH] using shape_ind'. intros lvl Hok Hag.
  apply levels_ok_inv in Hok as (Hl & Hcs).
  simpl. apply levels_ok_inv. split.
  - rewrite Hag; [done|apply (top_in_locs (Node l cs))].
  - apply Forall_app. split.
    + rewrite Forall_fmap. rewrite Forall_forall in IH, Hcs. apply Forall_forall. intros c Hc.
      simpl. apply IH; [done|by apply Hcs|].
      intros x Hx. apply Hag. by eapply locs_child.
    + case_decide; [by subst|constructor].
Qed.

(** ** Pruning a subtree *)

Lemma prune_unfold a l cs :
  prune a (Node l cs) = Node l (prune a <$> filter (fun c => top c <> a) cs).
Proof.
  simpl. f_equal. induction cs as [|c cs IH]; [done|].
  rewrite filter_cons. destruct (decide (top c = a)) as [Heq|Hne].
  - by rewrite decide_False by (by intros ?).
  - rewrite decide_True by done. by rewrite fmap_cons, IH.
Qed.

Lemma top_prune a t : top (prune a t) = top t.
Proof. by destruct t. Qed.

Lemma filter_all {A} (P : A -> Prop) `{forall x, Decision (P x)} (l : list A) :
  Forall P l -> filter P l = l.
Proof.
  induction 1 as [|x l Hx _ IH]; [done|]. by rewrite filter_cons, decide_True, IH.
Qed.

Lemma prune_notin a t : a ∉ locs t -> prune a t = t.
Proof.
  induction t as [l cs IH] using shape_ind'. intros Ha. rewrite prune_unfold. f_equal.
  rewrite filter_all.
  - apply fmap_fixed. rewrite Forall_forall in IH. apply Forall_forall. intros c Hc.
    apply IH; [done|]. intros Hin. apply Ha. by eapply locs_child.
  - apply Forall_forall. intros c Hc Heq. apply Ha. eapply locs_child; [done|].
    rewrite <- Heq. apply top_in_locs.
Qed.

Lemma locs_prune_incl a t x : x ∈ locs (prune a t) -> x ∈ locs t.
Proof.
  revert x. induction t as [l cs IH] using shape_ind'. intros x. rewrite prune_unfold.
  rewrite !locs_node_inv. intros [->|(c' & Hc' & Hx)]; [by left|right].
  apply list_elem_of_fmap in Hc' as (c & -> & Hc).
  apply list_elem_of_filter in Hc as [_ Hc].
  rewrite Forall_forall in IH. exists c. split; [done|]. by apply IH.
Qed.

Lemma locs_prune_child a l cs c x :
  c ∈ cs -> top c <> a -> x ∈ locs (prune a c) -> x ∈ locs (prune a (Node l cs)).
Proof.
  intros Hc Ht Hx. rewrite prune_unfold. apply locs_node_inv. right.
  exists (prune a c). split; [|done]. apply list_elem_of_fmap. exists c. split; [done|].
  by apply list_elem_of_filter.
Qed.

Lemma filter_tops a (cs : list shape) :
  filter (fun r => r <> a) (top <$> cs) = top <$> filter (fun c => top c <> a) cs.
Proof.
  induction cs as [|c cs IH]; [done|]. rewrite fmap_cons, !filter_cons.
  case_decide; [by rewrite fmap_cons, IH|done].
Qed.

Lemma tops_prune a (cs : list shape) : top <$> (prune a <$> cs) = top <$> cs.
Proof. induction cs as [|c cs IH]; [done|]. by rewrite !fmap_cons, top_prune, IH. Qed.

Lemma links_ok_prune h h' p a t :
  links_ok h p t ->
  (forall x, x ∈ locs (prune a t) ->
     x < length h' /\ manager (h' !!! x) = manager (h !!! x) /\
     reports (h' !!! x) = filter (fun r => r <> a) (reports (h !!! x))) ->
  links_ok h' p (prune a t).
Proof.
  revert p. induction t as [l cs IH] using shape_ind'. intros p Hok Hag.
  apply links_ok_inv in Hok as (Hl & Hm & Hr & Hcs).
  destruct (Hag l) as (Hl' & Hm' & Hr').
  { rewrite prune_unfold. apply list_elem_of_here. }
  rewrite prune_unfold. apply links_ok_inv. repeat split; [done|congruence| |].
  - by rewrite Hr', Hr, filter_tops, tops_prune.
  - rewrite Forall_fmap. rewrite Forall_forall in IH, Hcs. apply Forall_forall.
    intros c [Htop Hc]%list_elem_of_filter. simpl. apply IH; [done|by apply Hcs|].
    intros x Hx. apply Hag. by eapply locs_prune_child.
Qed.

Lemma levels_ok_prune h h' lvl a t :
  levels_ok h lvl t ->
  (forall x, x ∈ locs (prune a t) -> level (h' !!! x) = level (h !!! x)) ->
  levels_ok h' lvl (prune a t).
Proof.
  revert lvl. induction t as [l cs IH] using shape_ind'. intros lvl Hok Hag.
  apply levels_ok_inv in Hok as (Hl & Hcs).
  rewrite prune_unfold. apply levels_ok_inv. split.
  - rewrite Hag; [done|]. rewrite prune_unfold. apply list_elem_of_here.
  - rewrite Forall_fmap. rewrite Forall_forall in IH, Hcs. apply Forall_forall.
    intros c [Htop Hc]%list_elem_of_filter. simpl. apply IH; [done|by apply Hcs|].
    intros x Hx. apply Hag. by eapply locs_prune_child.
Qed.

(** ** Subtrees *)

Lemma subtree_at_unfold a l cs :
  subtree_at a (Node l cs) =
  if decide (l = a) then Some (Node l cs) else first_some (subtree_at a <$> cs).
Proof. done. Qed.

Lemma first_some_Some {A B} (f : A -> option B) (l : list A) y :
  first_some (f <$> l) = Some y -> exists x, x ∈ l /\ f x = Some y.
Proof.
  induction l as [|x l IH]; [done|]. rewrite fmap_cons. simpl.
  destruct (f x) as [y'|] eqn:Hfx.
  - intros [= ->]. exists x. split; [apply list_elem_of_here|done].
  - intros (x' & Hx' & Hf)%IH. exists x'. split; [by apply list_elem_of_further|done].
Qed.

Lemma first_some_None {A B} (f : A -> option B) (l : list A) :
  Forall (fun x => f x = None) l -> first_some (f <$> l) = None.
Proof. induction 1 as [|x l Hx _ IH]; [done|]. rewrite fmap_cons. simpl. by rewrite Hx. Qed.

Lemma subtree_at_top a t u : subtree_at a t = Some u -> top u = a.
Proof.
  revert u. induction t as [l cs IH] using shape_ind'. intros u.
  rewrite subtree_at_unfold. case_decide.
  - intros [= <-]. done.
  - intros (c & Hc & Hu)%first_some_Some. rewrite Forall_forall in IH. by eapply IH.
Qed.

Lemma subtree_at_None a t : a ∉ locs t -> subtree_at a t = None.
Proof.
  induction t as [l cs IH] using shape_ind'. intros Ha.
  rewrite subtree_at_unfold. rewrite decide_False.
  - apply first_some_None. rewrite Forall_forall in IH. apply Forall_forall.
    intros c Hc. apply IH; [done|]. intros Hin. apply Ha. by eapply locs_child.
  - intros ->. apply Ha. apply list_elem_of_here.
Qed.

Lemma subtree_at_locs a t u x : subtree_at a t = Some u -> x ∈ locs u -> x ∈ locs t.
Proof.
  revert u. induction t as [l cs IH] using shape_ind'. intros u.
  rewrite subtree_at_unfold. case_decide.
  - intros [= <-]. done.
  - intros (c & Hc & Hu)%first_some_Some Hx. rewrite Forall_forall in IH.
    eapply locs_child; [done|]. by eapply IH.
Qed.

Lemma subtree_at_Some a t : a ∈ locs t -> exists u, subtree_at a t = Some u.
Proof.
  induction t as [l cs IH] using shape_ind'. intros Ha.
  rewrite subtree_at_unfold. case_decide; [eauto|].
  apply locs_node_inv in Ha as [->|(c & Hc & Ha)]; [done|].
  clear H. induction cs as [|c' cs IHcs]; [by apply elem_of_nil in Hc|].
  apply Forall_cons in IH as [IHc IH]. rewrite fmap_cons. simpl.
  destruct (subtree_at a c') as [u|] eqn:Hu; [eauto|].
  apply elem_of_cons in Hc as [->|Hc].
  - destruct (IHc Ha) as [u' Hu']. congruence.
  - by apply IHcs.
Qed.

Lemma subtree_links h p a t u :
  links_ok h p t -> subtree_at a t = Some u -> links_ok h (manager (h !!! a)) u.
Proof.
  revert p u. induction t as [l cs IH] using shape_ind'. intros p u Hok.
  rewrite subtree_at_unfold. case_decide.
  - intros [= <-]. subst.
    apply links_ok_inv in Hok as (?&?&?&?). apply links_ok_inv. done.
  - intros (c & Hc & Hu)%first_some_Some.
    apply links_ok_inv in Hok as (_ & _ & _ & Hcs).
    rewrite Forall_forall in IH, Hcs. eapply IH; [done|by apply Hcs|done].
Qed.

Lemma subtree_levels h lvl a t u :
  levels_ok h lvl t -> subtree_at a t = Some u -> levels_ok h (level (h !!! a)) u.
Proof.
  revert lvl u. induction t as [l cs IH] using shape_ind'. intros lvl u Hok.
  rewrite subtree_at_unfold. case_decide.
  - intros [= <-]. subst. apply levels_ok_inv in Hok as (<-&?). by apply levels_ok_inv.
  - intros (c & Hc & Hu)%first_some_Some.
    apply levels_ok_inv in Hok as (_ & Hcs).
    rewrite Forall_forall in IH, Hcs. eapply IH; [done|by apply Hcs|done].
Qed.

(** ** Parents *)

(** A report of a node of the shape has that node as its manager. *)
Lemma links_report_manager h p t x r :
  links_ok h p t -> x ∈ locs t -> r ∈ reports (h !!! x) ->
  manager (h !!! r) = Some x /\ r ∈ below t.
Proof.
  revert p. induction t as [l cs IH] using shape_ind'. intros p Hok Hx Hr.
  apply links_ok_inv in Hok as (Hl & Hm & Hrl & Hcs).
  rewrite Forall_forall in IH, Hcs.
  apply locs_node_inv in Hx as [->|(c & Hc & Hx)].
  - rewrite Hrl in Hr. apply list_elem_of_fmap in Hr as (c & -> & Hc). split.
    + eapply links_ok_top_manager. by apply Hcs.
    + unfold below. simpl. apply list_elem_of_bind. exists c. split; [apply top_in_locs|done].
  - destruct (IH c Hc (Some l)) as [Hmr Hb]; [by apply Hcs|done|done|]. split; [done|].
    unfold below. simpl. apply list_elem_of_bind. exists c. split; [|done].
    by apply below_in_locs.
Qed.

(** Every node but the top has its parent in the shape. *)
Lemma links_parent h p t a :
  links_ok h p t -> a ∈ below t ->
  exists P, manager (h !!! a) = Some P /\ P ∈ locs t /\ a ∈ reports (h !!! P).
Proof.
  revert p. induction t as [l cs IH] using shape_ind'. intros p Hok Ha.
  apply links_ok_inv in Hok as (Hl & Hm & Hrl & Hcs).
  rewrite Forall_forall in IH, Hcs.
  unfold below in Ha. simpl in Ha. apply list_elem_of_bind in Ha as (c & Ha & Hc).
  apply locs_top_or_below in Ha as [->|Ha].
  - exists l. split; [|split].
    + eapply links_ok_top_manager. by apply Hcs.
    + apply list_elem_of_here.
    + rewrite Hrl. apply list_elem_of_fmap. eauto.
  - destruct (IH c Hc (Some l)) as (P & HP & HPin & HaP); [by apply Hcs|done|].
    exists P. split; [done|]. split; [|done]. by eapply locs_child.
Qed.

Lemma NoDup_top_not_below t : NoDup (locs t) -> top t ∉ below t.
Proof. destruct t as [l cs]. simpl. unfold below. simpl. by intros [? _]%NoDup_cons. Qed.

Lemma locs_prune a t u :
  NoDup (locs t) -> a <> top t -> subtree_at a t = Some u ->
  locs t ≡ₚ locs (prune a t) ++ locs u.
Proof.
  revert u. induction t as [l cs IH] using shape_ind'. intros u Hnd Hat.
  simpl in Hat. rewrite subtree_at_unfold, decide_False by done.
  rewrite prune_unfold. simpl. apply NoDup_cons in Hnd as [_ Hnd]. intros Hu.
  f_equiv. induction cs as [|c cs IHcs]; [done|].
  apply Forall_cons in IH as [IHc IH]. rewrite bind_cons in Hnd.
  apply NoDup_app in Hnd as (Hndc & Hdisj & Hndcs).
  rewrite fmap_cons in Hu. simpl in Hu. rewrite filter_cons, bind_cons.
  destruct (subtree_at a c) as [u'|] eqn:Hu'.
  - injection Hu as ->.
    assert (a ∈ locs c) as Hac.
    { eapply subtree_at_locs; [done|]. rewrite <- (subtree_at_top a c u Hu'). apply top_in_locs. }
    assert (prune a <$> filter (fun c => top c <> a) cs = cs) as Hrest.
    { assert (prune a (Node l cs) = Node l cs) as Heq.
      { apply prune_notin. simpl. rewrite not_elem_of_cons. split; [done|]. by apply Hdisj. }
      rewrite prune_unfold in Heq. by injection Heq. }
    destruct (decide (top c = a)) as [Htop|Htop].
    + rewrite decide_False by (by intros ?). rewrite Hrest.
      destruct c as [lc ccs]. simpl in Htop. subst lc.
      rewrite subtree_at_unfold, decide_True in Hu' by done. injection Hu' as <-.
      apply Permutation_app_comm.
    + rewrite decide_True by done. rewrite fmap_cons, bind_cons, Hrest.
      rewrite (IHc u) by done. rewrite <- !(assoc (++)). f_equiv. apply Permutation_app_comm.
  - assert (a ∉ locs c) as Hac.
    { intros Hin. apply subtree_at_Some in Hin as [? ?]. congruence. }
    rewrite decide_True.
    + rewrite fmap_cons, bind_cons. rewrite prune_notin by done.
      rewrite <- (assoc (++)). f_equiv. by apply IHcs.
    + intros Htop. apply Hac. rewrite <- Htop. apply top_in_locs.
Qed.

(** ** [addEmployee] on a valid chart *)

(** [history] and [future] are not read. *)
Lemma employees_get_ext s s' k :
  mem s' = mem s -> employees s' = employees s -> employees_get s' k = employees_get s k.
Proof. intros Hm He. unfold employees_get. by rewrite Hm, He. Qed.

(** In a valid chart an [Employee] is found under the id of a member
    only. *)
Lemma employees_get_valid s t k l :
  valid_tree s t -> (employees_get s k = Found l <-> dict_get (employees s) k = Some l).
Proof.
  intros Hv. rewrite (employees_get_plain s k (valid_no_proto s t Hv)).
  destruct (dict_get (employees s) k) as [x|]; [split; congruence|].
  split; [|done]. repeat case_bool_decide; done.
Qed.

Lemma employees_get_valid_Falsy s t k :
  valid_tree s t -> (employees_get s k = Falsy <-> unknown_id s k).
Proof.
  intros Hv. split; [|apply employees_get_Falsy, (valid_no_proto s t Hv)].
  rewrite (employees_get_plain s k (valid_no_proto s t Hv)). unfold unknown_id.
  destruct (dict_get (employees s) k) as [x|]; [done|].
  repeat case_bool_decide; try done; by split.
Qed.

Lemma employees_get_valid_Other s t k :
  valid_tree s t -> ((exists b, employees_get s k = Other b) <-> builtin_name s k).
Proof.
  intros Hv. split; [|apply employees_get_Other, (valid_no_proto s t Hv)].
  rewrite (employees_get_plain s k (valid_no_proto s t Hv)). unfold builtin_name.
  destruct (dict_get (employees s) k) as [x|]; [by intros [? ?]|].
  intros [b Hb]. split; [done|]. repeat case_bool_decide; try done.
  subst k. unfold object_prototype_keys. set_solver.
Qed.

Lemma resolve_manager_in s t managerId :
  valid_tree s t -> resolve_manager managerId s (top t) ∈ locs t.
Proof.
  intros Hv. unfold resolve_manager.
  destruct (employees_get _ _) as [m| |] eqn:Hm; try apply top_in_locs.
  apply (employees_get_valid s t _ _ Hv) in Hm.
  by apply (dict_ok_get _ _ _ _ _ (valid_dict _ _ Hv)) in Hm as [? _].
Qed.

Lemma update_alloc (h : heap) f e : update (length h) f (h ++ [e]) = h ++ [f e].
Proof.
  unfold update. rewrite alloc_new.
  rewrite insert_app_r_alt by lia. by rewrite Nat.sub_diag.
Qed.

Lemma addReport_alloc (h : heap) m e :
  m < length h -> manager e = Some m -> level e = level (h !!! m) + 1 ->
  addReport m (length h) (h ++ [e]) =
  update m (set_reports (reports (h !!! m) ++ [length h])) (h ++ [e]).
Proof.
  intros Hm Hme Hle. unfold addReport.
  rewrite update_alloc.
  assert (set_manager (Some m) e = e) as ->
    by (destruct e; unfold set_manager; simpl in *; congruence).
  rewrite alloc_old by done. rewrite update_alloc.
  assert (set_level (level (h !!! m) + 1) e = e) as ->
    by (destruct e; unfold set_level; simpl in *; congruence).
  by rewrite alloc_old.
Qed.

Lemma mem_added_length h m e : length (mem_added h m e) = S (length h).
Proof. unfold mem_added. rewrite update_length, length_app. simpl. lia. Qed.

Lemma mem_added_new h m e : m < length h -> mem_added h m e !!! length h = e.
Proof. intros. unfold mem_added. rewrite update_ne by lia. apply alloc_new. Qed.

Lemma mem_added_manager h m e :
  m < length h ->
  mem_added h m e !!! m = set_reports (reports (h !!! m) ++ [length h]) (h !!! m).
Proof.
  intros. unfold mem_added. rewrite update_eq by (rewrite length_app; lia).
  by rewrite alloc_old.
Qed.

Lemma mem_added_other h m e x :
  x < length h -> x <> m -> mem_added h m e !!! x = h !!! x.
Proof. intros. unfold mem_added. rewrite update_ne by done. by apply alloc_old. Qed.

Lemma addEmployee_eq uuid name title managerId lob division dept email s t :
  valid_tree s t ->
  ~ builtin_name s (to_key managerId) ->
  let m := resolve_manager managerId s (top t) in
  let e := mkEmployee uuid name title lob division dept email (Some m) []
                      (level (mem s !!! m) + 1) in
  addEmployee uuid name title managerId lob division dept email s =
  Some (Some (length (mem s)),
        mkOrgChart (mem_added (mem s) m e) (root s)
                   (dict_set (employees s) uuid (length (mem s)))
                   (history s ++ [doc_of (mem s) t]) []).
Proof.
  intros Hv Hnb m e. unfold addEmployee.
  rewrite (valid_root _ _ Hv), (valid_pushState s t Hv).
  rewrite (employees_get_ext s _ (to_key managerId)) by done.
  assert (match employees_get s (to_key managerId) with
          | Found m => Some m
          | Falsy => Some (top t)
          | Other _ => None
          end = Some m) as ->.
  { subst m. unfold resolve_manager.
    destruct (employees_get s (to_key managerId)) as [x|b|] eqn:Hg; [done| |done].
    exfalso. apply Hnb. apply (employees_get_valid_Other s t _ Hv). by exists b. }
  simpl.
  assert (m < length (mem s)) as Hm.
  { eapply links_ok_bound; [apply (valid_links _ _ Hv)|]. by apply resolve_manager_in. }
  unfold new_Employee. fold e.
  rewrite addReport_alloc by done. fold (mem_added (mem s) m e).
  rewrite mem_added_new by done.
  unfold set_employees, set_mem, set_future, set_history; simpl.
  by rewrite (valid_root _ _ Hv).
Qed.

Lemma valid_added uuid name title lob division dept email s t m :
  valid_tree s t -> m ∈ locs t ->
  uuid <> "" -> uuid <> "__proto__" -> dict_get (employees s) uuid = None ->
  let e := mkEmployee uuid name title lob division dept email (Some m) []
                      (level (mem s !!! m) + 1) in
  forall hist fut,
  valid_tree (mkOrgChart (mem_added (mem s) m e) (root s)
                         (dict_set (employees s) uuid (length (mem s))) hist fut)
             (graft m [Node (length (mem s)) []] t).
Proof.
  intros Hv Hmin Hu Hup Hfresh e hist fut.
  destruct Hv as [Hroot Hlinks Hlevels Hnd Hdict Hids Hown].
  assert (forall x, x ∈ locs t -> x < length (mem s)) as Hbound
    by (intros; by eapply links_ok_bound).
  pose proof (Hbound m Hmin) as Hm.
  assert (length (mem s) ∉ locs t) as Hn by (intros Hin; apply Hbound in Hin; lia).
  split; simpl.
  - by rewrite top_graft.
  - eapply links_ok_graft; [done| | | |].
    + intros x Hx. pose proof (Hbound x Hx). rewrite mem_added_length. split; [lia|].
      destruct (decide (x = m)) as [->|].
      * by rewrite mem_added_manager.
      * by rewrite mem_added_other.
    + intros x Hx Hxm. by rewrite mem_added_other by auto.
    + by rewrite mem_added_manager.
    + constructor; [|constructor].
      apply links_ok_inv. rewrite mem_added_length, mem_added_new by done.
      repeat split; [lia|constructor].
  - eapply levels_ok_graft; [done| |].
    + intros x Hx. pose proof (Hbound x Hx). destruct (decide (x = m)) as [->|].
      * by rewrite mem_added_manager.
      * by rewrite mem_added_other.
    + constructor; [|constructor].
      apply levels_ok_inv. rewrite mem_added_new by done. simpl.
      split; [lia|constructor].
  - rewrite locs_graft by done. simpl. apply NoDup_app. repeat split; [done| |].
    + intros x Hx ->%list_elem_of_singleton. done.
    + apply NoDup_singleton.
  - destruct Hdict as [Hndk Hd].
    assert (uuid ∉ (employees s).*1) as Hfr by (by apply dict_get_None).
    rewrite dict_set_fresh by done. split.
    + rewrite fmap_app. apply NoDup_app. repeat split; [done| |apply NoDup_singleton].
      intros x Hx ->%list_elem_of_singleton. done.
    + intros i l. rewrite elem_of_app, list_elem_of_singleton, locs_graft by done.
      rewrite elem_of_app. simpl. rewrite list_elem_of_singleton. split.
      * intros [Hin|Heq].
        -- apply Hd in Hin as [Hl Hi]. split; [by left|]. pose proof (Hbound l Hl).
           destruct (decide (l = m)) as [->|].
           ++ by rewrite mem_added_manager.
           ++ by rewrite mem_added_other.
        -- inversion Heq; subst. split; [by right|]. by rewrite mem_added_new.
      * intros [[Hl| ->] Hi].
        -- left. apply Hd. split; [done|]. pose proof (Hbound l Hl).
           destruct (decide (l = m)) as [->|].
           ++ by rewrite mem_added_manager in Hi.
           ++ by rewrite mem_added_other in Hi.
        -- right. rewrite mem_added_new in Hi by done. simpl in Hi. by subst.
  - intros l. rewrite locs_graft by done. rewrite elem_of_app.
    simpl. rewrite list_elem_of_singleton. intros [Hl| ->].
    + pose proof (Hbound l Hl). destruct (decide (l = m)) as [->|].
      * rewrite mem_added_manager by done. simpl. by apply Hids.
      * rewrite mem_added_other by done. by apply Hids.
    + by rewrite mem_added_new.
  - intros l. rewrite locs_graft by done. rewrite elem_of_app.
    simpl. rewrite list_elem_of_singleton. intros [Hl| ->].
    + pose proof (Hbound l Hl). destruct (decide (l = m)) as [->|].
      * rewrite mem_added_manager by done. simpl. by apply Hown.
      * rewrite mem_added_other by done. by apply Hown.
    + by rewrite mem_added_new.
Qed.

(** ** Updates that keep the structure *)

Lemma update_same_struct a f (h : heap) :
  (forall e, same_struct e (f e)) ->
  forall x, same_struct (h !!! x) (update a f h !!! x).
Proof.
  intros Hf x. destruct (decide (a < length h)) as [Ha|Ha].
  - destruct (decide (a = x)) as [->|Hne].
    + rewrite update_eq by done. apply Hf.
    + rewrite update_ne by done. done.
  - unfold update. rewrite list_insert_ge by lia. done.
Qed.

Lemma same_struct_trans e1 e2 e3 :
  same_struct e1 e2 -> same_struct e2 e3 -> same_struct e1 e3.
Proof. unfold same_struct. intros (?&?&?&?) (?&?&?&?). repeat split; congruence. Qed.

Lemma valid_tree_same_struct s s' t :
  valid_tree s t ->
  length (mem s') = length (mem s) ->
  (forall x, same_struct (mem s !!! x) (mem s' !!! x)) ->
  root s' = root s -> employees s' = employees s ->
  valid_tree s' t.
Proof.
  intros [Hroot Hlinks Hlevels Hnd Hdict Hids Hown] Hlen Hsame Hr He.
  split.
  - congruence.
  - eapply links_ok_agree; [done|]. intros x Hx.
    destruct (Hsame x) as (?&?&?&?). split; [|done].
    rewrite Hlen. by eapply links_ok_bound.
  - eapply levels_ok_agree; [done|]. intros x Hx. by destruct (Hsame x) as (?&?&?&?).
  - done.
  - rewrite He. destruct Hdict as [Hndk Hd]. split; [done|].
    intros i l. rewrite Hd. by destruct (Hsame l) as (-> & _).
  - intros l Hl. destruct (Hsame l) as (-> & _). by apply Hids.
  - intros l Hl. destruct (Hsame l) as (-> & _). by apply Hown.
Qed.

Lemma editEmployee_valid employeeId newData s t :
  valid_tree s t ->
  ~ builtin_name s employeeId ->
  exists b s', editEmployee employeeId newData s = Some (b, s') /\ valid_tree s' t.
Proof.
  intros Hv Hnb. unfold editEmployee.
  destruct (employees_get s employeeId) as [a|b|] eqn:Hg; [| |eauto].
  2:{ exfalso. apply Hnb. apply (employees_get_valid_Other s t _ Hv). by exists b. }
  rewrite (valid_pushState s t Hv). eexists _, _. split; [done|].
  eapply valid_tree_same_struct; [done| | |done|done].
  - simpl. by rewrite !update_length.
  - intros x. simpl.
    repeat (eapply same_struct_trans; [|apply update_same_struct; by intros []]).
    done.
Qed.

(** ** [setRoot] on an empty store *)

Lemma setRoot_valid uuid name title lob division dept email s :
  empty_store s -> uuid <> "" -> uuid <> "__proto__" ->
  exists s', apply_op (OpSetRoot uuid name title lob division dept email) s = Some s' /\
             valid_tree s' (Node (length (mem s)) []).
Proof.
  intros [Hroot Hemp] Hu Hup. simpl. unfold setRoot.
  set (e := new_Employee (mem s) uuid name title lob division dept email None).
  set (s1 := set_employees _ _).
  assert (valid_tree s1 (Node (length (mem s)) [])) as Hv.
  { subst s1. simpl. rewrite alloc_new, Hemp. simpl. split; simpl.
    - done.
    - apply links_ok_inv. rewrite alloc_new, length_app. simpl. repeat split; [lia|constructor].
    - apply levels_ok_inv. rewrite alloc_new. split; [done|constructor].
    - apply NoDup_singleton.
    - split; [apply NoDup_singleton|].
      intros i l. simpl. rewrite !list_elem_of_singleton. split.
      + intros [= -> ->]. rewrite alloc_new. by split.
      + intros [-> <-]. rewrite alloc_new. done.
    - intros l Hl. simpl in Hl. apply list_elem_of_singleton in Hl as ->. by rewrite alloc_new.
    - intros l Hl. simpl in Hl. apply list_elem_of_singleton in Hl as ->. by rewrite alloc_new. }
  rewrite (valid_pushState _ _ Hv). eexists. split; [done|].
  by eapply valid_tree_ext; [..|apply Hv].
Qed.

(** ** Detaching a member from its manager *)

Lemma filter_ext_in {A} (P Q : A -> Prop) `{forall x, Decision (P x)} `{forall x, Decision (Q x)}
    (l : list A) :
  (forall x, x ∈ l -> P x <-> Q x) -> filter P l = filter Q l.
Proof.
  induction l as [|x l IH]; [done|]. intros Hpq. rewrite !filter_cons.
  rewrite IH by (intros; apply Hpq; by apply list_elem_of_further).
  destruct (decide (P x)) as [HP|HP].
  - rewrite decide_True; [done|]. apply Hpq; [apply list_elem_of_here|done].
  - rewrite decide_False; [done|]. intros HQ. apply HP. apply Hpq; [apply list_elem_of_here|done].
Qed.

Lemma detach_eq h d t a P :
  links_ok h None t -> dict_ok h d t -> a ∈ locs t ->
  manager (h !!! a) = Some P -> P ∈ locs t ->
  detach a h = update P (set_reports (filter (fun r => r <> a) (reports (h !!! P)))) h.
Proof.
  intros Hlinks Hdict Ha HP HPin. unfold detach. rewrite HP. f_equal. f_equal.
  apply filter_ext_in. intros r Hr.
  assert (r ∈ locs t) as Hrin.
  { apply below_in_locs. by eapply links_report_manager. }
  split.
  - intros Hid ->. done.
  - intros Hne Hid. apply Hne. by eapply dict_ok_inj.
Qed.

(** The heap after detaching [a]: the part of the shape outside the
    subtree at [a] is the pruned shape. *)
Lemma detach_pruned h d t a :
  links_ok h None t -> levels_ok h 0 t -> dict_ok h d t -> NoDup (locs t) ->
  a ∈ below t ->
  let h1 := detach a h in
  length h1 = length h /\
  (forall x, id (h1 !!! x) = id (h !!! x) /\ manager (h1 !!! x) = manager (h !!! x) /\
             level (h1 !!! x) = level (h !!! x)) /\
  (forall x, manager (h !!! a) <> Some x -> h1 !!! x = h !!! x) /\
  links_ok h1 None (prune a t) /\
  levels_ok h1 0 (prune a t).
Proof.
  intros Hlinks Hlevels Hdict Hnd Ha h1.
  destruct (links_parent h None t a Hlinks Ha) as (P & HP & HPin & HaP).
  assert (a ∈ locs t) as Hain by (by apply below_in_locs).
  assert (P < length h) as HPb by (by eapply links_ok_bound).
  subst h1. rewrite (detach_eq h d t a P) by done.
  assert (forall x, id (update P (set_reports (filter (fun r => r <> a) (reports (h !!! P)))) h !!! x) = id (h !!! x) /\
                    manager (update P (set_reports (filter (fun r => r <> a) (reports (h !!! P)))) h !!! x) = manager (h !!! x) /\
                    level (update P (set_reports (filter (fun r => r <> a) (reports (h !!! P)))) h !!! x) = level (h !!! x)) as Hsame.
  { intros x. destruct (decide (P = x)) as [->|Hne].
    - by rewrite update_eq by done.
    - by rewrite update_ne by done. }
  split; [apply update_length|]. split; [done|]. split.
  { intros x Hx. rewrite update_ne; [done|]. intros ->. by apply Hx. }
  split.
  - eapply links_ok_prune; [done|]. intros x Hx.
    rewrite update_length. apply locs_prune_incl in Hx.
    split; [by eapply links_ok_bound|]. split; [apply Hsame|].
    destruct (decide (P = x)) as [->|Hne].
    + by rewrite update_eq by done.
    + rewrite update_ne by done. symmetry. apply filter_all.
      apply Forall_forall. intros r Hr ->.
      destruct (links_report_manager h None t x a Hlinks Hx Hr) as [Hm _]. congruence.
  - eapply levels_ok_prune; [done|]. intros x Hx. apply Hsame.
Qed.

(** ** [removeEmployee] of a member without reports *)

Lemma remove_root_check s t i a :
  valid_tree s t -> dict_get (employees s) i = Some a ->
  match root s with
  | Some r => bool_decide (id (mem s !!! r) = i)
  | None => false
  end = bool_decide (a = top t).
Proof.
  intros Hv Hget. rewrite (valid_root _ _ Hv).
  apply (dict_ok_get _ _ _ _ _ (valid_dict _ _ Hv)) in Hget as [Ha Hid].
  apply bool_decide_ext. split.
  - intros Heq. symmetry. eapply dict_ok_inj; [apply (valid_dict _ _ Hv)|apply top_in_locs|done|congruence].
  - intros ->. done.
Qed.

Lemma leaf_subtree h p t a u :
  links_ok h p t -> subtree_at a t = Some u -> reports (h !!! a) = [] -> u = Node a [].
Proof.
  intros Hlinks Hu Hr. pose proof (subtree_at_top _ _ _ Hu) as Htop.
  pose proof (subtree_links _ _ _ _ _ Hlinks Hu) as Hul.
  destruct u as [l cs]. simpl in Htop. subst l.
  apply links_ok_inv in Hul as (_ & _ & Hrs & _). rewrite Hr in Hrs.
  symmetry in Hrs. apply fmap_nil_inv in Hrs. by subst.
Qed.

Lemma removeEmployee_leaf_valid i v s t a :
  valid_tree s t -> dict_get (employees s) i = Some a -> a <> top t ->
  reports (mem s !!! a) = [] ->
  exists s', removeEmployee i v s = Some (true, s') /\ valid_tree s' (prune a t).
Proof.
  intros Hv Hget Hne Hleaf. unfold removeEmployee.
  rewrite (remove_root_check s t i a Hv Hget), bool_decide_false by done.
  rewrite (employees_get_Found s i a Hget), (valid_pushState s t Hv). simpl. rewrite Hleaf. simpl.
  eexists. split; [by destruct (if truthy v then _ else _)|].
  destruct Hv as [Hroot Hlinks Hlevels Hnd Hdict Hids Hown].
  pose proof (proj1 (dict_ok_get _ _ _ _ _ Hdict) Hget) as [Ha Hid].
  assert (i <> "__proto__") as Hip by (rewrite <- Hid; by apply Hown).
  assert (a ∈ below t) as Hbelow.
  { apply locs_top_or_below in Ha as [?|?]; done. }
  destruct (subtree_at_Some a t Ha) as [u Hu].
  pose proof (leaf_subtree _ _ _ _ _ Hlinks Hu Hleaf) as ->.
  pose proof (locs_prune a t _ Hnd Hne Hu) as Hperm. simpl in Hperm.
  destruct (detach_pruned (mem s) (employees s) t a Hlinks Hlevels Hdict Hnd Hbelow)
    as (Hlen & Hsame & _ & Hl1 & Hv1).
  assert (NoDup (locs (prune a t) ++ [a])) as Hnd' by (by rewrite <- Hperm).
  apply NoDup_app in Hnd' as (Hndp & Hdisj & _).
  assert (forall l, l ∈ locs t <-> l ∈ locs (prune a t) \/ l = a) as Hmem.
  { intros l. rewrite Hperm, elem_of_app, list_elem_of_singleton. done. }
  split; simpl.
  - by rewrite top_prune.
  - done.
  - done.
  - done.
  - destruct Hdict as [Hndk Hd]. split; [by apply dict_delete_NoDup|].
    intros j l. rewrite dict_delete_elem, Hd by done.
    destruct (Hsame l) as (-> & _ & _). split.
    + intros [[Hl Hj] Hji]. split; [|done].
      apply Hmem in Hl as [Hl| ->]; [done|]. congruence.
    + intros [Hl Hj]. split; [split; [apply Hmem; by left|done]|].
      intros ->. apply (Hdisj l Hl). apply list_elem_of_singleton.
      eapply (dict_ok_inj _ _ t); [by split|apply Hmem; by left|done|congruence].
  - intros l Hl. destruct (Hsame l) as (-> & _ & _). apply Hids. apply Hmem. by left.
  - intros l Hl. destruct (Hsame l) as (-> & _ & _). apply Hown. apply Hmem. by left.
Qed.

(** ** The cycle guard *)

Lemma isDescendant_loop fuel h candidate (cs : list shape) :
  Forall (fun c => _isDescendant fuel h (top c) candidate =
                   Some (bool_decide (id (h !!! candidate) ∈ ids_of h (below c)))) cs ->
  (fix loop (rs : list loc) : option bool :=
     match rs with
     | [] => Some false
     | r :: rs' =>
         if decide (id (h !!! r) = id (h !!! candidate)) then Some true
         else match _isDescendant fuel h r candidate with
              | None => None
              | Some true => Some true
              | Some false => loop rs'
              end
     end) (top <$> cs) =
  Some (bool_decide (id (h !!! candidate) ∈ ids_of h (cs ≫= locs))).
Proof.
  induction 1 as [|c cs Hc _ IH].
  - rewrite bool_decide_false; [done|]. unfold ids_of. simpl. apply not_elem_of_nil.
  - rewrite fmap_cons, bind_cons. unfold ids_of. rewrite fmap_app.
    destruct c as [l ccs]. simpl top. simpl locs. rewrite fmap_cons.
    destruct (decide (id (h !!! l) = id (h !!! candidate))) as [Hid|Hid].
    + rewrite bool_decide_true; [done|]. rewrite <- Hid. apply list_elem_of_here.
    + simpl top in Hc. rewrite Hc.
      destruct (bool_decide (id (h !!! candidate) ∈ ids_of h (below (Node l ccs)))) eqn:Hin.
      * apply bool_decide_eq_true in Hin. rewrite bool_decide_true; [done|].
        apply elem_of_app. left. by apply list_elem_of_further.
      * apply bool_decide_eq_false in Hin. rewrite IH. apply f_equal, bool_decide_ext.
        unfold ids_of. rewrite elem_of_app, elem_of_cons. split; [by auto|].
        intros [[?|?]|?]; [congruence|done|done].
Qed.

Lemma isDescendant_spec fuel h p u candidate :
  links_ok h p u -> height u <= fuel ->
  _isDescendant fuel h (top u) candidate =
  Some (bool_decide (id (h !!! candidate) ∈ ids_of h (below u))).
Proof.
  revert fuel p. induction u as [l cs IH] using shape_ind'. intros fuel p Hok Hf.
  apply links_ok_inv in Hok as (Hl & Hm & Hr & Hcs).
  destruct fuel as [|fuel]; [simpl in Hf; lia|].
  simpl. rewrite Hr. apply isDescendant_loop.
  rewrite Forall_forall in IH, Hcs. apply Forall_forall. intros c Hc.
  eapply IH; [done|by apply Hcs|].
  pose proof (height_child l cs c Hc). simpl in *. lia.
Qed.

(** ** Reachability and depth along a shape *)

Lemma report_child h p u r :
  links_ok h p u -> r ∈ reports (h !!! top u) ->
  exists c, c ∈ kids u /\ top c = r /\ links_ok h (Some (top u)) c.
Proof.
  destruct u as [l cs]. simpl. intros (_ & _ & Hr & Hcs)%links_ok_inv Hin.
  rewrite Hr in Hin. apply list_elem_of_fmap in Hin as (c & -> & Hc).
  exists c. rewrite Forall_forall in Hcs. auto.
Qed.

Lemma below_child u c x : c ∈ kids u -> x ∈ locs c -> x ∈ below u.
Proof. intros Hc Hx. unfold below. apply list_elem_of_bind. eauto. Qed.

Lemma descendant_below_1 h a x :
  descendant h a x -> forall p u, links_ok h p u -> top u = a -> x ∈ below u.
Proof.
  induction 1 as [a b Hb|a r b Hr Hd IH]; intros p u Hok <-.
  - destruct (report_child h p u b Hok Hb) as (c & Hc & <- & _).
    eapply below_child; [done|apply top_in_locs].
  - destruct (report_child h p u r Hok Hr) as (c & Hc & Htop & Hcok).
    eapply below_child; [done|]. apply below_in_locs. by eapply IH.
Qed.

Lemma descendant_below_2 h p u x :
  links_ok h p u -> x ∈ below u -> descendant h (top u) x.
Proof.
  revert p. induction u as [l cs IH] using shape_ind'. intros p Hok Hx.
  apply links_ok_inv in Hok as (_ & _ & Hr & Hcs).
  rewrite Forall_forall in IH, Hcs.
  unfold below in Hx. simpl in Hx. apply list_elem_of_bind in Hx as (c & Hx & Hc).
  assert (top c ∈ reports (h !!! l)) as Htc.
  { rewrite Hr. apply list_elem_of_fmap. eauto. }
  simpl. apply locs_top_or_below in Hx as [->|Hx].
  - by apply desc_report.
  - eapply desc_step; [done|]. eapply IH; [done|by apply Hcs|done].
Qed.

Lemma descendant_below h p u x :
  links_ok h p u -> descendant h (top u) x <-> x ∈ below u.
Proof.
  intros Hok. split.
  - intros Hd. by eapply descendant_below_1.
  - by eapply descendant_below_2.
Qed.

Lemma at_depth_level h a d x :
  at_depth h a d x ->
  forall p u lvl, links_ok h p u -> levels_ok h lvl u -> top u = a ->
  level (h !!! x) = lvl + d.
Proof.
  induction 1 as [a|a r d x Hr Hd IH]; intros p u lvl Hok Hlv <-.
  - rewrite (levels_ok_top _ _ _ Hlv). lia.
  - destruct (report_child h p u r Hok Hr) as (c & Hc & Htop & Hcok).
    destruct u as [l cs]. simpl in *. apply levels_ok_inv in Hlv as (_ & Hcs).
    rewrite Forall_forall in Hcs.
    rewrite (IH _ c (S lvl) Hcok); [lia|by apply Hcs|done].
Qed.

(** ** [_updateLevels] *)

Lemma same_but_level_fields e e' :
  same_but_level e e' ->
  id e' = id e /\ manager e' = manager e /\ reports e' = reports e /\
  name e' = name e /\ title e' = title e /\ lob e' = lob e /\
  division e' = division e /\ dept e' = dept e /\ email e' = email e.
Proof. destruct e, e'. unfold same_but_level, set_level. simpl. intros [=]. by subst. Qed.

Lemma same_but_level_refl e : same_but_level e e.
Proof. done. Qed.

Lemma same_but_level_trans e1 e2 e3 :
  same_but_level e1 e2 -> same_but_level e2 e3 -> same_but_level e1 e3.
Proof. unfold same_but_level. congruence. Qed.

Lemma same_but_level_set v e : same_but_level e (set_level v e).
Proof. by destruct e. Qed.

Lemma relevelled_links ls h h' p t :
  relevelled ls h h' -> links_ok h p t -> links_ok h' p t.
Proof.
  intros (Hlen & _ & Hsame) Hok. eapply links_ok_agree; [done|]. intros x Hx.
  destruct (same_but_level_fields _ _ (Hsame x)) as (_ & ? & ? & _).
  split; [|done]. rewrite Hlen. by eapply links_ok_bound.
Qed.

Lemma updateLevels_each fuel l lvl (cs : list shape) :
  Forall (fun c => forall h p lvl, links_ok h p c -> NoDup (locs c) ->
            exists h', _updateLevels fuel (top c) lvl h = Some h' /\
                       relevelled (locs c) h h' /\ levels_ok h' lvl c) cs ->
  forall h, Forall (links_ok h (Some l)) cs -> NoDup (cs ≫= locs) ->
  exists h',
    (fix each (rs : list loc) (h : heap) : option heap :=
       match rs with
       | [] => Some h
       | r :: rs' =>
           match _updateLevels fuel r (lvl + 1) h with
           | Some h => each rs' h
           | None => None
           end
       end) (top <$> cs) h = Some h' /\
    relevelled (cs ≫= locs) h h' /\ Forall (levels_ok h' (S lvl)) cs.
Proof.
  induction 1 as [|c cs Hc _ IH]; intros h Hok Hnd.
  - exists h. split; [done|]. split; [|constructor]. by repeat split.
  - apply Forall_cons in Hok as [Hokc Hok]. rewrite bind_cons in Hnd.
    apply NoDup_app in Hnd as (Hndc & Hdisj & Hndcs).
    destruct (Hc h (Some l) (lvl + 1) Hokc Hndc) as (h1 & Hrun & Hrel1 & Hlv1).
    assert (Forall (links_ok h1 (Some l)) cs) as Hok1.
    { eapply Forall_impl; [done|]. intros c' Hc'. by eapply relevelled_links. }
    destruct (IH h1 Hok1 Hndcs) as (h' & Hrun' & Hrel' & Hlv').
    exists h'. rewrite fmap_cons. rewrite Hrun. split; [done|].
    destruct Hrel1 as (Hlen1 & Hout1 & Hsame1). destruct Hrel' as (Hlen' & Hout' & Hsame').
    split; [split; [congruence|split]|].
    + intros x Hx. rewrite bind_cons, elem_of_app in Hx.
      rewrite Hout' by tauto. apply Hout1. tauto.
    + intros x. eapply same_but_level_trans; [apply Hsame1|apply Hsame'].
    + constructor; [|done]. rewrite Nat.add_1_r in Hlv1.
      eapply levels_ok_agree; [done|]. intros x Hx. rewrite Hout'; [done|]. by apply Hdisj.
Qed.

Lemma updateLevels_spec u :
  forall fuel h p lvl, links_ok h p u -> NoDup (locs u) -> height u <= fuel ->
  exists h', _updateLevels fuel (top u) lvl h = Some h' /\
             relevelled (locs u) h h' /\ levels_ok h' lvl u.
Proof.
  induction u as [l cs IH] using shape_ind'. intros fuel h p lvl Hok Hnd Hf.
  pose proof Hok as Hok0.
  apply links_ok_inv in Hok as (Hl & Hm & Hr & Hcs).
  destruct fuel as [|fuel]; [simpl in Hf; lia|].
  simpl in Hnd. apply NoDup_cons in Hnd as [Hlcs Hnd].
  set (h0 := update l (set_level lvl) h).
  assert (relevelled [l] h h0) as Hrel0.
  { subst h0. split; [apply update_length|]. split.
    - intros x Hx. rewrite update_ne; [done|]. intros ->. apply Hx, list_elem_of_here.
    - intros x. destruct (decide (l = x)) as [->|].
      + rewrite update_eq by done. apply same_but_level_set.
      + by rewrite update_ne. }
  assert (Forall (links_ok h0 (Some l)) cs) as Hcs0.
  { eapply Forall_impl; [done|]. intros c' Hc'. by eapply relevelled_links. }
  destruct (updateLevels_each fuel l lvl cs) with (h := h0) as (h' & Hrun & Hrel & Hlv);
    [|done|done|].
  { rewrite Forall_forall in IH. apply Forall_forall. intros c Hc h1 p1 lvl1 Hok1 Hnd1.
    eapply IH; [done|done|done|]. pose proof (height_child l cs c Hc). simpl in *. lia. }
  exists h'. split.
  - simpl. fold h0.
    assert (reports (h0 !!! l) = top <$> cs) as ->.
    { subst h0. rewrite update_eq by done. by destruct (h !!! l). }
    done.
  - destruct Hrel0 as (Hlen0 & Hout0 & Hsame0). destruct Hrel as (Hlen & Hout & Hsame).
    split; [split; [congruence|split]|].
    + intros x Hx. simpl in Hx. rewrite not_elem_of_cons in Hx. destruct Hx as [Hxl Hx].
      rewrite Hout by done. apply Hout0. by rewrite list_elem_of_singleton.
    + intros x. eapply same_but_level_trans; [apply Hsame0|apply Hsame].
    + apply levels_ok_inv. split; [|done]. rewrite Hout by done.
      subst h0. rewrite update_eq by done. by destruct (h !!! l).
Qed.

(** ** [moveSubtree] on a valid chart *)

Lemma subtree_NoDup a t u : NoDup (locs t) -> subtree_at a t = Some u -> NoDup (locs u).
Proof.
  intros Hnd Hu. destruct (decide (a = top t)) as [Heq|Hne].
  - destruct t as [l cs]. simpl in Heq. subst.
    rewrite subtree_at_unfold, decide_True in Hu by done. by injection Hu as <-.
  - rewrite (locs_prune a t u Hnd Hne Hu) in Hnd. by apply NoDup_app in Hnd as (_ & _ & ?).
Qed.

Lemma parent_not_in_subtree h p t a u P :
  links_ok h p t -> NoDup (locs t) -> a ∈ below t -> subtree_at a t = Some u ->
  manager (h !!! a) = Some P -> P ∉ locs u.
Proof.
  intros Hlinks Hnd Ha Hu HP Hin.
  destruct (links_parent h p t a Hlinks Ha) as (P' & HP' & _ & HaP).
  assert (P' = P) as -> by congruence.
  pose proof (subtree_links _ _ _ _ _ Hlinks Hu) as Hul.
  destruct (links_report_manager _ _ _ _ _ Hul Hin HaP) as [_ Hbelow].
  apply (NoDup_top_not_below u); [by eapply subtree_NoDup|].
  by rewrite (subtree_at_top _ _ _ Hu).
Qed.

Lemma addReport_length this e (h : heap) : length (addReport this e h) = length h.
Proof. unfold addReport. by rewrite !update_length. Qed.

Lemma addReport_employee this e (h : heap) :
  this < length h -> e < length h -> this <> e ->
  addReport this e h !!! e =
  set_level (level (h !!! this) + 1) (set_manager (Some this) (h !!! e)).
Proof.
  intros Ht He Hne. unfold addReport.
  rewrite update_ne by done. rewrite update_eq by (by rewrite update_length).
  rewrite update_eq by done. by rewrite update_ne by auto.
Qed.

Lemma addReport_this this e (h : heap) :
  this < length h -> e < length h -> this <> e ->
  addReport this e h !!! this = set_reports (reports (h !!! this) ++ [e]) (h !!! this).
Proof.
  intros Ht He Hne. unfold addReport.
  rewrite update_eq by (by rewrite !update_length).
  by rewrite !update_ne by auto.
Qed.

Lemma addReport_other this e (h : heap) x :
  x <> this -> x <> e -> addReport this e h !!! x = h !!! x.
Proof. intros Ht He. unfold addReport. by rewrite !update_ne by auto. Qed.

Lemma ids_of_elem h d t x ls :
  dict_ok h d t -> x ∈ locs t -> (forall y, y ∈ ls -> y ∈ locs t) ->
  id (h !!! x) ∈ ids_of h ls <-> x ∈ ls.
Proof.
  intros Hd Hx Hls. unfold ids_of. rewrite list_elem_of_fmap. split.
  - intros (y & Hid & Hy). assert (x = y) as -> by (eapply dict_ok_inj; eauto). done.
  - intros Hin. eauto.
Qed.

Lemma moveSubtree_guard s t A B a b u :
  valid_tree s t ->
  dict_get (employees s) A = Some a -> dict_get (employees s) B = Some b ->
  subtree_at a t = Some u -> a <> top t ->
  (bool_decide (id (mem s !!! a) = id (mem s !!! b)) = bool_decide (a = b)) /\
  _isDescendant (recursion_limit (mem s)) (mem s) a b = Some (bool_decide (b ∈ below u)).
Proof.
  intros Hv HA HB Hu Hne.
  destruct Hv as [Hroot Hlinks Hlevels Hnd Hdict Hids Hown].
  pose proof (proj1 (dict_ok_get _ _ _ _ _ Hdict) HA) as [Ha HidA].
  pose proof (proj1 (dict_ok_get _ _ _ _ _ Hdict) HB) as [Hb HidB].
  split.
  - apply bool_decide_ext. split; [|by intros ->]. by eapply dict_ok_inj.
  - pose proof (subtree_links _ _ _ _ _ Hlinks Hu) as Hul.
    rewrite <- (subtree_at_top _ _ _ Hu).
    rewrite (isDescendant_spec _ _ _ u b Hul).
    + apply f_equal, bool_decide_ext. eapply ids_of_elem; [done|done|].
      intros y Hy. eapply subtree_at_locs; [done|]. by apply below_in_locs.
    + unfold recursion_limit.
      pose proof (height_le_heap _ _ _ Hul (subtree_NoDup _ _ _ Hnd Hu)). lia.
Qed.

Lemma moveSubtree_reject s t A B a b u :
  valid_tree s t ->
  dict_get (employees s) A = Some a -> dict_get (employees s) B = Some b ->
  subtree_at a t = Some u ->
  a = top t \/ b ∈ locs u ->
  moveSubtree A B s = Some (false, s).
Proof.
  intros Hv HA HB Hu Hcase. unfold moveSubtree.
    rewrite (employees_get_Found _ _ _ HA), (employees_get_Found _ _ _ HB).
  destruct (decide (a = top t)) as [Htop|Htop].
  { rewrite bool_decide_true; [done|]. rewrite (valid_root _ _ Hv). by subst. }
  destruct Hcase as [?|Hb]; [done|].
  rewrite bool_decide_false by (rewrite (valid_root _ _ Hv); congruence).
  destruct (moveSubtree_guard s t A B a b u Hv HA HB Hu Htop) as [-> ->].
  case_bool_decide; [done|].
  rewrite bool_decide_true; [done|].
  apply locs_top_or_below in Hb as [Hb|Hb]; [|done].
  rewrite (subtree_at_top _ _ _ Hu) in Hb. by subst.
Qed.

Lemma moveSubtree_accept s t A B a b u :
  valid_tree s t ->
  dict_get (employees s) A = Some a -> dict_get (employees s) B = Some b ->
  subtree_at a t = Some u -> a <> top t -> b ∉ locs u ->
  exists s',
    moveSubtree A B s = Some (true, s') /\
    valid_tree s' (graft b [u] (prune a t)) /\
    links_ok (mem s') (Some b) u /\
    levels_ok (mem s') (level (mem s !!! b) + 1) u /\
    level (mem s' !!! b) = level (mem s !!! b) /\
    history s' = history s ++ [doc_of (mem s) t] /\ future s' = [].
Proof.
  intros Hv HA HB Hu Htop Hbu.
  destruct (moveSubtree_guard s t A B a b u Hv HA HB Hu Htop) as [Hg1 Hg2].
  pose proof (valid_pushState s t Hv) as Hpush.
  destruct Hv as [Hroot Hlinks Hlevels Hnd Hdict Hids Hown].
  pose proof (proj1 (dict_ok_get _ _ _ _ _ Hdict) HA) as [Ha HidA].
  pose proof (proj1 (dict_ok_get _ _ _ _ _ Hdict) HB) as [Hb HidB].
  pose proof (subtree_at_top _ _ _ Hu) as Htu.
  assert (a ∈ locs u) as Hau by (rewrite <- Htu; apply top_in_locs).
  assert (a <> b) as Hab by (intros ->; done).
  assert (a ∈ below t) as Habelow by (apply locs_top_or_below in Ha as [?|?]; done).
  destruct (links_parent _ _ _ _ Hlinks Habelow) as (P & HP & HPin & HaP).
  pose proof (parent_not_in_subtree _ _ _ _ _ _ Hlinks Hnd Habelow Hu HP) as HPu.
  pose proof (subtree_NoDup _ _ _ Hnd Hu) as Hndu.
  pose proof (locs_prune a t u Hnd Htop Hu) as Hperm.
  assert (NoDup (locs (prune a t) ++ locs u)) as Hnd' by (by rewrite <- Hperm).
  apply NoDup_app in Hnd' as (Hndp & Hdisj & _).
  assert (forall x, x ∈ locs t <-> x ∈ locs (prune a t) \/ x ∈ locs u) as Hmem.
  { intros x. by rewrite Hperm, elem_of_app. }
  assert (b ∈ locs (prune a t)) as Hbp by (apply Hmem in Hb as [?|?]; done).
  assert (forall x, x ∈ locs t -> x < length (mem s)) as Hbound
    by (intros; by eapply links_ok_bound).
  (* the store after each step *)
  set (h := mem s) in *.
  destruct (detach_pruned h (employees s) t a Hlinks Hlevels Hdict Hnd Habelow)
    as (Hlen1 & Hsame1 & Hother1 & Hl1 & Hv1).
  set (h1 := detach a h) in *.
  assert (forall x, x <> P -> h1 !!! x = h !!! x) as Hh1.
  { intros x Hx. apply Hother1. congruence. }
  pose proof (Hbound a Ha) as Hal. pose proof (Hbound b Hb) as Hbl.
  set (h2 := addReport b a h1).
  assert (length h2 = length h) as Hlen2 by (subst h2; by rewrite addReport_length).
  assert (h2 !!! a = set_level (level (h1 !!! b) + 1) (set_manager (Some b) (h1 !!! a))) as Hh2a.
  { subst h2. apply addReport_employee; [lia|lia|done]. }
  assert (h2 !!! b = set_reports (reports (h1 !!! b) ++ [a]) (h1 !!! b)) as Hh2b.
  { subst h2. apply addReport_this; [lia|lia|done]. }
  assert (forall x, x <> a -> x <> b -> h2 !!! x = h1 !!! x) as Hh2.
  { intros x ? ?. subst h2. by apply addReport_other. }
  assert (links_ok h2 (Some b) u) as Hul2.
  { pose proof (subtree_links _ _ _ _ _ Hlinks Hu) as Hul. rewrite HP in Hul.
    eapply (links_ok_reparent h h2 (Some P)); [done|..].
    - rewrite Htu. lia.
    - rewrite Htu, Hh2a. by destruct (h1 !!! a).
    - rewrite Htu, Hh2a, <- (Hh1 a) by (intros ->; done). by destruct (h1 !!! a).
    - intros x Hx. assert (x ∈ locs u) as Hxu by (by apply below_in_locs).
      assert (x <> a).
      { intros ->. apply (NoDup_top_not_below u Hndu). by rewrite Htu. }
      assert (x <> b) by (intros ->; done).
      assert (x <> P) by (intros ->; done).
      rewrite Hh2, Hh1 by done. split; [|done]. rewrite Hlen2. apply Hbound, Hmem. by right. }
  destruct (updateLevels_spec u (recursion_limit h2) h2 (Some b) (level (h2 !!! b) + 1) Hul2 Hndu)
    as (h3 & Hrun & (Hlen3 & Hout3 & Hsame3) & Hlv3).
  { unfold recursion_limit. pose proof (height_le_heap _ _ _ Hul2 Hndu). lia. }
  rewrite Htu in Hrun.
  assert (level (h2 !!! b) = level (h !!! b)) as Hlvb.
  { rewrite Hh2b. destruct (Hsame1 b) as (_ & _ & <-). by destruct (h1 !!! b). }
  assert (forall x, x ∈ locs (prune a t) -> x <> b -> h3 !!! x = h1 !!! x) as Hh3.
  { intros x Hx Hxb. rewrite Hout3 by (by apply Hdisj). apply Hh2; [|done].
    intros ->. by apply (Hdisj a). }
  assert (h3 !!! b = set_reports (reports (h1 !!! b) ++ [a]) (h1 !!! b)) as Hh3b.
  { rewrite Hout3 by done. done. }
  assert (forall x, id (h3 !!! x) = id (h !!! x)) as Hid3.
  { intros x. destruct (same_but_level_fields _ _ (Hsame3 x)) as (-> & _).
    destruct (Hsame1 x) as (<- & _).
    destruct (decide (x = a)) as [->|]; [rewrite Hh2a; by destruct (h1 !!! a)|].
    destruct (decide (x = b)) as [->|]; [rewrite Hh2b; by destruct (h1 !!! b)|].
    by rewrite Hh2. }
  exists (set_mem h3 (set_future [] (set_history (history s ++ [doc_of h t]) s))).
  split; [|split; [|split; [|split; [|split; [|done]]]]].
  - unfold moveSubtree.
    rewrite (employees_get_Found _ _ _ HA), (employees_get_Found _ _ _ HB).
    rewrite bool_decide_false by (rewrite Hroot; congruence).
    fold h. rewrite Hg1, (bool_decide_false (a = b)) by done.
    rewrite Hg2, bool_decide_false.
    2:{ intros Hin. apply Hbu. by apply below_in_locs. }
    rewrite Hpush. cbn [mem set_future set_history]. fold h. fold h1. fold h2. by rewrite Hrun.
  - split; simpl.
    + by rewrite top_graft, top_prune.
    + eapply (links_ok_graft h1 h3); [done| | | |].
      * intros x Hx. split; [rewrite Hlen3, Hlen2; apply Hbound, Hmem; by left|].
        destruct (decide (x = b)) as [->|]; [rewrite Hh3b; by destruct (h1 !!! b)|].
        by rewrite Hh3.
      * intros x Hx Hxb. by rewrite Hh3.
      * rewrite Hh3b. simpl. rewrite Htu. by destruct (h1 !!! b).
      * constructor; [|constructor]. eapply relevelled_links; [|done]. by split.
    + eapply (levels_ok_graft h1 h3); [done| |].
      * intros x Hx.
        destruct (decide (x = b)) as [->|]; [rewrite Hh3b; by destruct (h1 !!! b)|].
        by rewrite Hh3.
      * constructor; [|constructor].
        destruct (Hsame1 b) as (_ & _ & ->). by rewrite <- Hlvb, <- Nat.add_1_r.
    + rewrite locs_graft, bind_singleton by done. apply NoDup_app. repeat split; [done| |done].
      intros x Hx. by apply Hdisj.
    + destruct Hdict as [Hndk Hd]. split; [done|].
      intros i l. rewrite Hd, Hid3. rewrite locs_graft, bind_singleton, elem_of_app by done.
      by rewrite Hmem.
    + intros l Hl. rewrite Hid3. apply Hids.
      rewrite locs_graft, bind_singleton, elem_of_app in Hl by done. by apply Hmem.
    + intros l Hl. rewrite Hid3. apply Hown.
      rewrite locs_graft, bind_singleton, elem_of_app in Hl by done. by apply Hmem.
  - simpl. eapply relevelled_links; [|done]. by split.
  - simpl. by rewrite <- Hlvb.
  - simpl. rewrite Hh3b. destruct (Hsame1 b) as (_ & _ & <-). by destruct (h1 !!! b).
Qed.

(** ** The two loops of [removeEmployee] *)

Lemma reassign_idem x L e :
  set_level L (set_manager (Some x) (set_level L (set_manager (Some x) e))) =
  set_level L (set_manager (Some x) e).
Proof. by destruct e. Qed.

(** The loop [employee.reports.forEach((r) => newManager.addReport(r))]. *)
Lemma reassign_loop x (rs : list nat) : forall h : list Employee,
  x < length h -> Forall (fun r => r < length h) rs -> x ∉ rs ->
  let h' := fold_left (fun h r => addReport x r h) rs h in
  length h' = length h /\
  (forall r, r ∈ rs ->
     h' !!! r = set_level (level (h !!! x) + 1) (set_manager (Some x) (h !!! r))) /\
  h' !!! x = set_reports (reports (h !!! x) ++ rs) (h !!! x) /\
  (forall y, y <> x -> y ∉ rs -> h' !!! y = h !!! y).
Proof.
  induction rs as [|r rs IH]; intros h Hx Hrs Hnot; simpl.
  - split; [done|]. split; [by intros r ?%elem_of_nil|]. split; [|done].
    rewrite app_nil_r. by destruct (h !!! x).
  - apply Forall_cons in Hrs as [Hr Hrs]. apply not_elem_of_cons in Hnot as [Hxr Hnot].
    set (h1 := addReport x r h).
    assert (length h1 = length h) as Hlen1 by apply addReport_length.
    assert (h1 !!! r = set_level (level (h !!! x) + 1) (set_manager (Some x) (h !!! r))) as H1r
      by (by apply addReport_employee).
    assert (h1 !!! x = set_reports (reports (h !!! x) ++ [r]) (h !!! x)) as H1x
      by (by apply addReport_this).
    assert (forall y, y <> x -> y <> r -> h1 !!! y = h !!! y) as H1o
      by (intros; by apply addReport_other).
    destruct (IH h1) as (Hlen & Hin & Hx' & Hout); [lia| |done|].
    { eapply Forall_impl; [done|]. simpl. intros. lia. }
    assert (level (h1 !!! x) = level (h !!! x)) as Hlx by (rewrite H1x; by destruct (h !!! x)).
    split; [lia|]. split; [|split].
    + intros r' Hr'. destruct (decide (r' ∈ rs)) as [Hin'|Hnin].
      * rewrite Hin by done. rewrite Hlx. destruct (decide (r' = r)) as [->|Hne].
        -- rewrite H1r. apply reassign_idem.
        -- rewrite H1o; [done|by intros ->|done].
      * apply elem_of_cons in Hr' as [->|?]; [|done].
        rewrite Hout by auto. done.
    + rewrite Hx', H1x. destruct (h !!! x). unfold set_reports. simpl.
      by rewrite <- (assoc (++)).
    + intros y Hyx Hy. apply not_elem_of_cons in Hy as [Hyr Hy].
      rewrite Hout by done. by apply H1o.
Qed.

(** The loop [employee.reports.forEach((r) => { r.manager = null; })]. *)
Lemma orphan_loop (rs : list nat) : forall h : list Employee,
  Forall (fun r => r < length h) rs ->
  let h' := fold_left (fun h r => update r (set_manager None) h) rs h in
  length h' = length h /\
  (forall r, r ∈ rs -> manager (h' !!! r) = None) /\
  (forall y, id (h' !!! y) = id (h !!! y) /\ level (h' !!! y) = level (h !!! y)).
Proof.
  induction rs as [|r rs IH]; intros h Hrs; simpl.
  - split; [done|]. split; [by intros r ?%elem_of_nil|done].
  - apply Forall_cons in Hrs as [Hr Hrs].
    set (h1 := update r (set_manager None) h).
    assert (length h1 = length h) as Hlen1 by apply update_length.
    destruct (IH h1) as (Hlen & Hin & Hsame).
    { eapply Forall_impl; [done|]. simpl. intros. lia. }
    assert (forall y, id (h1 !!! y) = id (h !!! y) /\ level (h1 !!! y) = level (h !!! y) /\
                      (manager (h !!! y) = None -> manager (h1 !!! y) = None)) as H1.
    { intros y. subst h1. destruct (decide (r = y)) as [->|].
      - rewrite update_eq by done. by destruct (h !!! y).
      - by rewrite update_ne. }
    split; [lia|]. split.
    + intros r' Hr'. destruct (decide (r' ∈ rs)) as [?|Hnin]; [by apply Hin|].
      apply elem_of_cons in Hr' as [->|?]; [|done].
      clear IH Hin. subst h1.
      assert (forall (rs : list nat) (g : list Employee),
                 manager (g !!! r) = None ->
                 manager (fold_left (fun h r => update r (set_manager None) h) rs g !!! r) = None)
        as Hkeep.
      { clear. induction rs as [|r' rs IH]; intros g Hg; simpl; [done|].
        apply IH. destruct (decide (r' < length g)).
        - destruct (decide (r' = r)) as [->|].
          + rewrite update_eq by done. by destruct (g !!! r).
          + by rewrite update_ne.
        - unfold update. by rewrite list_insert_ge by lia. }
      apply Hkeep. rewrite update_eq by done. by destruct (h !!! r).
    + intros y. destruct (Hsame y) as [-> ->]. destruct (H1 y) as (-> & -> & _). done.
Qed.

Lemma detach_fields a (h : list Employee) :
  length (detach a h) = length h /\
  forall x, id (detach a h !!! x) = id (h !!! x) /\
            manager (detach a h !!! x) = manager (h !!! x) /\
            level (detach a h !!! x) = level (h !!! x).
Proof.
  unfold detach. destruct (manager (h !!! a)) as [m|]; [|done].
  split; [apply update_length|]. intros x.
  destruct (decide (m < length h)).
  - destruct (decide (m = x)) as [->|].
    + rewrite update_eq by done. by destruct (h !!! x).
    + by rewrite update_ne.
  - unfold update. by rewrite list_insert_ge by lia.
Qed.

Lemma dict_get_delete (d : list (string * nat)) k :
  k <> "__proto__" -> dict_get (dict_delete d k) k = None.
Proof.
  intros Hk. apply dict_get_None. rewrite dict_delete_own by done. intros Hin.
  apply list_elem_of_fmap in Hin as ([i l] & -> & Hin).
  apply list_elem_of_filter in Hin as [Hne _]. done.
Qed.

Lemma reports_in_bounds s t a :
  valid_tree s t -> a ∈ locs t ->
  Forall (fun r => r < length (mem s)) (reports (mem s !!! a)).
Proof.
  intros Hv Ha. apply Forall_forall. intros r Hr.
  eapply links_ok_bound; [apply (valid_links _ _ Hv)|].
  apply below_in_locs. by eapply links_report_manager; [apply (valid_links _ _ Hv)|..].
Qed.

(** ** [removeEmployee] with the reports handed to another member *)

(** A node strictly below a child of [a] is not itself a report of [a]. *)
Lemma below_child_not_report h p t a cs c y :
  links_ok h p t -> NoDup (locs t) -> subtree_at a t = Some (Node a cs) ->
  c ∈ cs -> y ∈ below c -> y ∉ reports (h !!! a).
Proof.
  intros Hlinks Hnd Hu Hc Hy Hin.
  pose proof (subtree_links _ _ _ _ _ Hlinks Hu) as Hul.
  pose proof (subtree_NoDup _ _ _ Hnd Hu) as Hndu.
  assert (a ∈ locs (Node a cs)) as Hau by apply list_elem_of_here.
  destruct (links_report_manager _ _ _ a y Hul Hau Hin) as [Hma _].
  apply links_ok_inv in Hul as (_ & _ & _ & Hcs).
  rewrite Forall_forall in Hcs.
  destruct (links_parent _ _ _ _ (Hcs c Hc) Hy) as (P & HP & HPin & _).
  assert (P = a) as -> by congruence.
  apply (NoDup_top_not_below (Node a cs) Hndu). simpl.
  apply list_elem_of_bind. eauto.
Qed.

Lemma removeEmployee_reassign_valid i v s t a x cs :
  valid_tree s t -> dict_get (employees s) i = Some a -> a <> top t ->
  truthy v = true -> dict_get (employees s) (to_key v) = Some x ->
  subtree_at a t = Some (Node a cs) -> x ∉ locs (Node a cs) ->
  level (mem s !!! x) = level (mem s !!! a) \/ Forall (fun c => kids c = []) cs ->
  exists s', removeEmployee i v s = Some (true, s') /\
             valid_tree s' (graft x cs (prune a t)).
Proof.
  intros Hv Hget Htop Htr Hx Hu Hxu Hlvl.
  pose proof (valid_pushState s t Hv) as Hpush.
  pose proof (remove_root_check s t i a Hv Hget) as Hcheck.
  destruct Hv as [Hroot Hlinks Hlevels Hnd Hdict Hids Hown].
  pose proof (proj1 (dict_ok_get _ _ _ _ _ Hdict) Hget) as [Ha Hid].
  pose proof (proj1 (dict_ok_get _ _ _ _ _ Hdict) Hx) as [Hxt _].
  assert (a ∈ below t) as Habelow by (apply locs_top_or_below in Ha as [?|?]; done).
  destruct (links_parent _ _ _ _ Hlinks Habelow) as (P & HP & HPin & HaP).
  pose proof (parent_not_in_subtree _ _ _ _ _ _ Hlinks Hnd Habelow Hu HP) as HPu.
  pose proof (subtree_NoDup _ _ _ Hnd Hu) as Hndu.
  pose proof (locs_prune a t _ Hnd Htop Hu) as Hperm.
  assert (NoDup (locs (prune a t) ++ locs (Node a cs))) as Hnd' by (by rewrite <- Hperm).
  apply NoDup_app in Hnd' as (Hndp & Hdisj & _).
  assert (forall y, y ∈ locs t <-> y ∈ locs (prune a t) \/ y ∈ locs (Node a cs)) as Hmem.
  { intros y. by rewrite Hperm, elem_of_app. }
  assert (x ∈ locs (prune a t)) as Hxp by (apply Hmem in Hxt as [?|?]; done).
  assert (forall y, y ∈ locs t -> y < length (mem s)) as Hbound
    by (intros; by eapply links_ok_bound).
  set (h := mem s) in *.
  pose proof (subtree_links _ _ _ _ _ Hlinks Hu) as Hul.
  pose proof (subtree_levels _ _ _ _ _ Hlevels Hu) as Hulv.
  apply links_ok_inv in Hul as (_ & _ & Hrs & Hcs).
  apply levels_ok_inv in Hulv as (_ & Hcslv).
  rewrite Forall_forall in Hcs. rewrite Forall_forall in Hcslv.
  (* the reports of [a] *)
  assert (forall r, r ∈ reports (h !!! a) -> exists c, c ∈ cs /\ top c = r) as Hrc.
  { intros r Hr. rewrite Hrs in Hr. apply list_elem_of_fmap in Hr as (c & -> & Hc). eauto. }
  assert (forall r, r ∈ reports (h !!! a) -> r ∈ locs (Node a cs) /\ r <> a) as Hru.
  { intros r Hr. destruct (Hrc r Hr) as (c & Hc & <-).
    assert (top c ∈ below (Node a cs)) as Hb.
    { simpl. apply list_elem_of_bind. exists c. split; [apply top_in_locs|done]. }
    split; [by apply below_in_locs|]. intros Heq.
    apply (NoDup_top_not_below _ Hndu). simpl in *. by rewrite <- Heq. }
  assert (x ∉ reports (h !!! a)) as Hxr by (intros Hin; by destruct (Hru _ Hin)).
  assert (P ∉ reports (h !!! a)) as HPr by (intros Hin; by destruct (Hru _ Hin)).
  assert (a ∉ reports (h !!! a)) as Har by (intros Hin; by destruct (Hru _ Hin)).
  assert (a <> x) as Hax by (intros ->; apply Hxu, list_elem_of_here).
  assert (a <> P) as HaP' by (intros ->; apply HPu, list_elem_of_here).
  assert (Forall (fun r => r < length h) (reports (h !!! a))) as Hrb.
  { apply Forall_forall. intros r Hr. apply Hbound, Hmem. right. by apply Hru. }
  (* the store after the loop *)
  destruct (reassign_loop x (reports (h !!! a)) h (Hbound x Hxt) Hrb Hxr)
    as (Hlen1 & Hin1 & Hx1 & Hout1).
  set (h1 := fold_left (fun h r => addReport x r h) (reports (h !!! a)) h) in *.
  assert (forall y, id (h1 !!! y) = id (h !!! y)) as Hid1.
  { intros y. destruct (decide (y ∈ reports (h !!! a))) as [Hy|Hy].
    - rewrite Hin1 by done. by destruct (h !!! y).
    - destruct (decide (y = x)) as [->|Hyx].
      + rewrite Hx1. by destruct (h !!! x).
      + by rewrite Hout1. }
  assert (h1 !!! a = h !!! a) as H1a by (by apply Hout1).
  (* the store after detaching [a] *)
  set (F := filter (fun r => id (h1 !!! r) <> id (h1 !!! a)) (reports (h1 !!! P))).
  assert (detach a h1 = update P (set_reports F) h1) as Hdet.
  { assert (manager (h1 !!! a) = Some P) as Hm1 by (by rewrite H1a).
    unfold detach. by rewrite Hm1. }
  assert (forall r, r ∈ locs t -> id (h1 !!! r) <> id (h1 !!! a) <-> r <> a) as Hfil.
  { intros r Hr. rewrite !Hid1. split.
    - intros Hne ->. done.
    - intros Hne Heq. apply Hne. by eapply dict_ok_inj. }
  assert (F = filter (fun r => r <> a) (reports (h !!! P)) ++
              (if decide (P = x) then reports (h !!! a) else [])) as HF.
  { subst F. destruct (decide (P = x)) as [->|HPx].
    - rewrite Hx1. simpl. rewrite filter_app. f_equal.
      + apply filter_ext_in. intros r Hr. apply Hfil.
        apply below_in_locs. by eapply links_report_manager.
      + apply filter_all. apply Forall_forall. intros r Hr.
        apply Hfil; [apply Hmem; right; by apply Hru|by apply Hru].
    - rewrite (Hout1 P) by done. rewrite app_nil_r.
      apply filter_ext_in. intros r Hr. apply Hfil.
      apply below_in_locs. by eapply links_report_manager. }
  set (h2 := update P (set_reports F) h1) in *.
  assert (P < length h1) as HPb by (rewrite Hlen1; by apply Hbound).
  assert (length h2 = length h) as Hlen2 by (subst h2; by rewrite update_length).
  assert (h2 !!! P = set_reports F (h1 !!! P)) as H2P by (subst h2; by rewrite update_eq).
  assert (forall y, y <> P -> h2 !!! y = h1 !!! y) as H2o.
  { intros y Hy. subst h2. by rewrite update_ne. }
  assert (forall y, id (h2 !!! y) = id (h !!! y)) as Hid2.
  { intros y. rewrite <- Hid1. destruct (decide (y = P)) as [->|Hy].
    - rewrite H2P. by destruct (h1 !!! P).
    - by rewrite H2o. }
  assert (forall y, y ∉ reports (h !!! a) ->
            manager (h2 !!! y) = manager (h !!! y) /\ level (h2 !!! y) = level (h !!! y)) as Hml2.
  { intros y Hy.
    assert (manager (h1 !!! y) = manager (h !!! y) /\ level (h1 !!! y) = level (h !!! y)) as [<- <-].
    { destruct (decide (y = x)) as [->|Hyx].
      - rewrite Hx1. by destruct (h !!! x).
      - by rewrite Hout1. }
    destruct (decide (y = P)) as [->|HyP].
    - rewrite H2P. by destruct (h1 !!! P).
    - by rewrite H2o. }
  assert (forall r, r ∈ reports (h !!! a) ->
            h2 !!! r = set_level (level (h !!! x) + 1) (set_manager (Some x) (h !!! r))) as H2r.
  { intros r Hr. rewrite H2o by (intros ->; done). by apply Hin1. }
  assert (forall y, y <> P -> y <> x -> reports (h2 !!! y) = reports (h !!! y)) as Hrep2.
  { intros y HyP Hyx. rewrite H2o by done.
    destruct (decide (y ∈ reports (h !!! a))) as [Hy|Hy].
    - rewrite Hin1 by done. by destruct (h !!! y).
    - by rewrite Hout1. }
  assert (reports (h2 !!! P) = F) as Hrep2P by (rewrite H2P; by destruct (h1 !!! P)).
  (* the store with [a] detached and nothing else done *)
  destruct (detach_pruned h (employees s) t a Hlinks Hlevels Hdict Hnd Habelow)
    as (Hlenm & Hsamem & Hotherm & Hlm & Hlvm).
  assert (reports (detach a h !!! P) = filter (fun r => r <> a) (reports (h !!! P))) as HmP.
  { rewrite (detach_eq h (employees s) t a P) by done.
    rewrite update_eq by (by apply Hbound). by destruct (h !!! P). }
  assert (forall y, y <> P -> detach a h !!! y = h !!! y) as Hmo.
  { intros y Hy. apply Hotherm. congruence. }
  set (hm := detach a h) in *.
  assert (forall y, y ∈ locs (prune a t) -> y ∉ reports (h !!! a)) as Hpr.
  { intros y Hy Hin. apply (Hdisj y Hy). by apply Hru. }
  assert (forall c y, c ∈ cs -> y ∈ below c ->
            (y ∉ reports (h !!! a)) /\ y <> P /\ y <> x) as Hdeep.
  { intros c y Hc Hy.
    assert (y ∈ locs (Node a cs)) as Hyu.
    { simpl. apply list_elem_of_further, list_elem_of_bind. exists c.
      split; [by apply below_in_locs|done]. }
    split; [by eapply (below_child_not_report h None t a cs c y)|].
    split; [by intros ->|by intros ->]. }
  exists (set_employees (dict_delete (employees s) i)
            (set_mem h2 (set_future [] (set_history (history s ++ [doc_of h t]) s)))).
  split.
  { unfold removeEmployee. fold h. rewrite Hcheck, bool_decide_false by done.
    rewrite (employees_get_Found s i a Hget), Hpush, Htr.
    rewrite (employees_get_ext s _ (to_key v)) by done.
    rewrite (employees_get_Found s _ x Hx).
    cbn [mem employees set_future set_history].
    fold h. fold h1. by rewrite Hdet. }
  split; simpl.
  - by rewrite top_graft, top_prune.
  - eapply (links_ok_graft hm h2); [done| | | |].
    + intros y Hy. split; [rewrite Hlen2; apply Hbound, Hmem; by left|].
      destruct (Hml2 y (Hpr y Hy)) as [-> _]. by destruct (Hsamem y) as (_ & -> & _).
    + intros y Hy Hyx. destruct (decide (y = P)) as [->|HyP].
      * rewrite Hrep2P, HF, HmP. rewrite decide_False by done. by rewrite app_nil_r.
      * rewrite Hrep2, Hmo by done. done.
    + destruct (decide (x = P)) as [->|HxP].
      * rewrite Hrep2P, HF, HmP. rewrite decide_True by done. by rewrite Hrs.
      * rewrite H2o, Hx1, Hmo by done. simpl. by rewrite Hrs.
    + apply Forall_forall. intros c Hc.
      assert (top c ∈ reports (h !!! a)) as Hr.
      { rewrite Hrs. apply list_elem_of_fmap. eauto. }
      eapply (links_ok_reparent h h2 (Some a)); [by apply Hcs|..].
      * rewrite Hlen2. apply Hbound, Hmem. right. by apply Hru.
      * rewrite H2r by done. by destruct (h !!! top c).
      * rewrite H2r by done. by destruct (h !!! top c).
      * intros y Hy. destruct (Hdeep c y Hc Hy) as (Hyr & HyP & Hyx).
        split; [|split].
        -- rewrite Hlen2. apply Hbound, Hmem. right. simpl.
           apply list_elem_of_further, list_elem_of_bind. exists c.
           split; [by apply below_in_locs|done].
        -- by apply Hml2.
        -- by apply Hrep2.
  - eapply (levels_ok_graft hm h2); [done| |].
    + intros y Hy. destruct (Hml2 y (Hpr y Hy)) as [_ ->].
      by destruct (Hsamem y) as (_ & _ & ->).
    + destruct (Hsamem x) as (_ & _ & ->).
      apply Forall_forall. intros c Hc.
      assert (top c ∈ reports (h !!! a)) as Hr.
      { rewrite Hrs. apply list_elem_of_fmap. eauto. }
      assert (level (h2 !!! top c) = S (level (h !!! x))) as Htopc.
      { rewrite H2r by done. simpl. lia. }
      destruct Hlvl as [Hsame|Hleaves].
      * rewrite Hsame. eapply (levels_ok_agree h h2); [by apply Hcslv|].
        intros y Hy. apply locs_top_or_below in Hy as [->|Hy].
        -- rewrite Htopc, Hsame. symmetry. by apply (levels_ok_top _ _ _ (Hcslv c Hc)).
        -- destruct (Hdeep c y Hc Hy) as (Hyr & _). by apply Hml2.
      * rewrite Forall_forall in Hleaves. specialize (Hleaves c Hc).
        destruct c as [r cs']. simpl in *. subst cs'.
        constructor; [done|constructor].
  - rewrite locs_graft by done. apply NoDup_app.
    simpl in Hndu. apply NoDup_cons in Hndu as [_ Hndcs].
    split; [done|]. split; [|done].
    intros y Hy Hin. apply (Hdisj y Hy). simpl. by apply list_elem_of_further.
  - destruct Hdict as [Hndk Hd]. split; [by apply dict_delete_NoDup|].
    assert (i <> "__proto__") as Hip.
    { pose proof (proj1 (dict_get_elem _ _ _ Hndk) Hget) as Hin.
      apply Hd in Hin as [Hal <-]. by apply Hown. }
    intros j l. rewrite dict_delete_elem, Hd, Hid2 by done.
    rewrite locs_graft, elem_of_app by done. rewrite Hmem. simpl.
    rewrite elem_of_cons. split.
    + intros [[[Hl|[->|Hl]] Hj] Hji]; [by auto| |by auto]. congruence.
    + intros [Hl Hj]. split; [split; [|done]|].
      * destruct Hl as [?|?]; auto.
      * intros ->. assert (l = a) as ->.
        { eapply (dict_ok_inj h (employees s) t); [by split| |done|congruence].
          apply Hmem. destruct Hl as [?|?]; [by left|right]. simpl.
          by apply list_elem_of_further. }
        destruct Hl as [Hl|Hl].
        -- apply (Hdisj a Hl). apply list_elem_of_here.
        -- apply (NoDup_top_not_below (Node a cs)); [|exact Hl].
           done.
  - intros l Hl. rewrite Hid2. apply Hids.
    rewrite locs_graft, elem_of_app in Hl by done. apply Hmem.
    destruct Hl as [?|?]; [by left|right]. simpl. by apply list_elem_of_further.
  - intros l Hl. rewrite Hid2. apply Hown.
    rewrite locs_graft, elem_of_app in Hl by done. apply Hmem.
    destruct Hl as [?|?]; [by left|right]. simpl. by apply list_elem_of_further.
Qed.

(** The same, with the conditions read off the store. *)
Lemma removeEmployee_reassign i v s t a x :
  valid_tree s t -> dict_get (employees s) i = Some a -> a <> top t ->
  truthy v = true -> dict_get (employees s) (to_key v) = Some x ->
  x <> a -> ~ descendant (mem s) a x ->
  level (mem s !!! x) = level (mem s !!! a) \/
  (forall r, r ∈ reports (mem s !!! a) -> reports (mem s !!! r) = []) ->
  exists s', removeEmployee i v s = Some (true, s') /\ valid s'.
Proof.
  intros Hv Hget Htop Htr Hx Hxa Hnd Hlvl.
  pose proof (proj1 (dict_ok_get _ _ _ _ _ (valid_dict _ _ Hv)) Hget) as [Ha _].
  destruct (subtree_at_Some a t Ha) as [u Hu].
  pose proof (subtree_at_top _ _ _ Hu) as Htu.
  pose proof (subtree_links _ _ _ _ _ (valid_links _ _ Hv) Hu) as Hul.
  destruct u as [a' cs]. simpl in Htu. subst a'.
  destruct (removeEmployee_reassign_valid i v s t a x cs Hv Hget Htop Htr Hx Hu)
    as (s' & Hrun & Hv').
  - intros Hin. apply (locs_top_or_below (Node a cs)) in Hin as [Hin|Hin]; [done|].
    apply Hnd. by apply (descendant_below _ _ (Node a cs) x Hul).
  - destruct Hlvl as [?|Hleaves]; [by left|right].
    apply links_ok_inv in Hul as (_ & _ & Hrs & Hcs).
    rewrite Forall_forall in Hcs. apply Forall_forall. intros c Hc.
    assert (reports (mem s !!! top c) = []) as Hr.
    { apply Hleaves. rewrite Hrs. apply list_elem_of_fmap. eauto. }
    rewrite (links_ok_top_reports _ _ _ (Hcs c Hc)) in Hr.
    by apply fmap_nil_inv in Hr.
  - exists s'. split; [done|by eexists].
Qed.

(** ** A valid chart satisfies the four invariants *)

Lemma chain_ends_shape s p t :
  links_ok (mem s) p t -> chain_ends s (top t) ->
  forall x, x ∈ locs t -> chain_ends s x.
Proof.
  revert p. induction t as [l cs IH] using shape_ind'. intros p Hok Htop x Hx.
  apply links_ok_inv in Hok as (_ & _ & _ & Hcs).
  rewrite Forall_forall in IH, Hcs.
  apply locs_node_inv in Hx as [->|(c & Hc & Hx)]; [done|].
  eapply IH; [done|by apply Hcs| |done].
  eapply chain_step; [|apply Htop]. eapply links_ok_top_manager. by apply Hcs.
Qed.

Lemma levels_below h p lvl t x :
  links_ok h p t -> levels_ok h lvl t -> x ∈ below t ->
  exists m, manager (h !!! x) = Some m /\ level (h !!! x) = level (h !!! m) + 1.
Proof.
  revert p lvl. induction t as [l cs IH] using shape_ind'. intros p lvl Hok Hlv Hx.
  apply links_ok_inv in Hok as (_ & _ & _ & Hcs).
  apply levels_ok_inv in Hlv as (Hl & Hlcs).
  rewrite Forall_forall in IH, Hcs, Hlcs.
  unfold below in Hx. simpl in Hx. apply list_elem_of_bind in Hx as (c & Hx & Hc).
  apply locs_top_or_below in Hx as [->|Hx].
  - exists l. split.
    + eapply links_ok_top_manager. by apply Hcs.
    + rewrite (levels_ok_top _ _ _ (Hlcs c Hc)). lia.
  - eapply IH; [done|by apply Hcs|by apply Hlcs|done].
Qed.

Lemma valid_invariants s : valid s -> invariants s.
Proof.
  intros [t [Hroot Hlinks Hlevels Hnd Hdict Hids Hown]].
  assert (forall l, member s l <-> l ∈ locs t) as Hmem.
  { intros l. unfold member. by eapply dict_ok_values. }
  assert (forall l, l ∈ locs t -> manager (mem s !!! l) = None -> l = top t) as Honly.
  { intros l Hl Hm. apply locs_top_or_below in Hl as [?|Hl]; [done|].
    destruct (links_parent _ _ _ _ Hlinks Hl) as (P & HP & _). congruence. }
  repeat split.
  - right. exists (top t). split; [apply Hmem, top_in_locs|]. split.
    + by eapply links_ok_top_manager.
    + intros l Hl. apply Honly. by apply Hmem.
  - intros l Hl%Hmem. eapply chain_ends_shape; [done| |done].
    apply chain_root; [by eapply links_ok_top_manager|done].
  - intros l Hl%Hmem. apply locs_top_or_below in Hl as [->|Hl].
    + rewrite (links_ok_top_manager _ _ _ Hlinks). by eapply levels_ok_top.
    + destruct (levels_below _ _ _ _ _ Hlinks Hlevels Hl) as (m & -> & ?). done.
  - intros l m Hl%Hmem Hm. apply Hmem.
    apply locs_top_or_below in Hl as [->|Hl].
    + rewrite (links_ok_top_manager _ _ _ Hlinks) in Hm. done.
    + destruct (links_parent _ _ _ _ Hlinks Hl) as (P & HP & HPin & _). congruence.
Qed.

Lemma empty_invariants s : empty_store s -> invariants s.
Proof.
  intros [_ He]. unfold invariants, single_root, acyclic, levels_consistent,
    managers_exist, member. rewrite He. simpl.
  split; [by left|]. split; [|split].
  - intros l Hl. by apply elem_of_nil in Hl.
  - intros l Hl. by apply elem_of_nil in Hl.
  - intros l m Hl. by apply elem_of_nil in Hl.
Qed.

(** ** One operation keeps the chart valid

    The calls left out are those that break the chart or throw.  [setRoot]
    on a store that is not empty; an id for a new member that is empty, in
    use or ["__proto__"]; [removeEmployee] of a member with reports that
    does not hand them to a member outside its subtree, at its own level
    unless the reports have no reports themselves.  And those in which a
    name that every object inherits is taken for an employee and the call
    throws: as the manager in [addEmployee], as the employee in
    [removeEmployee], in [editEmployee] when there is no root or a value
    is assigned that the inherited value does not take, in [moveSubtree]
    as the employee under a member or as the manager of a member that is
    not the root. *)

Lemma removeEmployee_fail_root s t i a v :
  valid_tree s t -> dict_get (employees s) i = Some a -> a = top t ->
  removeEmployee i v s = Some (false, s).
Proof.
  intros Hv Hget ->. unfold removeEmployee.
  by rewrite (remove_root_check s t i (top t) Hv Hget), bool_decide_true.
Qed.

Lemma removeEmployee_fail_unknown s i v :
  employees_get s i = Falsy -> removeEmployee i v s = Some (false, s).
Proof.
  intros Hget. unfold removeEmployee. rewrite Hget.
  destruct (root s) as [r|]; [by destruct (bool_decide _)|done].
Qed.


(** What is found under a name. *)
Lemma employees_get_cases s k :
  dict_get (employees s) "__proto__" = None ->
  (exists l, dict_get (employees s) k = Some l /\ employees_get s k = Found l) \/
  (unknown_id s k /\ employees_get s k = Falsy) \/
  (builtin_name s k /\
   employees_get s k = Other (if bool_decide (k = "__proto__") then ObjectPrototype
                              else ObjectFunction k)).
Proof.
  intros Hp. rewrite (employees_get_plain s k Hp).
  destruct (dict_get (employees s) k) as [l|] eqn:Hk; [left; by exists l|right].
  destruct (decide (k ∈ object_prototype_keys)) as [Hin|Hout].
  - right. split; [by split|]. case_bool_decide; [done|]. by rewrite bool_decide_eq_true_2.
  - left. split; [by split|]. rewrite bool_decide_eq_false_2.
    + by rewrite bool_decide_eq_false_2.
    + intros ->. apply Hout. apply (bool_decide_unpack _). vm_compute. exact I.
Qed.

Lemma moveSubtree_valid s t A B :
  valid_tree s t -> op_ok s (OpMove A B) ->
  exists b s', moveSubtree A B s = Some (b, s') /\ valid s'.
Proof.
  intros Hv [HnA HnB]. pose proof (valid_no_proto s t Hv) as Hp.
  assert (exists b, moveSubtree A B s = Some (b, s) \/
            exists a b', dict_get (employees s) A = Some a /\
                         dict_get (employees s) B = Some b') as [b0 Hcase].
  { exists false. unfold moveSubtree.
    destruct (employees_get_cases s A Hp) as [(a & HA & ->)|[[_ ->]|[HbA ->]]];
      [| by left |].
    - destruct (employees_get_cases s B Hp) as [(b & HB & ->)|[[_ ->]|[HbB ->]]];
        [right; by eauto|by left|].
      left. rewrite bool_decide_eq_true_2; [done|].
      destruct (decide (root s = Some a)) as [|Hr]; [done|].
      exfalso. apply HnB. split; [done|]. by exists a.
    - destruct (employees_get_cases s B Hp) as [(b & HB & ->)|[[_ ->]|[HbB ->]]];
        [|by left|by left].
      exfalso. apply HnA. split; [done|]. by eexists. }
  destruct Hcase as [Hsame|(a & b & HA & HB)];
    [eexists _, _; split; [done|by exists t]|].
  pose proof (proj1 (dict_ok_get _ _ _ _ _ (valid_dict _ _ Hv)) HA) as [Ha _].
  destruct (subtree_at_Some a t Ha) as [u Hu].
  destruct (decide (a = top t \/ b ∈ locs u)) as [Hrej|Hacc].
  - rewrite (moveSubtree_reject s t A B a b u) by done.
    eexists _, _; split; [done|by exists t].
  - destruct (moveSubtree_accept s t A B a b u) as (s' & -> & Hv' & _); [done..|tauto|tauto|].
    eexists _, _; split; [done|by eexists].
Qed.

(** [editEmployee] of a name every object inherits, with values the
    inherited value takes: the snapshot is pushed and nothing else
    changes. *)
Lemma editEmployee_builtin s i p :
  dict_get (employees s) "__proto__" = None ->
  builtin_name s i -> p_name p = None ->
  (i = "__proto__" -> assigns_nothing p = true) ->
  editEmployee i p s =
  match pushState s with Some s' => Some (true, s') | None => None end.
Proof.
  intros Hp Hb Hn Hproto. unfold editEmployee.
  destruct (employees_get_cases s i Hp) as [(l & Hl & _)|[[[_ Hu] _]|[_ ->]]].
  - destruct Hb as [Hnone _]. congruence.
  - by destruct Hb as [_ ?].
  - destruct (pushState s) as [s'|]; [|done].
    unfold assigns_to_builtin. case_bool_decide as Hi.
    + by rewrite (Hproto Hi).
    + rewrite bool_decide_eq_true_2 by done. by rewrite orb_true_r.
Qed.

Lemma op_valid o s :
  valid s -> op_ok s o -> exists s', apply_op o s = Some s' /\ valid s'.
Proof.
  intros [t Hv] Hok. pose proof (valid_no_proto s t Hv) as Hp. destruct o; simpl in *.
  - destruct Hok as [[Hr _] _]. rewrite (valid_root _ _ Hv) in Hr. done.
  - destruct Hok as [Hr|(Hu & Hup & Hfresh & Hnb)];
      [rewrite (valid_root _ _ Hv) in Hr; done|].
    rewrite (addEmployee_eq _ _ _ _ _ _ _ _ s t Hv Hnb). simpl.
    eexists. split; [done|]. eexists. apply valid_added; [done| |done|done|done].
    by apply resolve_manager_in.
  - destruct (decide (employeeId ∈ object_prototype_keys /\
                      dict_get (employees s) employeeId = None)) as [[Hin Hnone]|Hnb].
    + destruct (Hok (conj Hnone Hin)) as (_ & Hn & Hproto).
      rewrite (editEmployee_builtin s employeeId newData Hp (conj Hnone Hin) Hn Hproto).
      rewrite (valid_pushState s t Hv). simpl. eexists. split; [done|].
      exists t. by eapply valid_tree_ext; [..|apply Hv].
    + destruct (editEmployee_valid employeeId newData s t Hv) as (b & s' & -> & Hv').
      { intros [? ?]. by apply Hnb. }
      simpl. eexists. split; [done|by exists t].
  - destruct Hok as [Hnb Hok].
    destruct (employees_get_cases s employeeId Hp) as [(a & Hget & _)|[[_ Hget]|[Hb _]]];
      [| |done].
    + destruct (decide (a = top t)) as [Htop|Htop].
      * rewrite (removeEmployee_fail_root s t employeeId a) by done. simpl.
        eexists. split; [done|by exists t].
      * destruct (Hok a) as [Hleaf|(x & Htr & Hx & Hxa & Hnd & Hlvl)];
          [done|rewrite (valid_root _ _ Hv); congruence| |].
        -- destruct (removeEmployee_leaf_valid employeeId newManagerId s t a Hv Hget Htop Hleaf)
             as (s' & -> & Hv').
           simpl. eexists. split; [done|by eexists].
        -- destruct (removeEmployee_reassign employeeId newManagerId s t a x
                       Hv Hget Htop Htr Hx Hxa Hnd Hlvl) as (s' & -> & Hv').
           simpl. eauto.
    + rewrite removeEmployee_fail_unknown by done. simpl.
      eexists. split; [done|by exists t].
  - destruct (moveSubtree_valid s t employeeId newManagerId Hv Hok) as (b & s' & -> & Hv').
    simpl. eauto.
Qed.

Lemma op_empty_or_valid o s :
  empty_store s \/ valid s -> op_ok s o ->
  exists s', apply_op o s = Some s' /\ (empty_store s' \/ valid s').
Proof.
  intros [He|Hv] Hok.
  - assert (dict_get (employees s) "__proto__" = None) as Hp
      by (destruct He as [_ ->]; done).
    assert (forall k, employees_get s k <> Falsy -> builtin_name s k) as Hb.
    { intros k Hk.
      destruct (employees_get_cases s k Hp) as [(l & Hl & _)|[[_ ?]|[? _]]]; [|done|done].
      destruct He as [_ He]. by rewrite He in Hl. }
    destruct o as [u n ti lo dv de em| |i p|i v|A B].
    + destruct Hok as (_ & Hu & Hup).
      destruct (setRoot_valid u n ti lo dv de em s He Hu Hup) as (s' & Hs' & Hv').
      exists s'. split; [done|]. right. by eexists.
    + exists s. split; [|by left]. simpl. unfold addEmployee.
      destruct He as [-> _]. done.
    + exists s. split; [|by left]. simpl. unfold editEmployee.
      destruct (employees_get s i) eqn:Hg; [| |done].
      * destruct (Hok (Hb i ltac:(congruence))) as [Hr _]. by destruct He as [? _].
      * destruct (Hok (Hb i ltac:(congruence))) as [Hr _]. by destruct He as [? _].
    + exists s. split; [|by left]. simpl. destruct Hok as [Hnb _].
      rewrite removeEmployee_fail_unknown; [done|].
      destruct (employees_get s i) eqn:Hg; [| |done]; exfalso; apply Hnb, Hb; congruence.
    + exists s. split; [|by left]. simpl. unfold moveSubtree.
      destruct He as [_ He].
      destruct (employees_get_cases s A Hp) as [(a & HA & _)|[[_ ->]|[_ ->]]];
        [by rewrite He in HA|done|].
      destruct (employees_get_cases s B Hp) as [(b & HB & _)|[[_ ->]|[_ ->]]];
        [by rewrite He in HB|done|done].
  - destruct (op_valid o s Hv Hok) as (s' & Hs' & Hv'). eauto.
Qed.

Lemma run_empty_or_valid ops s :
  empty_store s \/ valid s -> ops_ok s ops ->
  exists s', run ops s = Some s' /\ (empty_store s' \/ valid s').
Proof.
  revert s. induction ops as [|o ops IH]; intros s Hs Hok.
  - exists s. done.
  - destruct Hok as [Ho Hrest].
    destruct (op_empty_or_valid o s Hs Ho) as (s1 & Hs1 & Hv1).
    simpl. rewrite Hs1. apply IH; [done|]. by apply Hrest.
Qed.

(** ** Checking concrete charts *)

Ltac elem_tac :=
  first [apply list_elem_of_here | apply list_elem_of_further; elem_tac].

Ltac links_tac :=
  repeat first
    [ apply Forall_nil_2
    | apply Forall_cons_2
    | apply links_ok_node; [vm_compute; lia | reflexivity | reflexivity | ]
    | apply levels_ok_node; [reflexivity | ] ].

Ltac dict_tac :=
  let i := fresh "i" in let l := fresh "l" in
  let H := fresh "H" in let Hl := fresh "Hl" in let Hi := fresh "Hi" in
  intros i l; split;
  [ intros H; vm_compute in H;
    repeat (apply elem_of_cons in H as [H|H];
            [inversion H; subst; split; [vm_compute; elem_tac | reflexivity]|]);
    inversion H
  | intros [Hl Hi]; vm_compute in Hl;
    repeat (apply elem_of_cons in Hl as [->|Hl]; [subst i; vm_compute; elem_tac|]);
    inversion Hl ].

(** [valid_tree s t] for a closed chart [s] and a closed shape [t]. *)
Ltac valid_tac :=
  split;
  [ reflexivity
  | links_tac
  | links_tac
  | apply (bool_decide_unpack _); vm_compute; exact I
  | split; [apply (bool_decide_unpack _); vm_compute; exact I | dict_tac]
  | let l := fresh "l" in let Hl := fresh "Hl" in
    intros l Hl; vm_compute in Hl;
    repeat (apply elem_of_cons in Hl as [->|Hl]; [vm_compute; discriminate|]);
    inversion Hl
  | let l := fresh "l" in let Hl := fresh "Hl" in
    intros l Hl; vm_compute in Hl;
    repeat (apply elem_of_cons in Hl as [->|Hl]; [vm_compute; discriminate|]);
    inversion Hl ].

(** A closed decidable proposition. *)
Ltac decide_tac := apply (bool_decide_unpack _); vm_compute; exact I.

Lemma valid_chart3 : valid chart3.
Proof. exists (Node 0 [Node 1 [Node 2 []; Node 3 []]]). valid_tac. Qed.

Lemma valid_ceo_chart : valid ceo_chart.
Proof. exists (Node 0 []). valid_tac. Qed.

(* ------------------------------------------------------------------ *)
(** ** C1: invariant preservation                                       *)
(* ------------------------------------------------------------------ *)

(** C1, counterexample.  The claim says that any sequence of mutations
    keeps invariants 1-4 on a valid chart.  Removing a member that has
    direct reports without naming a new manager sets the [manager] of each
    report to [null]: the store then has several members without a
    manager.  And a sequence need not end at all: [employees] is a plain
    object, under ["constructor"] it holds a function, which [moveSubtree]
    takes for the new manager, and the call throws. *)
Lemma orphaning_removal_breaks_invariants :
  ~ (forall s ops s', valid s -> run ops s = Some s' -> invariants s') /\
  run [OpMove "u2" "constructor"] chart3 = None.
Proof.
  split; [|reflexivity].
  intros Hclaim.
  destruct (run [OpRemove "u1" JNull] chart3) as [s'|] eqn:Hrun;
    [|vm_compute in Hrun; discriminate].
  pose proof (Hclaim _ _ _ valid_chart3 Hrun) as Hinv.
  vm_compute in Hrun. injection Hrun as <-.
  destruct Hinv as ([Hempty|(r & _ & _ & Huniq)] & _).
  - discriminate Hempty.
  - assert (0 = r) as H0 by (apply Huniq; [vm_compute; elem_tac|reflexivity]).
    assert (2 = r) as H2 by (apply Huniq; [vm_compute; elem_tac|reflexivity]).
    congruence.
Qed.

(** C1, as amended.  A chart that is empty or valid stays so, and
    satisfies invariants 1-4, after every sequence of the five mutations
    in which [setRoot] is applied to an empty store, the ids generated for
    new employees are fresh, every member that is removed either has no
    direct reports or hands them to a member outside its own subtree,
    where they keep their level or have no reports themselves, and no
    call is one that throws because a name every object inherits is taken
    for an employee.  Each call of such a sequence returns. *)
Theorem mutations_preserve_invariants (s : OrgChart) (ops : list op) :
  empty_store s \/ valid s ->
  ops_ok s ops ->
  exists s', run ops s = Some s' /\ (empty_store s' \/ valid s') /\ invariants s'.
Proof.
  intros Hs Hok.
  destruct (run_empty_or_valid ops s Hs Hok) as (s' & Hrun & Hs').
  exists s'. split; [done|]. split; [done|].
  destruct Hs' as [He|Hv]; [by apply empty_invariants|by apply valid_invariants].
Qed.

(** [~ descendant h a x] on a closed store. *)
Ltac no_descendant :=
  match goal with
  | H : descendant _ _ _ |- _ =>
      inversion H; clear H; subst;
      match goal with
      | Hin : _ ∈ reports _ |- _ =>
          vm_compute in Hin;
          repeat (apply elem_of_cons in Hin as [Hin|Hin];
                  [first [discriminate Hin | subst; no_descendant]|]);
          inversion Hin
      end
  end.

(** The condition of [op_ok] on a removal, for a closed chart. *)
Ltac removal_tac :=
  let l := fresh in let H1 := fresh in let H2 := fresh in
  intros l H1 H2;
  first [ discriminate H1
        | vm_compute in H1; first [discriminate H1 | injection H1 as <-];
          first [ by destruct H2
                | left; reflexivity
                | right; eexists;
                  split; [reflexivity|]; split; [reflexivity|];
                  split; [discriminate|]; split; [intro; no_descendant|];
                  first [ left; reflexivity
                        | let r := fresh in let Hr := fresh in
                          right; intros r Hr; vm_compute in Hr;
                          repeat (apply elem_of_cons in Hr as [->|Hr];
                                  [reflexivity|]);
                          inversion Hr ] ] ].

Ltac op_ok_tac :=
  lazymatch goal with
  | |- op_ok _ (OpSetRoot _ _ _ _ _ _ _) =>
      split; [split; reflexivity|split; discriminate]
  | |- op_ok _ (OpAdd _ _ _ _ _ _ _ _) =>
      right; split; [discriminate|split; [discriminate|split; [reflexivity|decide_tac]]]
  | |- op_ok _ (OpEdit _ _) => cbn [op_ok]; decide_tac
  | |- op_ok _ (OpMove _ _) =>
      split; [decide_tac|];
      let Hb := fresh in let a := fresh in let Ha := fresh in
      intros (Hb & a & Ha & _);
      first [ revert Hb; decide_tac | vm_compute in Ha; discriminate Ha ]
  | |- op_ok _ (OpRemove _ _) => split; [decide_tac|removal_tac]
  end.

Ltac ops_ok_tac :=
  repeat match goal with
  | |- ops_ok _ [] => exact I
  | |- ops_ok _ (_ :: _) =>
      split;
      [ op_ok_tac
      | let s' := fresh "s" in let H := fresh "H" in
        intros s' H; vm_compute in H; injection H as <- ]
  end.

Lemma mutations_preserve_invariants_witness :
  (empty_store new_OrgChart \/ valid new_OrgChart) /\
  ops_ok new_OrgChart session1 /\
  exists s', run session1 new_OrgChart = Some s' /\
             (empty_store s' \/ valid s') /\ invariants s'.
Proof.
  assert (empty_store new_OrgChart \/ valid new_OrgChart) as H0 by (left; by split).
  assert (ops_ok new_OrgChart session1) as H1.
  { unfold session1. ops_ok_tac. }
  split; [exact H0|]. split; [exact H1|].
  exact (mutations_preserve_invariants new_OrgChart session1 H0 H1).
Defined.

(* ------------------------------------------------------------------ *)
(** ** C3: cycle rejection in [moveSubtree]                             *)
(* ------------------------------------------------------------------ *)

Lemma same_member_same_id s t A B a b :
  valid_tree s t ->
  dict_get (employees s) A = Some a -> dict_get (employees s) B = Some b ->
  B = A <-> b = a.
Proof.
  intros Hv HA HB.
  pose proof (proj1 (dict_ok_get _ _ _ _ _ (valid_dict _ _ Hv)) HA) as [Ha HidA].
  pose proof (proj1 (dict_ok_get _ _ _ _ _ (valid_dict _ _ Hv)) HB) as [Hb HidB].
  split; [intros ->; congruence|intros ->; congruence].
Qed.

Lemma cycle_condition s t A B a b u :
  valid_tree s t ->
  dict_get (employees s) A = Some a -> dict_get (employees s) B = Some b ->
  subtree_at a t = Some u ->
  B = A \/ descendant (mem s) a b <-> b ∈ locs u.
Proof.
  intros Hv HA HB Hu.
  pose proof (subtree_at_top _ _ _ Hu) as Htu.
  pose proof (subtree_links _ _ _ _ _ (valid_links _ _ Hv) Hu) as Hul.
  rewrite (same_member_same_id s t A B a b Hv HA HB).
  rewrite <- Htu at 2. rewrite (descendant_below _ _ _ _ Hul).
  rewrite (locs_top_or_below u), Htu. done.
Qed.

Lemma moveSubtree_rejects s A B a b :
  valid s ->
  dict_get (employees s) A = Some a -> dict_get (employees s) B = Some b ->
  B = A \/ descendant (mem s) a b ->
  moveSubtree A B s = Some (false, s).
Proof.
  intros [t Hv] HA HB Hrej.
  pose proof (proj1 (dict_ok_get _ _ _ _ _ (valid_dict _ _ Hv)) HA) as [Ha HidA].
  destruct (subtree_at_Some a t Ha) as [u Hu].
  eapply moveSubtree_reject; [done..|]. right.
  by apply (cycle_condition s t A B a b u Hv HA HB Hu).
Qed.

(** C3.  For members [A] and [B] of a valid chart, [moveSubtree(A, B)]
    returns [false] and changes nothing exactly when [B] is [A] or is
    reachable from [A] through [reports]; otherwise it returns [true],
    [A]'s manager is [B], and every node [d] report edges below [A] (so
    [A] itself for [d = 0]) is at level [B.level + 1 + d], [B] keeping its
    level. *)
Theorem moveSubtree_cycle_guard (s : OrgChart) (A B : string) (a b : loc) :
  valid s ->
  dict_get (employees s) A = Some a ->
  dict_get (employees s) B = Some b ->
  (B = A \/ descendant (mem s) a b -> moveSubtree A B s = Some (false, s)) /\
  (~ (B = A \/ descendant (mem s) a b) ->
   exists s',
     moveSubtree A B s = Some (true, s') /\
     valid s' /\
     manager (mem s' !!! a) = Some b /\
     level (mem s' !!! b) = level (mem s !!! b) /\
     forall d x, at_depth (mem s') a d x ->
                 level (mem s' !!! x) = level (mem s' !!! b) + 1 + d).
Proof.
  intros [t Hv] HA HB.
  pose proof (proj1 (dict_ok_get _ _ _ _ _ (valid_dict _ _ Hv)) HA) as [Ha HidA].
  pose proof (proj1 (dict_ok_get _ _ _ _ _ (valid_dict _ _ Hv)) HB) as [Hb HidB].
  destruct (subtree_at_Some a t Ha) as [u Hu].
  pose proof (subtree_at_top _ _ _ Hu) as Htu.
  pose proof (subtree_links _ _ _ _ _ (valid_links _ _ Hv) Hu) as Hul.
  pose proof (cycle_condition s t A B a b u Hv HA HB Hu) as Hiff.
  split.
  - intros Hrej. eapply moveSubtree_reject; [done..|]. right. by apply Hiff.
  - intros Hacc. rewrite Hiff in Hacc.
    assert (a <> top t) as Htop.
    { intros ->. apply Hacc. destruct t as [l cs].
      rewrite subtree_at_unfold, decide_True in Hu by done. by injection Hu as <-. }
    destruct (moveSubtree_accept s t A B a b u Hv HA HB Hu Htop Hacc)
      as (s' & Hrun & Hv' & Hul' & Hlv' & Hlb & _).
    exists s'. split; [done|]. split; [by eexists|]. split; [|split; [done|]].
    + rewrite <- Htu. by eapply links_ok_top_manager.
    + intros d x Hd. rewrite Hlb.
      by eapply (at_depth_level _ _ _ _ Hd (Some b) u).
Qed.

Lemma moveSubtree_cycle_guard_witness :
  valid chart3 /\
  dict_get (employees chart3) "u2" = Some 2 /\
  dict_get (employees chart3) "u3" = Some 3 /\
  (("u3" = "u2" \/ descendant (mem chart3) 2 3 -> moveSubtree "u2" "u3" chart3 = Some (false, chart3)) /\
   (~ ("u3" = "u2" \/ descendant (mem chart3) 2 3) ->
    exists s',
      moveSubtree "u2" "u3" chart3 = Some (true, s') /\
      valid s' /\
      manager (mem s' !!! 2) = Some 3 /\
      level (mem s' !!! 3) = level (mem chart3 !!! 3) /\
      forall d x, at_depth (mem s') 2 d x ->
                  level (mem s' !!! x) = level (mem s' !!! 3) + 1 + d)).
Proof.
  split; [exact valid_chart3|]. split; [reflexivity|]. split; [reflexivity|].
  exact (moveSubtree_cycle_guard chart3 "u2" "u3" 2 3 valid_chart3 eq_refl eq_refl).
Defined.

(* ------------------------------------------------------------------ *)
(** ** C8: [addEmployee]                                                *)
(* ------------------------------------------------------------------ *)

Lemma dict_get_set (d : list (string * nat)) k v : dict_get (dict_set d k v) k = Some v.
Proof.
  induction d as [|[k' v'] d IH]; simpl.
  - by rewrite decide_True.
  - destruct (decide (k = k')) as [->|Hne]; simpl.
    + by rewrite decide_True.
    + by rewrite decide_False.
Qed.





(* ------------------------------------------------------------------ *)
(** ** C7: [removeEmployee] and the reports of the removed member       *)
(* ------------------------------------------------------------------ *)

Lemma valid_chart5 : valid chart5.
Proof. exists (Node 0 [Node 1 [Node 2 []; Node 3 []; Node 4 []]]). valid_tac. Qed.

(** C7, counterexample.  The claim lets [X] be any existing member.  When
    [X] is itself a direct report of the removed member, [addReport] makes
    [X] its own manager and raises [X.level] in the middle of the loop:
    the reports handled before [X] end at [X]'s level, not one below.
    And not every id that no member has is refused: under ["constructor"]
    [employees], a plain object, holds a function, which [removeEmployee]
    takes for the employee, and the call throws after its snapshot. *)
Lemma reassign_to_own_report :
  ~ (forall s m X ml xl s',
       valid s ->
       dict_get (employees s) m = Some ml -> root s <> Some ml ->
       dict_get (employees s) X = Some xl ->
       removeEmployee m (JString X) s = Some (true, s') ->
       forall r, r ∈ reports (mem s !!! ml) ->
                 managerId_of (mem s') r = Some X /\
                 level (mem s' !!! r) = level (mem s' !!! xl) + 1) /\
  dict_get (employees chart5) "constructor" = None /\
  removeEmployee "constructor" JNull chart5 = None.
Proof.
  split; [|split; reflexivity].
  intros Hclaim.
  destruct (removeEmployee "u1" (JString "u3") chart5) as [[b s']|] eqn:Hrun;
    [|vm_compute in Hrun; discriminate].
  assert (b = true) as -> by (vm_compute in Hrun; by injection Hrun as <- _).
  assert (dict_get (employees chart5) "u1" = Some 1) as H1 by (vm_compute; reflexivity).
  assert (dict_get (employees chart5) "u3" = Some 3) as H3 by (vm_compute; reflexivity).
  assert (root chart5 <> Some 1) as Hr by (vm_compute; discriminate).
  assert (2 ∈ reports (mem chart5 !!! 1)) as H2 by (vm_compute; elem_tac).
  destruct (Hclaim chart5 "u1" "u3" 1 3 s' valid_chart5 H1 Hr H3 Hrun 2 H2) as [_ Hlevel].
  vm_compute in Hrun. injection Hrun as <-. vm_compute in Hlevel. discriminate.
Qed.

(** C7, as amended.  On a valid chart, for a member [m] other than the
    root: with [reassignToId = X], [X] a member that is not itself a direct
    report of [m], every former direct report of [m] has manager [X] and
    level [X.level + 1], and [m] is gone from [employees]; with
    [reassignToId] omitted, [null], empty or a name under which
    [employees] holds nothing, own or inherited, every former direct
    report has no manager and [m] is gone.  Removing the root, or an id
    under which [employees] holds nothing, own or inherited, returns
    [false] and changes nothing. *)
Theorem removeEmployee_spec (s : OrgChart) :
  valid s ->
  (forall m X ml xl,
     dict_get (employees s) m = Some ml -> root s <> Some ml ->
     dict_get (employees s) X = Some xl ->
     xl ∉ reports (mem s !!! ml) ->
     exists s',
       removeEmployee m (JString X) s = Some (true, s') /\
       dict_get (employees s') m = None /\
       forall r, r ∈ reports (mem s !!! ml) ->
                 managerId_of (mem s') r = Some X /\
                 manager (mem s' !!! r) = Some xl /\
                 level (mem s' !!! r) = level (mem s' !!! xl) + 1) /\
  (forall m ml v,
     dict_get (employees s) m = Some ml -> root s <> Some ml ->
     match v with
     | JString X => X = "" \/ unknown_id s X
     | JUndefined | JNull => True
     end ->
     exists s',
       removeEmployee m v s = Some (true, s') /\
       dict_get (employees s') m = None /\
       forall r, r ∈ reports (mem s !!! ml) -> managerId_of (mem s') r = None) /\
  (forall m v r,
     root s = Some r -> id (mem s !!! r) = m -> removeEmployee m v s = Some (false, s)) /\
  (forall m v,
     unknown_id s m -> removeEmployee m v s = Some (false, s)).
Proof.
  intros [t Hv]. split; [|split; [|split]].
  - intros m X ml xl Hm Hroot HX Hnot.
    pose proof (proj1 (dict_ok_get _ _ _ _ _ (valid_dict _ _ Hv)) Hm) as [Hml Hidm].
    pose proof (proj1 (dict_ok_get _ _ _ _ _ (valid_dict _ _ Hv)) HX) as [Hxl Hidx].
    assert (X <> "") as HXne by (rewrite <- Hidx; by apply (valid_ids _ _ Hv)).
    assert (xl < length (mem s)) as Hxb
      by (eapply links_ok_bound; [apply (valid_links _ _ Hv)|done]).
    destruct (reassign_loop xl (reports (mem s !!! ml)) (mem s) Hxb
                (reports_in_bounds s t ml Hv Hml) Hnot) as (Hlen & Hin & Hx & Hout).
    set (hk := fold_left (fun h r => addReport xl r h) (reports (mem s !!! ml)) (mem s)) in *.
    destruct (detach_fields ml hk) as (Hlend & Hdet).
    eexists. split; [|split].
    + unfold removeEmployee.
      rewrite (remove_root_check s t m ml Hv Hm).
      rewrite bool_decide_false by (rewrite (valid_root _ _ Hv) in Hroot; congruence).
      rewrite (employees_get_Found s m ml Hm), (valid_pushState s t Hv).
      unfold truthy. rewrite bool_decide_false by done. simpl negb. cbn iota.
      simpl to_key. rewrite (employees_get_ext s _ X) by done.
      rewrite (employees_get_Found s X xl HX).
      cbn [mem set_future set_history employees]. fold hk. reflexivity.
    + simpl. apply dict_get_delete. rewrite <- Hidm. by apply (valid_own _ _ Hv).
    + intros r Hr. simpl.
      assert (manager (detach ml hk !!! r) = Some xl) as Hmr.
      { destruct (Hdet r) as (_ & -> & _). rewrite (Hin r Hr). by destruct (mem s !!! r). }
      split; [|split; [done|]].
      * unfold managerId_of. rewrite Hmr. simpl.
        destruct (Hdet xl) as (-> & _). rewrite Hx. simpl. by rewrite Hidx.
      * destruct (Hdet r) as (_ & _ & ->). destruct (Hdet xl) as (_ & _ & ->).
        rewrite (Hin r Hr), Hx. simpl. by destruct (mem s !!! xl).
  - intros m ml v Hm Hroot Hno.
    pose proof (proj1 (dict_ok_get _ _ _ _ _ (valid_dict _ _ Hv)) Hm) as [Hml Hidm].
    assert ((if truthy v then employees_get s (to_key v) else Falsy) = Falsy) as Hnew.
    { destruct v as [| |X]; [done|done|]. simpl.
      destruct Hno as [->|Hun]; [done|].
      rewrite (proj2 (employees_get_valid_Falsy s t X Hv) Hun). by destruct (negb _). }
    destruct (orphan_loop (reports (mem s !!! ml)) (mem s)
                (reports_in_bounds s t ml Hv Hml)) as (Hlen & Hin & Hsame).
    set (hk := fold_left (fun h r => update r (set_manager None) h)
                         (reports (mem s !!! ml)) (mem s)) in *.
    destruct (detach_fields ml hk) as (Hlend & Hdet).
    eexists. split; [|split].
    + unfold removeEmployee.
      rewrite (remove_root_check s t m ml Hv Hm).
      rewrite bool_decide_false by (rewrite (valid_root _ _ Hv) in Hroot; congruence).
      rewrite (employees_get_Found s m ml Hm), (valid_pushState s t Hv).
      assert (forall s1, mem s1 = mem s -> employees s1 = employees s ->
                (if truthy v then employees_get s1 (to_key v) else Falsy) = Falsy) as Hnew1.
      { intros s1 H1 H2. rewrite (employees_get_ext s s1) by done. exact Hnew. }
      rewrite Hnew1 by done.
      cbn [mem set_future set_history employees]. fold hk. reflexivity.
    + simpl. apply dict_get_delete. rewrite <- Hidm. by apply (valid_own _ _ Hv).
    + intros r Hr. simpl. unfold managerId_of.
      destruct (Hdet r) as (_ & -> & _). by rewrite (Hin r Hr).
  - intros m v r Hr Hid. unfold removeEmployee. rewrite Hr.
    by rewrite bool_decide_true.
  - intros m v Hm. apply removeEmployee_fail_unknown.
    by apply (employees_get_valid_Falsy s t m Hv).
Qed.

Lemma removeEmployee_spec_witness :
  valid chart5 /\
  (exists s',
     removeEmployee "u1" (JString "u0") chart5 = Some (true, s') /\
     dict_get (employees s') "u1" = None /\
     forall r, r ∈ reports (mem chart5 !!! 1) ->
               managerId_of (mem s') r = Some "u0" /\
               manager (mem s' !!! r) = Some 0 /\
               level (mem s' !!! r) = level (mem s' !!! 0) + 1) /\
  (exists s',
     removeEmployee "u1" (JString "u9") chart5 = Some (true, s') /\
     dict_get (employees s') "u1" = None /\
     forall r, r ∈ reports (mem chart5 !!! 1) -> managerId_of (mem s') r = None) /\
  removeEmployee "u9" (JString "u0") chart5 = Some (false, chart5).
Proof.
  split; [exact valid_chart5|].
  assert (dict_get (employees chart5) "u1" = Some 1) as H1 by (vm_compute; reflexivity).
  assert (dict_get (employees chart5) "u0" = Some 0) as H0 by (vm_compute; reflexivity).
  assert (root chart5 <> Some 1) as Hr by (vm_compute; discriminate).
  assert (0 ∉ reports (mem chart5 !!! 1)) as Hn.
  { vm_compute. intros H.
    repeat (apply elem_of_cons in H as [H|H]; [discriminate H|]). inversion H. }
  assert (unknown_id chart5 "u9") as Hu by (split; [reflexivity|decide_tac]).
  destruct (removeEmployee_spec chart5 valid_chart5) as (Ha & Hb & _ & Hd).
  split; [exact (Ha "u1" "u0" 1 0 H1 Hr H0 Hn)|].
  split; [exact (Hb "u1" 1 (JString "u9") H1 Hr (or_intror Hu))|].
  exact (Hd "u9" (JString "u0") Hu).
Defined.

(* ------------------------------------------------------------------ *)
(** ** Undo and redo                                                    *)
(* ------------------------------------------------------------------ *)

Lemma pop_snoc {A} (l : list A) x : pop (l ++ [x]) = Some (x, l).
Proof. unfold pop. by rewrite last_snoc, removelast_last. Qed.

(** [undo] with at least two snapshots: the top one goes to [future], the
    one below is loaded. *)
Lemma undo_two s l p c :
  history s = l ++ [p; c] ->
  undo s = (true, _loadSnapshot p (set_future (future s ++ [c]) (set_history (l ++ [p]) s))).
Proof.
  intros Hh. unfold undo. rewrite Hh.
  replace (l ++ [p; c]) with ((l ++ [p]) ++ [c]) by (by rewrite <- (assoc (++))).
  rewrite length_app, length_app. simpl length.
  replace (length l + 1 + 1 <? 2) with false by (symmetry; apply Nat.ltb_ge; lia).
  rewrite pop_snoc. cbn [history set_future set_history]. by rewrite last_snoc.
Qed.

Lemma redo_one s l c :
  future s = l ++ [c] ->
  redo s = (true, _loadSnapshot c (set_history (history s ++ [c]) (set_future l s))).
Proof.
  intros Hf. unfold redo. rewrite Hf, length_app. simpl length.
  replace (length l + 1 =? 0) with false by (symmetry; apply Nat.eqb_neq; lia).
  by rewrite pop_snoc.
Qed.

Lemma redo_nothing s : future s = [] -> redo s = (false, s).
Proof. intros Hf. unfold redo. by rewrite Hf. Qed.

(** Every mutation that goes through appends one snapshot and empties
    [future]; they all do it through [pushState]. *)
Lemma pushState_history s s1 :
  pushState s = Some s1 ->
  exists snap, _serializeOrg s = Some snap /\
               s1 = set_future [] (set_history (history s ++ [snap]) s).
Proof.
  unfold pushState. destruct (_serializeOrg s) as [snap|]; [|done].
  intros [= <-]. eauto.
Qed.

Lemma outcome_history o s s1 :
  outcome o s = Some (true, s1) ->
  exists snap, history s1 = history s ++ [snap] /\ future s1 = [].
Proof.
  destruct o; simpl.
  - unfold setRoot. destruct (pushState _) as [s'|] eqn:Hp; [|done].
    intros [= <-]. apply pushState_history in Hp as (snap & _ & ->). simpl. eauto.
  - unfold addEmployee. destruct (root s); [|intros H; cbv in H; discriminate].
    destruct (pushState s) as [s'|] eqn:Hp; [|done].
    apply pushState_history in Hp as (snap & _ & ->).
    destruct (employees_get _ _); cbn [fmap option_fmap option_map fst snd];
      intros [= <-]; simpl; eauto.
  - unfold editEmployee. destruct (employees_get _ _) as [a|b|]; [| |by intros [=]].
    + destruct (pushState s) as [s'|] eqn:Hp; [|done].
      intros [= <-]. apply pushState_history in Hp as (snap & _ & ->). simpl. eauto.
    + destruct (pushState s) as [s'|] eqn:Hp; [|done].
      destruct (assigns_to_builtin _ _); [|done].
      intros [= <-]. apply pushState_history in Hp as (snap & _ & ->). simpl. eauto.
  - unfold removeEmployee. destruct (match root s with Some r => bool_decide (id (mem s !!! r) = employeeId) | None => false end); [by intros [=]|].
    destruct (employees_get _ _); [|done|by intros [=]].
    destruct (pushState s) as [s'|] eqn:Hp; [|done].
    apply pushState_history in Hp as (snap & _ & ->).
    destruct (match (if truthy newManagerId then _ else _) with Found _ => _ | _ => _ end);
      [|done].
    intros [= <-]. simpl. eauto.
  - unfold moveSubtree.
    destruct (employees_get s employeeId) as [a|b|], (employees_get s newManagerId) as [a'|b'|];
      try (by intros [=]).
    + destruct (bool_decide _); [by intros [=]|].
      destruct (bool_decide _); [by intros [=]|].
      destruct (_isDescendant _ _ _ _) as [[]|]; [by intros [=]| |done].
      destruct (pushState s) as [s'|] eqn:Hp; [|done].
      destruct (_updateLevels _ _ _ _); [|done].
      intros [= <-]. apply pushState_history in Hp as (snap & _ & ->). simpl. eauto.
    + destruct (bool_decide _); by intros [=].
Qed.


(* ------------------------------------------------------------------ *)
(** ** C2: undo and redo around one mutation                            *)
(* ------------------------------------------------------------------ *)

(** C2, the code at a failing input.  [chart2] was built by [setRoot] and
    one [addEmployee]; a second [addEmployee] is then undone and redone.
    Each mutation pushes its snapshot before it changes the chart, so the
    top of [history] is the state before the last mutation: [undo] drops
    it and loads the one below, the chart of the root alone, and [redo]
    loads the dropped snapshot, the chart before the second
    [addEmployee].  The last part of the claim does hold: a mutation that
    goes through leaves [future] empty, so [redo] after it returns
    [false]. *)
Theorem undo_redo_miss_last_state :
  exists s2 s3 s4,
    apply_op add_cy chart2 = Some s2 /\
    undo s2 = (true, s3) /\
    redo s3 = (true, s4) /\
    _serializeOrg s3 = _serializeOrg ceo_chart /\
    _serializeOrg s3 <> _serializeOrg chart2 /\
    _serializeOrg s4 = _serializeOrg chart2 /\
    _serializeOrg s4 <> _serializeOrg s2 /\
    redo s4 = (false, s4) /\
    forall o s s1, outcome o s = Some (true, s1) -> redo s1 = (false, s1).
Proof.
  destruct (apply_op add_cy chart2) as [s2|] eqn:H2; [|vm_compute in H2; discriminate].
  destruct (undo s2) as [b3 s3] eqn:H3. destruct (redo s3) as [b4 s4] eqn:H4.
  vm_compute in H2. injection H2 as <-.
  vm_compute in H3. injection H3 as <- <-.
  vm_compute in H4. injection H4 as <- <-.
  eexists _, _, _. split; [reflexivity|]. split; [reflexivity|]. split; [reflexivity|].
  split; [vm_compute; reflexivity|]. split; [vm_compute; discriminate|].
  split; [vm_compute; reflexivity|]. split; [vm_compute; discriminate|].
  split; [vm_compute; reflexivity|].
  intros o s s1 Ho. apply redo_nothing.
  by apply outcome_history in Ho as (snap & _ & Hf).
Qed.

(** ** Rebuilding a chart from a document *)

Lemma shape_of_doc_unfold b i n t lo dv de em lv rs :
  shape_of_doc b (PNode i n t lo dv de em lv rs) = Node b (shapes_from (S b) rs).
Proof.
  simpl. f_equal.
Qed.

Lemma top_shape_of_doc b d : top (shape_of_doc b d) = b.
Proof. by destruct d. Qed.

Lemma psize_ids d : length (doc_ids d) = psize d.
Proof.
  induction d as [i n t lo dv de em lv rs IH] using portable_ind'. simpl. f_equal.
  induction IH as [|r rs Hr _ IHrs]; [done|].
  rewrite bind_cons, length_app, fmap_cons. simpl. lia.
Qed.

Lemma locs_shape_of_doc d : forall b, locs (shape_of_doc b d) = seq b (psize d).
Proof.
  induction d as [i n t lo dv de em lv rs IH] using portable_ind'. intros b.
  rewrite shape_of_doc_unfold. simpl. f_equal. generalize (S b).
  induction IH as [|r rs Hr _ IHrs]; intros c; [done|].
  simpl shapes_from. rewrite bind_cons, fmap_cons. simpl sum_list.
  rewrite seq_app, Hr, IHrs. done.
Qed.

Lemma locs_shapes_from rs : forall b,
  shapes_from b rs ≫= locs = seq b (sum_list (psize <$> rs)).
Proof.
  induction rs as [|r rs IH]; intros b; [done|].
  simpl shapes_from. rewrite bind_cons, fmap_cons. simpl sum_list.
  by rewrite seq_app, locs_shape_of_doc, IH.
Qed.

Lemma doc_of_agree h h' t :
  (forall x, x ∈ locs t -> h' !!! x = h !!! x) -> doc_of h' t = doc_of h t.
Proof.
  induction t as [l cs IH] using shape_ind'. intros Hag. simpl.
  rewrite (Hag l) by apply list_elem_of_here. f_equal.
  apply Forall_fmap_ext. rewrite Forall_forall in IH. apply Forall_forall.
  intros c Hc. apply IH; [done|]. intros x Hx. apply Hag. by eapply locs_child.
Qed.

Lemma register_app ids1 ids2 : forall (d : list (string * nat)) l,
  register d (ids1 ++ ids2) l = register (register d ids1 l) ids2 (l + length ids1).
Proof.
  induction ids1 as [|i ids1 IH]; intros d l; simpl.
  - by rewrite Nat.add_0_r.
  - rewrite IH. f_equal. lia.
Qed.

Lemma recreate_children_spec rs parent :
  Forall (fun r => forall mgr s, (forall m, mgr = Some m -> m < length (mem s)) ->
                     recreated r mgr s (_recreateFromJSON r mgr s).1) rs ->
  forall s, parent < length (mem s) ->
  recreated_children rs parent s (recreate_children rs parent s).
Proof.
  induction 1 as [|r rs Hr _ IH]; intros s Hp.
  - split; simpl; [lia|done| |constructor|done..].
    rewrite app_nil_r. by destruct (mem s !!! parent).
  - unfold recreate_children. simpl fold_left.
    set (s1 := (_recreateFromJSON r (Some parent) s).1).
    assert (recreated r (Some parent) s s1) as [H1len H1old H1mgr H1links H1doc H1emp H1root H1h H1f].
    { apply Hr. by intros m [= <-]. }
    assert (parent < length (mem s1)) as Hp1 by lia.
    destruct (IH s1 Hp1) as [Hlen Hold Hpar Hlinks Hdoc Hemp Hroot Hh Hf].
    fold (recreate_children rs parent s1).
    set (s' := recreate_children rs parent s1) in *.
    assert (forall x, x ∈ locs (shape_of_doc (length (mem s)) r) ->
                      mem s' !!! x = mem s1 !!! x) as Hkeep.
    { intros x Hx. rewrite locs_shape_of_doc in Hx. apply elem_of_seq in Hx.
      apply Hold; lia. }
    split.
    + rewrite Hlen, H1len, fmap_cons. simpl. lia.
    + intros x Hx Hxp. rewrite Hold by (done || lia). apply H1old; [done|congruence].
    + rewrite Hpar, (H1mgr parent) by done. simpl shapes_from. rewrite fmap_cons.
      rewrite top_shape_of_doc, H1len. destruct (mem s !!! parent). unfold set_reports. simpl.
      by rewrite <- (assoc (++)).
    + simpl shapes_from. constructor; [|by rewrite <- H1len].
      eapply links_ok_agree; [done|]. intros x Hx. rewrite (Hkeep x Hx). split; [|done].
      rewrite locs_shape_of_doc in Hx. apply elem_of_seq in Hx. lia.
    + simpl shapes_from. rewrite fmap_cons. rewrite <- H1len, Hdoc. f_equal.
      rewrite <- H1doc at 2. by apply doc_of_agree.
    + rewrite Hemp, H1emp, bind_cons, register_app, psize_ids. by rewrite H1len.
    + congruence.
    + congruence.
    + congruence.
Qed.

Lemma recreate_spec d :
  forall mgr s, (forall m, mgr = Some m -> m < length (mem s)) ->
  recreated d mgr s (_recreateFromJSON d mgr s).1.
Proof.
  induction d as [i n t lo dv de em lv rs IH] using portable_ind'. intros mgr s Hmgr.
  set (base := length (mem s)).
  set (e := set_level lv (set_id i (new_Employee (mem s) i n t lo dv de em mgr))).
  set (sc := match mgr with
             | None => set_root (Some base)
                         (set_employees (dict_set (employees s) i base) (set_mem (mem s ++ [e]) s))
             | Some m => set_mem (update m (set_reports (reports ((mem s ++ [e]) !!! m) ++ [base]))
                                         (mem s ++ [e]))
                           (set_employees (dict_set (employees s) i base) (set_mem (mem s ++ [e]) s))
             end).
  assert ((_recreateFromJSON (PNode i n t lo dv de em lv rs) mgr s).1 =
          recreate_children rs base sc) as ->.
  { unfold recreate_children. simpl. subst sc e base. by destruct mgr. }
  assert (length (mem sc) = S base) as Hlenc.
  { subst sc. destruct mgr; simpl; rewrite ?update_length, length_app; simpl; lia. }
  assert (mem sc !!! base = e) as Hbase.
  { subst sc. destruct mgr as [m|]; simpl.
    - specialize (Hmgr m eq_refl). rewrite update_ne by (subst base; lia). apply alloc_new.
    - apply alloc_new. }
  assert (forall x, x < base -> mgr <> Some x -> mem sc !!! x = mem s !!! x) as Holdc.
  { intros x Hx Hne. subst sc. destruct mgr as [m|]; simpl.
    - rewrite update_ne by congruence. by apply alloc_old.
    - by apply alloc_old. }
  assert (forall m, mgr = Some m -> m < base ->
            mem sc !!! m = set_reports (reports (mem s !!! m) ++ [base]) (mem s !!! m)) as Hmgrc.
  { intros m -> Hm. subst sc. simpl. rewrite update_eq by (rewrite length_app; simpl; lia).
    by rewrite alloc_old. }
  assert (employees sc = dict_set (employees s) i base) as Hempc by (subst sc; by destruct mgr).
  assert (root sc = match mgr with None => Some base | Some _ => root s end) as Hrootc
    by (subst sc; by destruct mgr).
  assert (history sc = history s /\ future sc = future s) as [Hhc Hfc]
    by (subst sc; by destruct mgr).
  destruct (recreate_children_spec rs base IH sc) as [Hlen Hold Hpar Hlinks Hdoc Hemp Hroot Hh Hf];
    [lia|].
  set (s' := recreate_children rs base sc) in *.
  rewrite Hlenc in Hpar, Hlinks, Hdoc, Hemp. rewrite Hbase in Hpar.
  split; fold base.
  - rewrite Hlen, Hlenc. simpl. lia.
  - intros x Hx Hne. rewrite Hold by lia. by apply Holdc.
  - intros m Hm Hlt. rewrite Hold by lia. by apply Hmgrc.
  - rewrite shape_of_doc_unfold. apply links_ok_inv. rewrite Hpar. split; [lia|]. by destruct mgr.
  - rewrite shape_of_doc_unfold. simpl. rewrite Hpar, Hdoc. by destruct mgr.
  - rewrite Hemp, Hempc. done.
  - congruence.
  - congruence.
  - congruence.
Qed.

(** ** Two store/shape pairs with the same document *)

Lemma doc_id_doc_of h t : doc_id (doc_of h t) = id (h !!! top t).
Proof. by destruct t. Qed.

Lemma doc_ids_doc_of h t : doc_ids (doc_of h t) = ids_of h (locs t).
Proof.
  induction t as [l cs IH] using shape_ind'.
  change (doc_ids (doc_of h (Node l cs))) with (id (h !!! l) :: ((doc_of h <$> cs) ≫= doc_ids)).
  change (locs (Node l cs)) with (l :: (cs ≫= locs)).
  unfold ids_of in *. rewrite fmap_cons. f_equal.
  induction IH as [|c cs Hc _ IHcs]; [done|].
  by rewrite fmap_cons, !bind_cons, fmap_app, Hc, IHcs.
Qed.

Lemma same_doc_levels h h' t : forall t' lvl,
  doc_of h' t' = doc_of h t -> levels_ok h lvl t -> levels_ok h' lvl t'.
Proof.
  induction t as [l cs IH] using shape_ind'. intros [l' cs'] lvl Hdoc Hlv.
  apply levels_ok_inv in Hlv as (Hl & Hcs). simpl in Hdoc.
  injection Hdoc as _ _ _ _ _ _ _ Hlevel Hkids.
  apply levels_ok_inv. split; [congruence|].
  clear Hl Hlevel. revert cs' Hkids.
  induction cs as [|c cs IHcs]; intros [|c' cs'] Hkids; try done; try (by constructor).
  rewrite !fmap_cons in Hkids. injection Hkids as Hc Hrest.
  apply Forall_cons in IH as [IHc IH]. apply Forall_cons in Hcs as [Hlc Hlcs].
  constructor; [by apply IHc|by apply IHcs].
Qed.

Lemma same_doc_views h h' t : forall t' p p',
  links_ok h p t -> links_ok h' p' t' ->
  doc_of h' t' = doc_of h t ->
  (fun m => id (h' !!! m)) <$> p' = (fun m => id (h !!! m)) <$> p ->
  Forall2 (fun l l' => id (h' !!! l') = id (h !!! l) /\ node_view h' l' = node_view h l)
          (locs t) (locs t').
Proof.
  induction t as [l cs IH] using shape_ind'. intros [l' cs'] p p' Hok Hok' Hdoc Hp.
  apply links_ok_inv in Hok as (Hl & Hm & Hr & Hcs).
  apply links_ok_inv in Hok' as (Hl' & Hm' & Hr' & Hcs').
  simpl in Hdoc. injection Hdoc as Hid Hn Ht Hlo Hdv Hde Hem Hlv Hkids.
  assert (ids_of h' (top <$> cs') = ids_of h (top <$> cs)) as Htops.
  { unfold ids_of. rewrite <- !list_fmap_compose.
    apply (f_equal (fmap doc_id)) in Hkids. rewrite <- !list_fmap_compose in Hkids.
    erewrite (list_fmap_ext _ (doc_id ∘ doc_of h') cs');
      [|intros; simpl; by rewrite doc_id_doc_of].
    erewrite (list_fmap_ext _ (doc_id ∘ doc_of h) cs);
      [|intros; simpl; by rewrite doc_id_doc_of].
    done. }
  simpl. constructor.
  - split; [done|]. unfold node_view, managerId_of. rewrite Hm, Hm', Hr, Hr'.
    unfold ids_of in Htops. by rewrite Hn, Ht, Hlo, Hdv, Hde, Hem, Hlv, Hp, Htops.
  - clear Hr Hr' Htops. revert cs' Hkids Hcs'.
    induction cs as [|c cs IHcs]; intros [|c' cs'] Hkids Hcs'; try done; try (by constructor).
    rewrite !fmap_cons in Hkids. injection Hkids as Hc Hrest.
    apply Forall_cons in IH as [IHc IH]. apply Forall_cons in Hcs as [Hlc Hlcs].
    apply Forall_cons in Hcs' as [Hlc' Hlcs'].
    rewrite !bind_cons. apply Forall2_app.
    + eapply IHc; [done|done|done|]. simpl. by rewrite Hid.
    + by apply IHcs.
Qed.

Lemma zip_graph {A B} (f : A -> B) (ls : list A) b a :
  (b, a) ∈ zip (f <$> ls) ls <-> a ∈ ls /\ f a = b.
Proof.
  induction ls as [|x ls IH]; simpl.
  - split; [by intros ?%elem_of_nil|by intros [?%elem_of_nil _]].
  - rewrite !elem_of_cons, IH. split.
    + intros [[= -> ->]|[? ?]]; auto.
    + intros [[->|?] <-]; auto.
Qed.

Lemma register_fresh ids : forall (d : list (string * nat)) l,
  NoDup ids -> (forall i, i ∈ ids -> i ∉ d.*1) ->
  register d ids l = d ++ zip ids (seq l (length ids)).
Proof.
  induction ids as [|i ids IH]; intros d l Hnd Hfresh; simpl.
  - by rewrite app_nil_r.
  - apply NoDup_cons in Hnd as [Hi Hnd].
    rewrite dict_set_fresh by (apply Hfresh, list_elem_of_here).
    rewrite IH; [by rewrite <- (assoc (++))|done|].
    intros j Hj. rewrite fmap_app. rewrite not_elem_of_app. split.
    + apply Hfresh. by apply list_elem_of_further.
    + simpl. rewrite list_elem_of_singleton. intros ->. done.
Qed.

(** ** [_loadSnapshot] of the snapshot of a valid chart *)

Lemma valid_ids_NoDup s t : valid_tree s t -> NoDup (ids_of (mem s) (locs t)).
Proof.
  intros Hv. unfold ids_of. apply NoDup_fmap_2_strong; [|apply (valid_nodup _ _ Hv)].
  intros x y Hx Hy Hid. eapply dict_ok_inj; [apply (valid_dict _ _ Hv)|done..].
Qed.

Lemma loadSnapshot_valid s t s0 :
  valid_tree s t ->
  let doc := doc_of (mem s) t in
  let s' := _loadSnapshot doc s0 in
  let t' := shape_of_doc (length (mem s0)) doc in
  valid_tree s' t' /\
  doc_of (mem s') t' = doc /\
  history s' = history s0 /\ future s' = future s0 /\
  (forall x, x < length (mem s0) -> mem s' !!! x = mem s0 !!! x).
Proof.
  intros Hv doc s' t'.
  destruct (recreate_spec doc None (set_employees [] s0))
    as [Hlen Hold _ Hlinks Hdoc Hemp Hroot Hh Hf]; [done|].
  simpl in *. fold t' in Hlinks, Hdoc.
  change ((_recreateFromJSON doc None (set_employees [] s0)).1) with s' in *.
  assert (doc_ids doc = ids_of (mem s') (locs t')) as Hids'.
  { rewrite <- Hdoc at 1. apply doc_ids_doc_of. }
  assert (doc_ids doc = ids_of (mem s) (locs t)) as Hids by apply doc_ids_doc_of.
  assert (NoDup (doc_ids doc)) as Hnd by (rewrite Hids; by apply valid_ids_NoDup).
  assert (locs t' = seq (length (mem s0)) (psize doc)) as Hlocs by apply locs_shape_of_doc.
  assert (employees s' = zip (ids_of (mem s') (locs t')) (locs t')) as Hemp'.
  { rewrite Hemp, register_fresh; [|done|intros i _; apply not_elem_of_nil].
    simpl. by rewrite psize_ids, <- Hlocs, Hids'. }
  split; [|split; [done|split; [done|split; [done|]]]].
  - split.
    + rewrite Hroot. subst t'. by rewrite top_shape_of_doc.
    + done.
    + eapply same_doc_levels; [|apply (valid_levels _ _ Hv)]. done.
    + rewrite Hlocs. apply NoDup_seq.
    + rewrite Hemp'. split.
      * rewrite fst_zip; [by rewrite <- Hids'|]. unfold ids_of. by rewrite length_fmap.
      * intros i l. unfold ids_of. apply (zip_graph (fun r => id (mem s' !!! r))).
    + intros l Hl.
      assert (id (mem s' !!! l) ∈ ids_of (mem s) (locs t)) as Hin.
      { rewrite <- Hids, Hids'. unfold ids_of. apply list_elem_of_fmap. eauto. }
      unfold ids_of in Hin. apply list_elem_of_fmap in Hin as (x & -> & Hx).
      by apply (valid_ids _ _ Hv).
    + intros l Hl.
      assert (id (mem s' !!! l) ∈ ids_of (mem s) (locs t)) as Hin.
      { rewrite <- Hids, Hids'. unfold ids_of. apply list_elem_of_fmap. eauto. }
      unfold ids_of in Hin. apply list_elem_of_fmap in Hin as (x & -> & Hx).
      by apply (valid_own _ _ Hv).
  - intros x Hx. by apply Hold.
Qed.

Lemma same_doc_view_eq s t s' t' :
  valid_tree s t -> valid_tree s' t' ->
  doc_of (mem s') t' = doc_of (mem s) t ->
  forall i, view s' i = view s i.
Proof.
  intros Hv Hv' Hdoc i.
  pose proof (same_doc_views (mem s) (mem s') t t' None None
                (valid_links _ _ Hv) (valid_links _ _ Hv') Hdoc eq_refl) as Hall.
  unfold view. change (fun l => _) with (node_view (mem s')) at 1.
  destruct (dict_get (employees s) i) as [l|] eqn:Hl.
  - apply (dict_ok_get _ _ _ _ _ (valid_dict _ _ Hv)) in Hl as [Hl Hid].
    apply list_elem_of_lookup in Hl as [k Hk].
    destruct (Forall2_lookup_l _ _ _ _ _ Hall Hk) as (l' & Hk' & Hid' & Hview).
    assert (dict_get (employees s') i = Some l') as ->.
    { apply (dict_ok_get _ _ _ _ _ (valid_dict _ _ Hv')). split; [|congruence].
      by eapply list_elem_of_lookup_2. }
    simpl. f_equal. exact Hview.
  - destruct (dict_get (employees s') i) as [l'|] eqn:Hl'; [|done].
    apply (dict_ok_get _ _ _ _ _ (valid_dict _ _ Hv')) in Hl' as [Hl' Hid'].
    apply list_elem_of_lookup in Hl' as [k Hk'].
    destruct (Forall2_lookup_r _ _ _ _ _ Hall Hk') as (l & Hk & Hid & _).
    assert (dict_get (employees s) i = Some l) as Hget; [|congruence].
    apply (dict_ok_get _ _ _ _ _ (valid_dict _ _ Hv)). split; [|congruence].
    by eapply list_elem_of_lookup_2.
Qed.

(** Exporting the chart a document was loaded into gives the document. *)
Lemma loadSnapshot_export (doc : portable) (s0 : OrgChart) :
  _prepareForExport (_loadSnapshot doc s0) = Some doc /\
  history (_loadSnapshot doc s0) = history s0 /\
  future (_loadSnapshot doc s0) = future s0.
Proof.
  destruct (recreate_spec doc None (set_employees [] s0))
    as [Hlen Hold _ Hlinks Hdoc Hemp Hroot Hh Hf]; [done|].
  simpl in *. change ((_recreateFromJSON doc None (set_employees [] s0)).1)
    with (_loadSnapshot doc s0) in *.
  split; [|by split].
  unfold _prepareForExport. rewrite Hroot.
  rewrite <- (top_shape_of_doc (length (mem s0)) doc) at 1.
  rewrite (serializeNode_spec _ _ _ _ Hlinks); [by rewrite Hdoc|].
  unfold recursion_limit.
  assert (NoDup (locs (shape_of_doc (length (mem s0)) doc))) as Hnd.
  { rewrite locs_shape_of_doc. apply NoDup_seq. }
  pose proof (height_le_heap _ _ _ Hlinks Hnd). lia.
Qed.

(* ------------------------------------------------------------------ *)
(** ** C4: serialization round trip                                     *)
(* ------------------------------------------------------------------ *)

(** C4.  Loading the document [_prepareForExport] makes of a valid chart,
    into any chart [s0], gives a valid chart with the same document, the
    same root id and, for every id, the same member: the same six text
    fields, manager id, ids of the direct reports in order, and level (no
    member on either side when the id is unknown). *)
Theorem serialization_round_trip (s s0 : OrgChart) :
  valid s ->
  exists doc,
    _prepareForExport s = Some doc /\
    let s' := _loadSnapshot doc s0 in
    valid s' /\
    _prepareForExport s' = Some doc /\
    (fun r => id (mem s' !!! r)) <$> root s' = (fun r => id (mem s !!! r)) <$> root s /\
    forall i, view s' i = view s i.
Proof.
  intros [t Hv]. exists (doc_of (mem s) t).
  split; [by apply valid_prepareForExport|].
  destruct (loadSnapshot_valid s t s0 Hv) as (Hv' & Hdoc & _).
  cbv zeta. split; [by eexists|]. split; [|split].
  - rewrite <- Hdoc at 2. by apply valid_prepareForExport.
  - rewrite (valid_root _ _ Hv), (valid_root _ _ Hv'). simpl. f_equal.
    rewrite <- !doc_id_doc_of. by rewrite Hdoc.
  - by eapply same_doc_view_eq.
Qed.

Lemma serialization_round_trip_witness :
  valid chart3 /\
  exists doc,
    _prepareForExport chart3 = Some doc /\
    let s' := _loadSnapshot doc new_OrgChart in
    valid s' /\
    _prepareForExport s' = Some doc /\
    (fun r => id (mem s' !!! r)) <$> root s' = (fun r => id (mem chart3 !!! r)) <$> root chart3 /\
    forall i, view s' i = view chart3 i.
Proof.
  split; [exact valid_chart3|].
  exact (serialization_round_trip chart3 new_OrgChart valid_chart3).
Defined.

(* ------------------------------------------------------------------ *)
(** ** C9: the cycle guard after a reload                               *)
(* ------------------------------------------------------------------ *)

(** C9.  Let [s'] be a chart rebuilt by [_loadSnapshot] from the snapshot
    of a valid chart.  Its members are objects created by the reload
    (their locations lie past the store [s0] had).  For members [A] and
    [B] of [s'] with [B] a descendant of [A], [moveSubtree(A, B)] returns
    [false] and changes nothing, and [_isDescendant] answers [true] for
    every candidate object that carries the id of [B], whichever object of
    the store it is. *)
Theorem cycle_guard_after_reload (s s0 : OrgChart) (doc : portable)
    (A B : string) (a b : loc) :
  valid s ->
  _prepareForExport s = Some doc ->
  let s' := _loadSnapshot doc s0 in
  dict_get (employees s') A = Some a ->
  dict_get (employees s') B = Some b ->
  descendant (mem s') a b ->
  moveSubtree A B s' = Some (false, s') /\
  length (mem s0) <= a /\ length (mem s0) <= b /\
  forall c, id (mem s' !!! c) = id (mem s' !!! b) ->
            _isDescendant (recursion_limit (mem s')) (mem s') a c = Some true.
Proof.
  intros [t Hv] Hexp s' HA HB Hd.
  rewrite (valid_prepareForExport s t Hv) in Hexp. injection Hexp as <-.
  destruct (loadSnapshot_valid s t s0 Hv) as (Hv' & Hdoc & _).
  fold s' in Hv', Hdoc.
  set (t' := shape_of_doc (length (mem s0)) (doc_of (mem s) t)) in *.
  pose proof (proj1 (dict_ok_get _ _ _ _ _ (valid_dict _ _ Hv')) HA) as [Ha HidA].
  pose proof (proj1 (dict_ok_get _ _ _ _ _ (valid_dict _ _ Hv')) HB) as [Hb HidB].
  assert (forall x, x ∈ locs t' -> length (mem s0) <= x) as Hfresh.
  { intros x Hx. subst t'. rewrite locs_shape_of_doc in Hx. apply elem_of_seq in Hx. lia. }
  split; [|split; [by apply Hfresh|split; [by apply Hfresh|]]].
  - apply (moveSubtree_rejects s' A B a b (ex_intro _ t' Hv') HA HB). by right.
  - intros c Hc.
    destruct (subtree_at_Some a t' Ha) as [u Hu].
    pose proof (subtree_at_top _ _ _ Hu) as Htu.
    pose proof (subtree_links _ _ _ _ _ (valid_links _ _ Hv') Hu) as Hul.
    rewrite <- Htu. rewrite (isDescendant_spec _ _ _ u c Hul).
    + rewrite bool_decide_true; [done|]. rewrite Hc. unfold ids_of.
      apply list_elem_of_fmap. exists b. split; [done|].
      rewrite <- Htu in Hd. by apply (descendant_below _ _ _ _ Hul).
    + unfold recursion_limit.
      pose proof (height_le_heap _ _ _ Hul (subtree_NoDup _ _ _ (valid_nodup _ _ Hv') Hu)). lia.
Qed.

(** The witness reloads [chart3] into itself, as [undo] does: the members
    [u0] and [u2] are now the objects at 4 and 6, and the guard also
    answers [true] for the object at 2, the [u2] of before the reload. *)
Lemma cycle_guard_after_reload_witness :
  valid chart3 /\
  _prepareForExport chart3 = Some chart3_snapshot /\
  let s' := _loadSnapshot chart3_snapshot chart3 in
  dict_get (employees s') "u0" = Some 4 /\
  dict_get (employees s') "u2" = Some 6 /\
  descendant (mem s') 4 6 /\
  (moveSubtree "u0" "u2" s' = Some (false, s') /\
   length (mem chart3) <= 4 /\ length (mem chart3) <= 6 /\
   forall c, id (mem s' !!! c) = id (mem s' !!! 6) ->
             _isDescendant (recursion_limit (mem s')) (mem s') 4 c = Some true) /\
  id (mem s' !!! 2) = id (mem s' !!! 6).
Proof.
  assert (_prepareForExport chart3 = Some chart3_snapshot) as Hexp by (vm_compute; reflexivity).
  assert (dict_get (employees (_loadSnapshot chart3_snapshot chart3)) "u0" = Some 4) as HA
    by (vm_compute; reflexivity).
  assert (dict_get (employees (_loadSnapshot chart3_snapshot chart3)) "u2" = Some 6) as HB
    by (vm_compute; reflexivity).
  assert (descendant (mem (_loadSnapshot chart3_snapshot chart3)) 4 6) as Hd.
  { eapply (desc_step _ 4 5); [vm_compute; elem_tac|].
    apply desc_report. vm_compute. elem_tac. }
  split; [exact valid_chart3|]. split; [exact Hexp|].
  cbv zeta. split; [exact HA|]. split; [exact HB|]. split; [exact Hd|].
  split; [|vm_compute; reflexivity].
  exact (cycle_guard_after_reload chart3 chart3 chart3_snapshot "u0" "u2" 4 6
           valid_chart3 Hexp HA HB Hd).
Defined.

(* ------------------------------------------------------------------ *)
(** ** C10: a failed mutation                                           *)
(* ------------------------------------------------------------------ *)




(** ** One step of the CSV import *)

Lemma addEmployee_added uuid name title managerId lob division dept email s t :
  valid_tree s t ->
  ~ builtin_name s (to_key managerId) ->
  addEmployee uuid name title managerId lob division dept email s =
  Some (Some (length (mem s)),
        added uuid name title lob division dept email
              (resolve_manager managerId s (top t)) (doc_of (mem s) t) s).
Proof. intros Hv Hnb. by rewrite (addEmployee_eq _ _ _ _ _ _ _ _ s t Hv Hnb). Qed.

Lemma added_valid uuid name title lob division dept email s t m snap :
  valid_tree s t -> m ∈ locs t ->
  uuid <> "" -> uuid <> "__proto__" -> dict_get (employees s) uuid = None ->
  valid_tree (added uuid name title lob division dept email m snap s)
             (graft m [Node (length (mem s)) []] t).
Proof. intros. by apply valid_added. Qed.

Lemma find_none_iff {A} (p : A -> bool) (l : list A) :
  find p l = None <-> forall x, x ∈ l -> p x = false.
Proof.
  induction l as [|x l IH]; simpl.
  - split; [by intros _ x ?%elem_of_nil|done].
  - destruct (p x) eqn:Hpx.
    + split; [done|]. intros H. rewrite (H x) in Hpx by apply list_elem_of_here. done.
    + rewrite IH. split.
      * intros H y [->|Hy]%elem_of_cons; auto.
      * intros H y Hy. apply H. by apply list_elem_of_further.
Qed.

(** When one element alone passes the test, [find] returns it wherever it
    stands. *)
Lemma find_only {A} (p : A -> bool) (l : list A) x :
  x ∈ l -> p x = true -> (forall y, y ∈ l -> p y = true -> y = x) -> find p l = Some x.
Proof.
  intros Hx Hpx Honly. destruct (find p l) as [y|] eqn:Hf.
  - apply find_some in Hf as [Hy Hpy]. apply list_elem_of_In in Hy.
    f_equal. by apply Honly.
  - rewrite find_none_iff in Hf. rewrite (Hf x Hx) in Hpx. done.
Qed.

Lemma added_name uuid n title lob division dept email m snap s x :
  x < length (mem s) ->
  name (mem (added uuid n title lob division dept email m snap s) !!! x) =
  name (mem s !!! x).
Proof.
  intros Hx. simpl. fold (mem_added (mem s) m
    (mkEmployee uuid n title lob division dept email (Some m) [] (level (mem s !!! m) + 1))).
  destruct (decide (x = m)) as [->|Hne].
  - by rewrite mem_added_manager.
  - by rewrite mem_added_other.
Qed.

Lemma added_new_name uuid n title lob division dept email m snap s :
  m < length (mem s) ->
  name (mem (added uuid n title lob division dept email m snap s) !!! length (mem s)) = n.
Proof.
  intros Hm. simpl. fold (mem_added (mem s) m
    (mkEmployee uuid n title lob division dept email (Some m) [] (level (mem s !!! m) + 1))).
  by rewrite mem_added_new.
Qed.

(** The members after [addEmployee]: those of before and the new one. *)
Lemma member_added uuid n title lob division dept email m snap s t l :
  valid_tree s t -> m ∈ locs t ->
  uuid <> "" -> uuid <> "__proto__" -> dict_get (employees s) uuid = None ->
  member (added uuid n title lob division dept email m snap s) l <->
  member s l \/ l = length (mem s).
Proof.
  intros Hv Hm Hu Hup Hfresh.
  pose proof (added_valid uuid n title lob division dept email s t m snap Hv Hm Hu Hup Hfresh)
    as Hv'.
  rewrite (valid_member _ _ l Hv'), (valid_member _ _ l Hv).
  rewrite locs_graft by (done || apply (valid_nodup _ _ Hv)).
  rewrite elem_of_app. simpl. by rewrite list_elem_of_singleton.
Qed.

(** Nobody is called [nm], in any letter case. *)
Lemma find_by_name_None fold nm s :
  find_by_name fold nm s = None <->
  forall l, member s l -> toLowerCase fold (name (mem s !!! l)) <> toLowerCase fold nm.
Proof.
  unfold find_by_name. rewrite find_none_iff. unfold member.
  split; intros H l Hl; specialize (H l Hl).
  - by apply bool_decide_eq_false in H.
  - by apply bool_decide_eq_false.
Qed.

Lemma find_by_name_Some fold nm s l :
  find_by_name fold nm s = Some l ->
  member s l /\ toLowerCase fold (name (mem s !!! l)) = toLowerCase fold nm.
Proof.
  unfold find_by_name. intros [Hin Hp]%find_some. apply list_elem_of_In in Hin.
  split; [done|]. by apply bool_decide_eq_true in Hp.
Qed.

(** After [addEmployee], with nobody called [nm] before: the new employee
    is found if it is called [nm], nobody otherwise. *)
Lemma find_by_name_added fold nm uuid n title lob division dept email m snap s t :
  valid_tree s t -> m ∈ locs t ->
  uuid <> "" -> uuid <> "__proto__" -> dict_get (employees s) uuid = None ->
  find_by_name fold nm s = None ->
  find_by_name fold nm (added uuid n title lob division dept email m snap s) =
  if bool_decide (toLowerCase fold n = toLowerCase fold nm)
  then Some (length (mem s)) else None.
Proof.
  intros Hv Hm Hu Hup Hfresh Hnone.
  assert (m < length (mem s)) as Hmb
    by (eapply links_ok_bound; [apply (valid_links _ _ Hv)|done]).
  assert (forall x, member s x -> x < length (mem s)) as Hbound.
  { intros x Hx. eapply links_ok_bound; [apply (valid_links _ _ Hv)|].
    by apply (valid_member s t). }
  rewrite find_by_name_None in Hnone.
  set (s' := added uuid n title lob division dept email m snap s).
  assert (forall l, member s' l <-> member s l \/ l = length (mem s)) as Hmem
    by (intros l; by apply (member_added _ _ _ _ _ _ _ _ _ _ t)).
  case_bool_decide as Hn.
  - apply find_only.
    + apply Hmem. by right.
    + apply bool_decide_eq_true. subst s'. by rewrite added_new_name.
    + intros y Hy Hp. apply bool_decide_eq_true in Hp.
      apply Hmem in Hy as [Hy|Hy]; [|done].
      exfalso. apply (Hnone y Hy). subst s'. rewrite added_name in Hp by auto. done.
  - apply find_by_name_None. intros l [Hl| ->]%Hmem; subst s'.
    + rewrite added_name by auto. by apply Hnone.
    + by rewrite added_new_name.
Qed.

Lemma find_by_name_member fold nm s t l :
  valid_tree s t -> find_by_name fold nm s = Some l -> l ∈ locs t.
Proof.
  intros Hv [Hf _]%find_by_name_Some. by apply (valid_member s t).
Qed.

(** A record without name or title is dropped. *)
Lemma csv_body_invalid fold uuid i st p :
  pending st !! i = Some p -> r_name p = "" \/ r_title p = "" ->
  csv_body fold uuid i st =
  Running (mkCsv (chart st) (delete i (pending st)) (addedAny st) (minted st)).
Proof.
  intros Hp Hbad. unfold csv_body. rewrite Hp.
  destruct Hbad as [-> | ->]; [done|]. by rewrite orb_true_r.
Qed.

(** A record whose manager name matches no member stays pending. *)
Lemma csv_body_skip fold uuid i st p :
  pending st !! i = Some p ->
  r_name p <> "" -> r_title p <> "" -> r_managerName p <> "" ->
  find_by_name fold (r_managerName p) (chart st) = None ->
  csv_body fold uuid i st = Running st.
Proof.
  intros Hp Hn Ht Hm Hf. unfold csv_body. rewrite Hp.
  rewrite !bool_decide_false by done. simpl. rewrite Hf. done.
Qed.

(** The id of a member is found again. *)
Lemma member_id_found s t m :
  valid_tree s t -> m ∈ locs t ->
  dict_get (employees s) (id (mem s !!! m)) = Some m.
Proof. intros Hv Hm. by apply (dict_ok_get _ _ _ _ _ (valid_dict _ _ Hv)). Qed.

Lemma addEmployee_under_member uuid name title lob division dept email s t m :
  valid_tree s t -> m ∈ locs t ->
  addEmployee uuid name title (JString (id (mem s !!! m))) lob division dept email s =
  Some (Some (length (mem s)),
        added uuid name title lob division dept email m (doc_of (mem s) t) s).
Proof.
  intros Hv Hm. pose proof (member_id_found s t m Hv Hm) as Hget.
  rewrite (addEmployee_added _ _ _ _ _ _ _ _ _ t Hv).
  - unfold resolve_manager. simpl. by rewrite (employees_get_Found _ _ _ Hget).
  - simpl. intros [Hnone _]. congruence.
Qed.

(** A record without manager name goes under the root. *)
Lemma csv_body_root fold uuid i st p t :
  pending st !! i = Some p ->
  r_name p <> "" -> r_title p <> "" -> r_managerName p = "" ->
  valid_tree (chart st) t ->
  csv_body fold uuid i st =
  Running (mkCsv (added (uuid (minted st)) (r_name p) (r_title p) (r_lob p) (r_division p)
                        (r_dept p) (r_email p) (top t)
                        (doc_of (mem (chart st)) t) (chart st))
                 (delete i (pending st)) true (S (minted st))).
Proof.
  intros Hp Hn Ht Hm Hv. unfold csv_body. rewrite Hp.
  rewrite (bool_decide_false (r_name p = "")), (bool_decide_false (r_title p = "")) by done.
  rewrite Hm. simpl. rewrite (valid_root _ _ Hv).
  by rewrite (addEmployee_under_member _ _ _ _ _ _ _ _ t (top t) Hv (top_in_locs t)).
Qed.

(** A record whose manager name matches the member [m] goes under [m]. *)
Lemma csv_body_found fold uuid i st p t m :
  pending st !! i = Some p ->
  r_name p <> "" -> r_title p <> "" -> r_managerName p <> "" ->
  valid_tree (chart st) t ->
  find_by_name fold (r_managerName p) (chart st) = Some m ->
  csv_body fold uuid i st =
  Running (mkCsv (added (uuid (minted st)) (r_name p) (r_title p) (r_lob p) (r_division p)
                        (r_dept p) (r_email p) m
                        (doc_of (mem (chart st)) t) (chart st))
                 (delete i (pending st)) true (S (minted st))).
Proof.
  intros Hp Hn Ht Hm Hv Hf. unfold csv_body. rewrite Hp.
  rewrite !bool_decide_false by done. simpl. rewrite Hf. simpl.
  pose proof (find_by_name_member _ _ _ _ _ Hv Hf) as Hmin.
  assert (id (mem (chart st) !!! m) <> "") as Hid by (by apply (valid_ids _ _ Hv)).
  unfold truthy. rewrite (bool_decide_false _ Hid). simpl.
  by rewrite (addEmployee_under_member _ _ _ _ _ _ _ _ t m Hv Hmin).
Qed.

(** ** The import example, step by step *)

Lemma dict_get_set_ne (d : list (string * nat)) k k' v :
  k <> k' -> dict_get (dict_set d k' v) k = dict_get d k.
Proof.
  intros Hne. induction d as [|[k0 v0] d IH]; simpl.
  - by rewrite decide_False.
  - destruct (decide (k' = k0)) as [->|Hne']; simpl.
    + by rewrite !decide_False.
    + destruct (decide (k = k0)); [done|apply IH].
Qed.

Lemma added_length uuid name title lob division dept email m snap s :
  length (mem (added uuid name title lob division dept email m snap s)) = S (length (mem s)).
Proof. simpl. rewrite update_length, length_app. simpl. lia. Qed.

Lemma normalize_rows :
  normalize row_ceo = p_ceo /\ normalize row_vp = p_vp /\ normalize row_eng = p_eng.
Proof. by vm_compute. Qed.

Lemma doc_of_node h l cs :
  doc_of h (Node l cs) =
  PNode (id (h !!! l)) (name (h !!! l)) (title (h !!! l)) (lob (h !!! l))
        (division (h !!! l)) (dept (h !!! l)) (email (h !!! l)) (level (h !!! l))
        (doc_of h <$> cs).
Proof. done. Qed.

Lemma graft_top r cs us :
  r ∉ cs ≫= locs -> graft r us (Node r cs) = Node r (cs ++ us).
Proof. intros Hr. simpl. by rewrite decide_True, bind_graft_notin. Qed.

Lemma graft_last b us r cs c :
  b <> r -> b ∉ cs ≫= locs ->
  graft b us (Node r (cs ++ [c])) = Node r (cs ++ [graft b us c]).
Proof.
  intros Hbr Hb. simpl. rewrite fmap_app, bind_graft_notin by done.
  rewrite decide_False by auto. by rewrite app_nil_r.
Qed.

Section ImportExample.

Variable fold : string -> string.
Variable uuid : nat -> string.
Variable s : OrgChart.
Variable t : shape.
Hypothesis Hv : valid_tree s t.
Hypothesis Hclash : no_name_clash fold s.
Hypothesis Hfresh : fresh_ids uuid s.

Lemma fresh_facts :
  uuid 0 <> "" /\ uuid 1 <> "" /\ uuid 2 <> "" /\
  uuid 0 <> uuid 1 /\ uuid 0 <> uuid 2 /\ uuid 1 <> uuid 2 /\
  dict_get (employees s) (uuid 0) = None /\
  dict_get (employees s) (uuid 1) = None /\
  dict_get (employees s) (uuid 2) = None.
Proof.
  destruct Hfresh as [Hnd Hk].
  destruct (Hk 0) as (? & _ & ?); [lia|]. destruct (Hk 1) as (? & _ & ?); [lia|].
  destruct (Hk 2) as (? & _ & ?); [lia|].
  apply NoDup_cons in Hnd as [H01 Hnd]. apply NoDup_cons in Hnd as [H12 _].
  rewrite !not_elem_of_cons in H01. rewrite !not_elem_of_cons in H12.
  repeat split; try done; tauto.
Qed.

Lemma fresh_own : uuid 0 <> "__proto__" /\ uuid 1 <> "__proto__" /\ uuid 2 <> "__proto__".
Proof.
  destruct Hfresh as [_ Hk].
  destruct (Hk 0) as (_ & ? & _); [lia|]. destruct (Hk 1) as (_ & ? & _); [lia|].
  destruct (Hk 2) as (_ & ? & _); [lia|]. done.
Qed.

Lemma imp0_valid : valid_tree (imp0 s t) t.
Proof. by eapply valid_tree_ext; [..|apply Hv]. Qed.

Lemma imp1_valid : valid_tree (imp1 uuid s t) (tree1 s t).
Proof.
  destruct fresh_facts as (? & _ & _ & _ & _ & _ & ? & _).
  unfold imp1, tree1. change (length (mem s)) with (length (mem (imp0 s t))).
  change (doc_of (mem s) t) with (doc_of (mem (imp0 s t)) t).
  destruct fresh_own as (? & _ & _).
  apply added_valid; [apply imp0_valid|apply top_in_locs|done|done|done].
Qed.

Lemma imp1_length : length (mem (imp1 uuid s t)) = S (length (mem s)).
Proof. unfold imp1. by rewrite added_length. Qed.

Lemma new1_in_tree1 : length (mem s) ∈ locs (tree1 s t).
Proof.
  unfold tree1. rewrite locs_graft; [|apply (valid_nodup _ _ Hv)|apply top_in_locs].
  apply elem_of_app. right. simpl. apply list_elem_of_here.
Qed.

Lemma imp2_valid : valid_tree (imp2 uuid s t) (tree2 s t).
Proof.
  destruct fresh_facts as (_ & ? & _ & ? & _ & _ & _ & ? & _).
  unfold imp2, tree2.
  pose proof (added_valid (uuid 1) "VP" "Vice President" "" "" "" "" (imp1 uuid s t)
                (tree1 s t) (length (mem s)) (doc_of (mem (imp1 uuid s t)) (tree1 s t))
                imp1_valid new1_in_tree1) as Hval.
  destruct fresh_own as (_ & ? & _).
  rewrite imp1_length in Hval. apply Hval; [done|done|].
  unfold imp1. simpl. rewrite dict_get_set_ne by auto. done.
Qed.

Lemma imp2_length : length (mem (imp2 uuid s t)) = S (S (length (mem s))).
Proof. unfold imp2. by rewrite added_length, imp1_length. Qed.

Lemma new2_in_tree2 : S (length (mem s)) ∈ locs (tree2 s t).
Proof.
  unfold tree2. rewrite locs_graft; [|apply (valid_nodup _ _ imp1_valid)|apply new1_in_tree1].
  apply elem_of_app. right. simpl. apply list_elem_of_here.
Qed.

Lemma imp3_valid : valid_tree (imp3 uuid s t) (tree3 s t).
Proof.
  destruct fresh_facts as (_ & _ & ? & _ & ? & ? & _ & _ & ?).
  unfold imp3, tree3.
  pose proof (added_valid (uuid 2) "Eng" "Engineer" "" "" "" "" (imp2 uuid s t)
                (tree2 s t) (S (length (mem s))) (doc_of (mem (imp2 uuid s t)) (tree2 s t))
                imp2_valid new2_in_tree2) as Hval.
  destruct fresh_own as (_ & _ & ?).
  rewrite imp2_length in Hval. apply Hval; [done|done|].
  unfold imp2, imp1. simpl. rewrite !dict_get_set_ne by auto. done.
Qed.

(** *** Looking managers up by name *)

Lemma find0 nm :
  toLowerCase fold nm = "ceo" \/ toLowerCase fold nm = "vp" ->
  find_by_name fold nm (imp0 s t) = None.
Proof.
  intros Hnm. apply find_by_name_None. intros x Hx.
  destruct (Hclash x Hx) as [Hc Hvp].
  simpl. destruct Hnm as [-> | ->]; done.
Qed.

Lemma find1_vp : find_by_name fold "VP" (imp1 uuid s t) = None.
Proof.
  destruct fresh_facts as (? & _ & _ & _ & _ & _ & ? & _).
  destruct fresh_own as (? & _ & _).
  unfold imp1. rewrite (find_by_name_added _ _ _ _ _ _ _ _ _ _ _ _ t);
    [done|apply imp0_valid|apply top_in_locs|done|done|done|].
  apply find0. by right.
Qed.

Lemma find1_ceo : find_by_name fold "CEO" (imp1 uuid s t) = Some (length (mem s)).
Proof.
  destruct fresh_facts as (? & _ & _ & _ & _ & _ & ? & _).
  destruct fresh_own as (? & _ & _).
  unfold imp1. rewrite (find_by_name_added _ _ _ _ _ _ _ _ _ _ _ _ t);
    [done|apply imp0_valid|apply top_in_locs|done|done|done|].
  apply find0. by left.
Qed.

Lemma find2_vp : find_by_name fold "VP" (imp2 uuid s t) = Some (S (length (mem s))).
Proof.
  destruct fresh_facts as (_ & ? & _ & ? & _ & _ & _ & ? & _).
  destruct fresh_own as (_ & ? & _).
  unfold imp2. rewrite (find_by_name_added _ _ _ _ _ _ _ _ _ _ _ _ (tree1 s t));
    [by rewrite imp1_length|apply imp1_valid|apply new1_in_tree1|done|done| |apply find1_vp].
  unfold imp1. simpl. rewrite dict_get_set_ne by auto. done.
Qed.

(** *** The passes of the loop *)

Lemma csv_for_S n st :
  csv_for fold uuid (S n) st =
  match csv_body fold uuid n st with
  | Running st' => csv_for fold uuid n st'
  | Threw s' => Threw s'
  end.
Proof. done. Qed.

Lemma step_ceo i pend (added_any : bool) :
  pend !! i = Some p_ceo ->
  csv_body fold uuid i (mkCsv (imp0 s t) pend added_any 0) =
  Running (mkCsv (imp1 uuid s t) (delete i pend) true 1).
Proof.
  intros Hp.
  by rewrite (csv_body_root fold uuid i (mkCsv (imp0 s t) pend added_any 0) p_ceo t)
    by (done || apply imp0_valid).
Qed.

Lemma step_vp i pend (added_any : bool) :
  pend !! i = Some p_vp ->
  csv_body fold uuid i (mkCsv (imp1 uuid s t) pend added_any 1) =
  Running (mkCsv (imp2 uuid s t) (delete i pend) true 2).
Proof.
  intros Hp.
  by rewrite (csv_body_found fold uuid i (mkCsv (imp1 uuid s t) pend added_any 1) p_vp
                (tree1 s t) (length (mem s)))
    by (done || apply imp1_valid || apply find1_ceo).
Qed.

Lemma step_eng i pend (added_any : bool) :
  pend !! i = Some p_eng ->
  csv_body fold uuid i (mkCsv (imp2 uuid s t) pend added_any 2) =
  Running (mkCsv (imp3 uuid s t) (delete i pend) true 3).
Proof.
  intros Hp.
  by rewrite (csv_body_found fold uuid i (mkCsv (imp2 uuid s t) pend added_any 2) p_eng
                (tree2 s t) (S (length (mem s))))
    by (done || apply imp2_valid || apply find2_vp).
Qed.

Lemma wait_vp i pend added_any n :
  pend !! i = Some p_vp ->
  csv_body fold uuid i (mkCsv (imp0 s t) pend added_any n) =
  Running (mkCsv (imp0 s t) pend added_any n).
Proof.
  intros Hp. apply (csv_body_skip fold uuid i (mkCsv (imp0 s t) pend added_any n) p_vp); [done..|].
  apply find0. by left.
Qed.

Lemma wait_eng0 i pend added_any n :
  pend !! i = Some p_eng ->
  csv_body fold uuid i (mkCsv (imp0 s t) pend added_any n) =
  Running (mkCsv (imp0 s t) pend added_any n).
Proof.
  intros Hp. apply (csv_body_skip fold uuid i (mkCsv (imp0 s t) pend added_any n) p_eng); [done..|].
  apply find0. by right.
Qed.

Lemma wait_eng1 i pend added_any n :
  pend !! i = Some p_eng ->
  csv_body fold uuid i (mkCsv (imp1 uuid s t) pend added_any n) =
  Running (mkCsv (imp1 uuid s t) pend added_any n).
Proof.
  intros Hp.
  apply (csv_body_skip fold uuid i (mkCsv (imp1 uuid s t) pend added_any n) p_eng); [done..|].
  apply find1_vp.
Qed.

Lemma csv_while_S fuel st :
  csv_while fold uuid (S fuel) st =
  if negb (length (pending st) =? 0) && addedAny st then
    match csv_for fold uuid (length (pending st))
                  (mkCsv (chart st) (pending st) false (minted st)) with
    | Running st' => csv_while fold uuid fuel st'
    | Threw s' => Threw s'
    end
  else Running st.
Proof. done. Qed.

Ltac pass_step lem :=
  rewrite csv_for_S, lem by done; cbv beta iota; cbn [delete list_delete].

Lemma import_forward :
  importFromCSV fold uuid [row_ceo; row_vp; row_eng] s = (true, imp3 uuid s t).
Proof.
  unfold importFromCSV. simpl length. cbn [Nat.eqb].
  rewrite (valid_pushState s t Hv). fold (imp0 s t).
  destruct normalize_rows as (Hc & Hp & He).
  rewrite !fmap_cons, Hc, Hp, He. change (normalize <$> []) with (@nil pending_row).
  simpl length.
  rewrite csv_while_S. cbn [pending addedAny chart minted length Nat.eqb negb andb].
  pass_step wait_eng0. pass_step wait_vp. pass_step step_ceo. cbn [csv_for].
  rewrite csv_while_S. cbn [pending addedAny chart minted length Nat.eqb negb andb].
  pass_step wait_eng1. pass_step step_vp. cbn [csv_for].
  rewrite csv_while_S. cbn [pending addedAny chart minted length Nat.eqb negb andb].
  pass_step step_eng. cbn [csv_for].
  rewrite csv_while_S. cbn [pending addedAny chart minted length Nat.eqb negb andb].
  reflexivity.
Qed.

Lemma import_backward :
  importFromCSV fold uuid [row_eng; row_vp; row_ceo] s = (true, imp3 uuid s t).
Proof.
  unfold importFromCSV. simpl length. cbn [Nat.eqb].
  rewrite (valid_pushState s t Hv). fold (imp0 s t).
  destruct normalize_rows as (Hc & Hp & He).
  rewrite !fmap_cons, Hc, Hp, He. change (normalize <$> []) with (@nil pending_row).
  simpl length.
  rewrite csv_while_S. cbn [pending addedAny chart minted length Nat.eqb negb andb].
  pass_step step_ceo. pass_step step_vp. pass_step step_eng. cbn [csv_for].
  rewrite csv_while_S. cbn [pending addedAny chart minted length Nat.eqb negb andb].
  reflexivity.
Qed.

(** *** The chart after the import *)

Lemma tree3_shape :
  tree3 s t =
  Node (top t) (kids t ++ [Node (length (mem s))
                             [Node (S (length (mem s)))
                                [Node (S (S (length (mem s)))) []]]]).
Proof.
  pose proof (valid_nodup _ _ Hv) as Hnd.
  assert (forall x, x ∈ locs t -> x < length (mem s)) as Hbound
    by (intros; eapply links_ok_bound; [apply (valid_links _ _ Hv)|done]).
  destruct t as [r cs]. simpl top. simpl kids.
  simpl in Hnd. apply NoDup_cons in Hnd as [Hr Hnd].
  assert (forall n, length (mem s) <= n -> n ∉ cs ≫= locs) as Hnew.
  { intros n Hn Hin. assert (n < length (mem s)); [|lia].
    apply Hbound. simpl. by apply list_elem_of_further. }
  assert (forall n, length (mem s) <= n -> n <> r) as Hnr.
  { intros n Hn ->. assert (r < length (mem s)); [|lia].
    apply Hbound. apply list_elem_of_here. }
  unfold tree3, tree2, tree1. simpl top.
  rewrite graft_top by done.
  rewrite graft_last by (apply Hnr || apply Hnew; lia).
  rewrite graft_last by (apply Hnr || apply Hnew; lia).
  simpl. repeat (case_decide; try lia).
  rewrite fmap_cons. simpl. rewrite decide_True by done. done.
Qed.

Lemma imp3_lookups :
  let h := mem s in let n := length (mem s) in
  (forall x, x < n -> x <> top t -> mem (imp3 uuid s t) !!! x = h !!! x) /\
  mem (imp3 uuid s t) !!! top t = set_reports (reports (h !!! top t) ++ [n]) (h !!! top t) /\
  mem (imp3 uuid s t) !!! n =
    mkEmployee (uuid 0) "CEO" "Chief Executive" "" "" "" "" (Some (top t)) [S n] 1 /\
  mem (imp3 uuid s t) !!! S n =
    mkEmployee (uuid 1) "VP" "Vice President" "" "" "" "" (Some n) [S (S n)] 2 /\
  mem (imp3 uuid s t) !!! S (S n) =
    mkEmployee (uuid 2) "Eng" "Engineer" "" "" "" "" (Some (S n)) [] 3.
Proof.
  intros h n.
  assert (top t < n) as Hr.
  { eapply links_ok_bound; [apply (valid_links _ _ Hv)|apply top_in_locs]. }
  assert (level (h !!! top t) = 0) as Hl0 by apply (levels_ok_top _ _ _ (valid_levels _ _ Hv)).
  set (e1 := mkEmployee (uuid 0) "CEO" "Chief Executive" "" "" "" "" (Some (top t)) []
                        (level (h !!! top t) + 1)).
  assert (mem (imp1 uuid s t) = mem_added h (top t) e1) as H1 by done.
  assert (length (mem (imp1 uuid s t)) = S n) as L1 by apply imp1_length.
  assert (mem (imp1 uuid s t) !!! n = e1) as H1n by (rewrite H1; by apply mem_added_new).
  set (e2 := mkEmployee (uuid 1) "VP" "Vice President" "" "" "" "" (Some n) []
                        (level (mem (imp1 uuid s t) !!! n) + 1)).
  assert (mem (imp2 uuid s t) = mem_added (mem (imp1 uuid s t)) n e2) as H2 by done.
  assert (length (mem (imp2 uuid s t)) = S (S n)) as L2 by apply imp2_length.
  assert (mem (imp2 uuid s t) !!! S n = e2) as H2n.
  { rewrite H2, <- L1. apply mem_added_new. lia. }
  set (e3 := mkEmployee (uuid 2) "Eng" "Engineer" "" "" "" "" (Some (S n)) []
                        (level (mem (imp2 uuid s t) !!! S n) + 1)).
  assert (mem (imp3 uuid s t) = mem_added (mem (imp2 uuid s t)) (S n) e3) as H3 by done.
  split; [|split; [|split; [|split]]].
  - intros x Hx Hxr. rewrite H3, mem_added_other by lia.
    rewrite H2, mem_added_other by lia. rewrite H1. by apply mem_added_other.
  - rewrite H3, mem_added_other by lia. rewrite H2, mem_added_other by lia.
    rewrite H1. by apply mem_added_manager.
  - rewrite H3, mem_added_other by lia. rewrite H2, mem_added_manager by lia.
    rewrite L1, H1n. subst e1. rewrite Hl0. done.
  - rewrite H3, mem_added_manager by lia. rewrite L2, H2n. subst e2.
    rewrite H1n. subst e1. rewrite Hl0. done.
  - rewrite H3, <- L2, mem_added_new by lia. subst e3. rewrite H2n. subst e2.
    rewrite H1n. subst e1. rewrite Hl0. done.
Qed.

Lemma imp3_doc :
  exists i n ti lo dv de em rs,
    doc_of (mem s) t = PNode i n ti lo dv de em 0 rs /\
    doc_of (mem (imp3 uuid s t)) (tree3 s t) =
    PNode i n ti lo dv de em 0 (rs ++ [chain_doc uuid]).
Proof.
  destruct imp3_lookups as (Hold & Hroot & Hn1 & Hn2 & Hn3).
  pose proof (levels_ok_top _ _ _ (valid_levels _ _ Hv)) as Hl0.
  pose proof (valid_nodup _ _ Hv) as Hnd.
  assert (forall x, x ∈ locs t -> x < length (mem s)) as Hbound
    by (intros; eapply links_ok_bound; [apply (valid_links _ _ Hv)|done]).
  rewrite tree3_shape. destruct t as [r cs]. simpl top in *. simpl kids.
  eexists _, _, _, _, _, _, _, _. split.
  - rewrite doc_of_node, Hl0. reflexivity.
  - rewrite doc_of_node, fmap_app.
    repeat (progress (rewrite ?fmap_cons, ?fmap_nil, ?doc_of_node)).
    rewrite Hroot, Hn1, Hn2, Hn3. cbn [id name title lob division dept email level set_reports].
    rewrite Hl0. unfold chain_doc. f_equal. f_equal.
    apply Forall_fmap_ext. apply Forall_forall. intros c Hc.
    apply doc_of_agree. intros x Hx.
    simpl in Hnd. apply NoDup_cons in Hnd as [Hr _].
    apply Hold.
    + apply Hbound. simpl. apply list_elem_of_further. apply list_elem_of_bind. eauto.
    + intros ->. apply Hr. apply list_elem_of_bind. eauto.
Qed.

End ImportExample.

(** ** The loops of the CSV import on any list of records *)

Lemma has_name_title_true p : has_name_title p = true <-> r_name p <> "" /\ r_title p <> "".
Proof.
  unfold has_name_title. rewrite andb_true_iff, !negb_true_iff, !bool_decide_eq_false. done.
Qed.

Lemma drop_delete_same {A} (l : list A) n : n < length l -> drop n (delete n l) = drop (S n) l.
Proof.
  revert n. induction l as [|x l IH]; intros [|n] Hn; simpl in *; try done; try lia.
  apply IH. lia.
Qed.

Lemma filter_delete_length {A} (P : A -> Prop) `{forall x, Decision (P x)} (l : list A) i p :
  l !! i = Some p ->
  length (filter P l) = length (filter P (delete i l)) + (if decide (P p) then 1 else 0).
Proof.
  revert i. induction l as [|x l IH]; intros [|i] Hi; simpl in *; try done.
  - injection Hi as ->. rewrite filter_cons. destruct (decide (P p)); simpl; lia.
  - rewrite !filter_cons. specialize (IH i Hi). destruct (decide (P x)); simpl; lia.
Qed.

Lemma filter_delete_not {A} (P : A -> Prop) `{forall x, Decision (P x)} (l : list A) i p :
  l !! i = Some p -> ~ P p -> filter P (delete i l) = filter P l.
Proof.
  revert i. induction l as [|x l IH]; intros [|i] Hi Hp; simpl in *; try done.
  - injection Hi as ->. by rewrite filter_cons, decide_False.
  - rewrite !filter_cons. by rewrite (IH i).
Qed.

Lemma is_unresolved_true fold s p : is_unresolved fold s p = true <-> unresolved fold s p.
Proof.
  unfold is_unresolved, unresolved.
  rewrite !andb_true_iff, has_name_title_true, negb_true_iff, bool_decide_eq_false,
    bool_decide_eq_true. tauto.
Qed.

Lemma dict_set_length (d : list (string * nat)) k v :
  dict_get d k = None -> length (dict_set d k v) = S (length d).
Proof.
  intros Hk. rewrite dict_set_fresh by (by apply dict_get_None).
  rewrite length_app. simpl. lia.
Qed.

(** Who is found by name stays found when an employee is added. *)
Lemma unresolved_added fold uuid n title lob division dept email m snap s t p :
  valid_tree s t -> m ∈ locs t ->
  uuid <> "" -> uuid <> "__proto__" -> dict_get (employees s) uuid = None ->
  unresolved fold (added uuid n title lob division dept email m snap s) p ->
  unresolved fold s p.
Proof.
  intros Hv Hm Hu Hup Hfresh (Hn & Ht & Hmgr & Hf).
  split; [done|]. split; [done|]. split; [done|].
  rewrite find_by_name_None in Hf. apply find_by_name_None. intros l Hl.
  assert (l < length (mem s)) as Hlb.
  { eapply links_ok_bound; [apply (valid_links _ _ Hv)|]. by apply (valid_member s t). }
  rewrite <- (added_name uuid n title lob division dept email m snap s l Hlb).
  apply Hf. apply (member_added _ _ _ _ _ _ _ _ _ _ t); [done..|]. by left.
Qed.

Section CsvImport.

Variable fold : string -> string.
Variable uuid : nat -> string.
Hypothesis uuid_inj : forall j k, uuid j = uuid k -> j = k.
Hypothesis uuid_nonempty : forall k, uuid k <> "".
Hypothesis uuid_own : forall k, uuid k <> "__proto__".
Variable rows0 : list pending_row.
Variables n0 c0 : nat.

(** Adding the record [p] under the member [m]. *)
Lemma csv_inv_added st p t m i :
csv_inv fold uuid rows0 n0 c0 st -> valid_tree (chart st) t -> m ∈ locs t ->
pending st !! i = Some p -> has_name_title p = true ->
~ unresolved fold (chart st) p ->
csv_inv fold uuid rows0 n0 c0
  (mkCsv (added (uuid (minted st)) (r_name p) (r_title p) (r_lob p) (r_division p)
                (r_dept p) (r_email p) m (doc_of (mem (chart st)) t) (chart st))
         (delete i (pending st)) true (S (minted st))).
Proof.
intros [Hv Hfresh Hsize Hcount Hleft] Ht Hm Hp Hok Hres.
assert (dict_get (employees (chart st)) (uuid (minted st)) = None) as Hnew
  by (by apply Hfresh).
assert (forall q, unresolved fold (added (uuid (minted st)) (r_name p) (r_title p) (r_lob p)
                                        (r_division p) (r_dept p) (r_email p) m
                                        (doc_of (mem (chart st)) t) (chart st)) q ->
                  unresolved fold (chart st) q) as Hmono'.
{ intros q Hun. by eapply unresolved_added. }
split; cbn [chart pending minted].
- eexists. by apply added_valid.
- intros k Hk. simpl. rewrite dict_get_set_ne; [apply Hfresh; lia|].
  intros Heq. apply uuid_inj in Heq. lia.
- simpl. rewrite dict_set_length by done. lia.
- rewrite (filter_delete_length _ _ i p Hp) in Hcount.
  rewrite decide_True in Hcount by done. lia.
- intros s' Hs'. rewrite <- (Hleft s') by (intros q Hq; by apply Hmono', Hs').
  apply (filter_delete_not _ _ i p Hp). rewrite is_unresolved_true.
  intros Hun. by apply Hres, Hmono', Hs'.
Qed.

(** One turn of the [for] loop. *)
Lemma csv_body_inv st i :
csv_inv fold uuid rows0 n0 c0 st -> i < length (pending st) ->
exists st',
  csv_body fold uuid i st = Running st' /\ csv_inv fold uuid rows0 n0 c0 st' /\
  ((st' = st /\ exists p, pending st !! i = Some p /\ unresolved fold (chart st) p) \/
   (pending st' = delete i (pending st) /\ chart st' = chart st /\
    addedAny st' = addedAny st) \/
   (pending st' = delete i (pending st) /\ addedAny st' = true)).
Proof.
intros Hinv Hi. destruct (lookup_lt_is_Some_2 _ _ Hi) as [p Hp].
destruct (has_name_title p) eqn:Hok.
- pose proof (proj1 (has_name_title_true p) Hok) as [Hn Ht].
  destruct (inv_valid _ _ _ _ _ _ Hinv) as [t Hv].
  destruct (decide (r_managerName p = "")) as [Hm|Hm].
  + rewrite (csv_body_root fold uuid i st p t Hp Hn Ht Hm Hv). eexists. split; [done|].
    split; [apply csv_inv_added; [done|done|apply top_in_locs|done|done|]|].
    * by intros (_ & _ & ? & _).
    * right. right. done.
  + destruct (find_by_name fold (r_managerName p) (chart st)) as [m|] eqn:Hf.
    * rewrite (csv_body_found fold uuid i st p t m Hp Hn Ht Hm Hv Hf). eexists.
      split; [done|].
      split; [apply csv_inv_added; [done|done| |done|done|]|].
      -- by eapply find_by_name_member.
      -- intros (_ & _ & _ & Hnone). congruence.
      -- right. right. done.
    * rewrite (csv_body_skip fold uuid i st p Hp Hn Ht Hm Hf). exists st.
      split; [done|]. split; [done|]. left. split; [done|]. exists p. done.
- assert (r_name p = "" \/ r_title p = "") as Hbad.
  { unfold has_name_title in Hok. apply andb_false_iff in Hok as [Hok|Hok];
      apply negb_false_iff, bool_decide_eq_true in Hok; auto. }
  rewrite (csv_body_invalid fold uuid i st p Hp Hbad). eexists. split; [done|].
  destruct Hinv as [Hv Hfresh Hsize Hcount Hleft]. split.
  + split; cbn [chart pending minted]; [done|done|done| |].
    * rewrite (filter_delete_length _ _ i p Hp) in Hcount.
      rewrite decide_False in Hcount by (by rewrite Hok). lia.
    * intros s' Hs'. rewrite <- (Hleft s' Hs').
      apply (filter_delete_not _ _ i p Hp). rewrite is_unresolved_true.
      intros (? & ? & _). destruct Hbad; done.
  + right. left. done.
Qed.

(** One pass: the [for] loop from index [n - 1] down to 0. *)
Lemma csv_for_inv n : forall st,
csv_inv fold uuid rows0 n0 c0 st -> n <= length (pending st) ->
exists st',
  csv_for fold uuid n st = Running st' /\ csv_inv fold uuid rows0 n0 c0 st' /\
  length (pending st') <= length (pending st) /\
  (addedAny st = true -> addedAny st' = true) /\
  (addedAny st = false ->
     (addedAny st' = true /\ length (pending st') < length (pending st)) \/
     (addedAny st' = false /\ chart st' = chart st /\
      exists kept, pending st' = kept ++ drop n (pending st) /\
                   Forall (unresolved fold (chart st)) kept)).
Proof.
induction n as [|n IH]; intros st Hinv Hn.
- exists st. simpl. split; [done|]. split; [done|]. split; [done|]. split; [done|].
  intros Hf. right. split; [done|]. split; [done|]. exists []. by rewrite drop_0.
- rewrite csv_for_S.
  destruct (csv_body_inv st n Hinv ltac:(lia)) as (st1 & -> & Hinv1 & Hcase).
  destruct Hcase as [[-> (p & Hp & Hun)]|[(Hpend & Hchart & Hany)|(Hpend & Hany)]].
  + destruct (IH st Hinv ltac:(lia)) as (st' & Hrun & Hinv' & Hlen & Hmono & Hnone).
    exists st'. split; [done|]. split; [done|]. split; [done|]. split; [done|].
    intros Hf. destruct (Hnone Hf) as [?|(Hf' & Hch & kept & Hk & Hall)]; [by left|right].
    split; [done|]. split; [done|]. exists (kept ++ [p]). split.
    * rewrite Hk, <- (assoc (++)). simpl. by rewrite (drop_S _ _ _ Hp).
    * apply Forall_app. split; [done|]. by apply Forall_singleton.
  + assert (length (pending st1) = length (pending st) - 1) as Hl1.
    { rewrite Hpend, length_delete; [done|]. apply lookup_lt_is_Some_2. lia. }
    destruct (IH st1 Hinv1 ltac:(lia)) as (st' & Hrun & Hinv' & Hlen & Hmono & Hnone).
    exists st'. split; [done|]. split; [done|]. split; [lia|].
    split; [intros; apply Hmono; congruence|].
    intros Hf. destruct (Hnone ltac:(congruence)) as [[? ?]|(Hf' & Hch & kept & Hk & Hall)].
    * left. split; [done|lia].
    * right. split; [done|]. split; [congruence|]. exists kept. split.
      -- rewrite Hk, Hpend. by rewrite drop_delete_same by lia.
      -- by rewrite <- Hchart.
  + assert (length (pending st1) = length (pending st) - 1) as Hl1.
    { rewrite Hpend, length_delete; [done|]. apply lookup_lt_is_Some_2. lia. }
    destruct (IH st1 Hinv1 ltac:(lia)) as (st' & Hrun & Hinv' & Hlen & Hmono & _).
    exists st'. split; [done|]. split; [done|]. split; [lia|].
    split; [intros; by apply Hmono|].
    intros Hf. left. split; [by apply Hmono|lia].
Qed.

(** The [while] loop: it is left with its condition false, and what is
  still pending then cannot be resolved. *)
Lemma csv_while_inv fuel : forall st,
csv_inv fold uuid rows0 n0 c0 st ->
(addedAny st = true -> length (pending st) < fuel) ->
(addedAny st = false -> Forall (unresolved fold (chart st)) (pending st)) ->
exists st',
  csv_while fold uuid fuel st = Running st' /\ csv_inv fold uuid rows0 n0 c0 st' /\
  (pending st' = [] \/ addedAny st' = false) /\
  Forall (unresolved fold (chart st')) (pending st').
Proof.
induction fuel as [|fuel IH]; intros st Hinv Hfuel Hun.
- destruct (addedAny st) eqn:Hany; [specialize (Hfuel eq_refl); lia|].
  exists st. simpl. split; [done|]. split; [done|]. split; [by right|by apply Hun].
- rewrite csv_while_S.
  destruct (length (pending st) =? 0) eqn:Hl0; cbn [negb andb].
  { apply Nat.eqb_eq, nil_length_inv in Hl0. exists st.
    split; [done|]. split; [done|]. split; [by left|]. rewrite Hl0. constructor. }
  destruct (addedAny st) eqn:Hany.
  2:{ exists st. split; [done|]. split; [done|]. split; [by right|by apply Hun]. }
  set (st0 := mkCsv (chart st) (pending st) false (minted st)).
  assert (csv_inv fold uuid rows0 n0 c0 st0) as Hinv0 by (by destruct Hinv).
  destruct (csv_for_inv (length (pending st)) st0 Hinv0 ltac:(done))
    as (st1 & Hrun & Hinv1 & Hlen & _ & Hnone).
  rewrite Hrun. simpl in Hlen. specialize (Hfuel eq_refl).
  apply (IH st1 Hinv1).
  + intros Ht. destruct (Hnone eq_refl) as [[_ Hlt]|[Hf _]]; [simpl in Hlt; lia|congruence].
  + intros Hf. destruct (Hnone eq_refl) as [[Ht _]|(_ & Hch & kept & Hk & Hall)]; [congruence|].
    simpl in Hk, Hch, Hall. rewrite drop_all, app_nil_r in Hk. by rewrite Hk, Hch.
Qed.

End CsvImport.

(** The whole import of a list of records that is not empty, into a valid
    chart: the snapshot, then the loops. *)
Lemma importFromCSV_run fold uuid rows s :
  valid s ->
  (forall j k, uuid j = uuid k -> j = k) ->
  (forall k, uuid k <> "" /\ uuid k <> "__proto__" /\
             dict_get (employees s) (uuid k) = None) ->
  rows <> [] ->
  exists s0 st,
    pushState s = Some s0 /\
    csv_while fold uuid (S (length rows)) (mkCsv s0 (normalize <$> rows) true 0) = Running st /\
    importFromCSV fold uuid rows s = (true, chart st) /\
    importFromCSV_unimported fold uuid rows s = Some (length (pending st)) /\
    csv_inv fold uuid (normalize <$> rows) (length (employees s))
            (length (filter (fun p => has_name_title p = true) (normalize <$> rows))) st /\
    (pending st = [] \/ addedAny st = false) /\
    Forall (unresolved fold (chart st)) (pending st).
Proof.
  intros [t Hv] Hinj Hfresh Hrows.
  set (s0 := set_future [] (set_history (history s ++ [doc_of (mem s) t]) s)).
  set (st0 := mkCsv s0 (normalize <$> rows) true 0).
  assert (csv_inv fold uuid (normalize <$> rows) (length (employees s))
            (length (filter (fun p => has_name_title p = true) (normalize <$> rows))) st0)
    as Hinv0.
  { split; cbn [chart pending minted st0].
    - exists t. by eapply valid_tree_ext; [..|apply Hv].
    - intros k _. apply Hfresh.
    - simpl. lia.
    - done.
    - done. }
  destruct (csv_while_inv fold uuid Hinj (fun k => proj1 (Hfresh k))
              (fun k => proj1 (proj2 (Hfresh k))) _ _ _
              (S (length rows)) st0 Hinv0) as (st & Hrun & Hinv & Hexit & Hun).
  { intros _. simpl. rewrite length_fmap. lia. }
  { intros Hf. discriminate Hf. }
  exists s0, st. split; [apply (valid_pushState s t Hv)|]. split; [exact Hrun|].
  assert ((length rows =? 0) = false) as Hlen by (apply Nat.eqb_neq; by destruct rows).
  split; [|split; [|done]].
  - unfold importFromCSV. rewrite Hlen, (valid_pushState s t Hv). fold s0.
    rewrite length_fmap. fold st0. by rewrite Hrun.
  - unfold importFromCSV_unimported. rewrite Hlen, (valid_pushState s t Hv). fold s0.
    rewrite length_fmap. fold st0. by rewrite Hrun.
Qed.

(** What is left pending at the end: the records that stay without
    manager in the final chart, in their order; the others with name and
    title each made one member. *)
Lemma csv_inv_end fold uuid rows0 n0 c0 st :
  csv_inv fold uuid rows0 n0 c0 st ->
  Forall (unresolved fold (chart st)) (pending st) ->
  pending st = filter (fun p => is_unresolved fold (chart st) p = true) rows0 /\
  minted st + length (pending st) = c0.
Proof.
  intros [_ _ _ Hcount Hleft] Hun. split.
  - rewrite <- (Hleft (chart st)) by done. symmetry. apply filter_all.
    eapply Forall_impl; [exact Hun|]. intros p Hp. by apply is_unresolved_true.
  - rewrite <- Hcount. f_equal. f_equal. symmetry. apply filter_all.
    eapply Forall_impl; [exact Hun|]. intros p (Hn & Ht & _).
    by apply has_name_title_true.
Qed.

Lemma tally_inj j k : tally j = tally k -> j = k.
Proof.
  unfold tally. intros [= H]. revert k H.
  induction j as [|j IH]; intros [|k] H; simpl in H; try done.
  injection H as H. f_equal. by apply IH.
Qed.

Lemma tally_fresh k :
  tally k <> "" /\ tally k <> "__proto__" /\ dict_get (employees ceo_chart) (tally k) = None.
Proof.
  split; [done|]. split; [done|]. unfold tally.
  change (employees ceo_chart) with [("u0", 0)]. simpl. done.
Qed.

(* ------------------------------------------------------------------ *)
(** ** C5: the order of the records                                     *)
(* ------------------------------------------------------------------ *)

(** C5.  Into a valid chart in which nobody is called CEO or VP, the
    records CEO (no manager), VP (manager CEO), Eng (manager VP) are
    imported to the same tree in either order: the old tree with one more
    subtree under the root, CEO at level 1 over VP over Eng.  The two
    results differ in the ids [uuidv4()] happened to return and in nothing
    else; with the same ids they are the same chart.  [fold] is the
    lower-casing of the names that are not plain ASCII; the result does
    not depend on it. *)
Theorem csv_import_order_independent (fold : string -> string)
    (uuid1 uuid2 : nat -> string) (s : OrgChart) :
  valid s -> no_name_clash fold s -> fresh_ids uuid1 s -> fresh_ids uuid2 s ->
  exists s1 s2 i n ti lo dv de em rs,
    importFromCSV fold uuid1 [row_ceo; row_vp; row_eng] s = (true, s1) /\
    importFromCSV fold uuid2 [row_eng; row_vp; row_ceo] s = (true, s2) /\
    importFromCSV fold uuid1 [row_eng; row_vp; row_ceo] s = (true, s1) /\
    valid s1 /\ valid s2 /\
    _prepareForExport s = Some (PNode i n ti lo dv de em 0 rs) /\
    _prepareForExport s1 = Some (PNode i n ti lo dv de em 0 (rs ++ [chain_doc uuid1])) /\
    _prepareForExport s2 = Some (PNode i n ti lo dv de em 0 (rs ++ [chain_doc uuid2])).
Proof.
  intros [t Hv] Hclash Hf1 Hf2.
  destruct (imp3_doc uuid1 s t Hv) as (i & n & ti & lo & dv & de & em & rs & Hd & Hd1).
  destruct (imp3_doc uuid2 s t Hv) as (i' & n' & ti' & lo' & dv' & de' & em' & rs' & Hd' & Hd2).
  rewrite Hd in Hd'. injection Hd' as <- <- <- <- <- <- <- <-.
  exists (imp3 uuid1 s t), (imp3 uuid2 s t), i, n, ti, lo, dv, de, em, rs.
  pose proof (imp3_valid uuid1 s t Hv Hf1) as Hv1.
  pose proof (imp3_valid uuid2 s t Hv Hf2) as Hv2.
  split; [by apply import_forward|]. split; [by apply import_backward|].
  split; [by apply import_backward|].
  split; [by eexists|]. split; [by eexists|].
  split; [by rewrite (valid_prepareForExport s t Hv), Hd|].
  split.
  - by rewrite (valid_prepareForExport _ _ Hv1), Hd1.
  - by rewrite (valid_prepareForExport _ _ Hv2), Hd2.
Qed.

Lemma fresh_ids_a : fresh_ids ids_a ceo_chart.
Proof.
  split; [apply (bool_decide_unpack _); vm_compute; exact I|].
  intros [|[|[|k]]] Hk; try lia; (split; [|split]); vm_compute; done.
Qed.

Lemma fresh_ids_b : fresh_ids ids_b ceo_chart.
Proof.
  split; [apply (bool_decide_unpack _); vm_compute; exact I|].
  intros [|[|[|k]]] Hk; try lia; (split; [|split]); vm_compute; done.
Qed.

Lemma no_name_clash_ceo_chart : no_name_clash (fun x => x) ceo_chart.
Proof.
  intros l Hl. vm_compute in Hl.
  apply elem_of_cons in Hl as [->|Hl]; [|inversion Hl].
  split; vm_compute; discriminate.
Qed.

Lemma csv_import_order_independent_witness :
  valid ceo_chart /\ no_name_clash (fun x => x) ceo_chart /\
  fresh_ids ids_a ceo_chart /\ fresh_ids ids_b ceo_chart /\
  exists s1 s2 i n ti lo dv de em rs,
    importFromCSV (fun x => x) ids_a [row_ceo; row_vp; row_eng] ceo_chart = (true, s1) /\
    importFromCSV (fun x => x) ids_b [row_eng; row_vp; row_ceo] ceo_chart = (true, s2) /\
    importFromCSV (fun x => x) ids_a [row_eng; row_vp; row_ceo] ceo_chart = (true, s1) /\
    valid s1 /\ valid s2 /\
    _prepareForExport ceo_chart = Some (PNode i n ti lo dv de em 0 rs) /\
    _prepareForExport s1 = Some (PNode i n ti lo dv de em 0 (rs ++ [chain_doc ids_a])) /\
    _prepareForExport s2 = Some (PNode i n ti lo dv de em 0 (rs ++ [chain_doc ids_b])).
Proof.
  split; [exact valid_ceo_chart|]. split; [exact no_name_clash_ceo_chart|].
  split; [exact fresh_ids_a|]. split; [exact fresh_ids_b|].
  exact (csv_import_order_independent (fun x => x) ids_a ids_b ceo_chart valid_ceo_chart
           no_name_clash_ceo_chart fresh_ids_a fresh_ids_b).
Defined.

(* ------------------------------------------------------------------ *)
(** ** C6: a record without a resolvable manager                        *)
(* ------------------------------------------------------------------ *)

(** C6, counterexample.  The claim has a record without manager become
    the root when the chart has none, and a record whose manager cannot be
    found go under the root.  With no root the import stops at its
    snapshot and returns [false], the chart still without a root; with a
    root, the record naming an unknown manager is not imported at all. *)
Lemma import_makes_no_root :
  ~ ((forall fold uuid row s,
        root s = None ->
        trimmed (row_managerName row) = "" ->
        trimmed (row_name row) <> "" -> trimmed (row_title row) <> "" ->
        exists r, root (importFromCSV fold uuid [row] s).2 = Some r) \/
     (forall fold uuid row s,
        valid s ->
        find_by_name fold (trimmed (row_managerName row)) s = None ->
        trimmed (row_name row) <> "" -> trimmed (row_title row) <> "" ->
        exists e, member (importFromCSV fold uuid [row] s).2 e /\
                  name (mem (importFromCSV fold uuid [row] s).2 !!! e)
                  = trimmed (row_name row))).
Proof.
  intros [Hclaim|Hclaim].
  - destruct (Hclaim (fun x => x) ids_a row_ceo new_OrgChart) as [r Hr]; try done.
  - destruct (Hclaim (fun x => x) ids_a row_ghost ceo_chart valid_ceo_chart) as (e & He & Hn);
      [by vm_compute|by vm_compute|by vm_compute|].
    vm_compute in He. apply elem_of_cons in He as [->|He]; [|inversion He].
    vm_compute in Hn. discriminate.
Qed.

Lemma pushState_no_root s : root s = None -> pushState s = None.
Proof. intros Hr. unfold pushState, _serializeOrg, _prepareForExport. by rewrite Hr. Qed.

(** C6, as amended.  When the chart has no root, [importFromCSV] fails at
    its first step, returns [false], prints no count and changes nothing:
    no record becomes the root.  In a valid chart, a record with name and
    title and no manager name is added as a direct report of the root, at
    level 1, and leaves [pending]; a record whose manager name matches no
    member, letter case apart, is passed over and stays in [pending].
    The import of any records, at least one, into a valid chart, the ids
    generated being new and distinct, returns [true] and leaves a valid
    chart; the records still pending at its end are those records with
    name and title whose manager name matches no member of the final
    chart, in their order; their number is the one printed as the rows
    that could not be imported; and the chart has one new member for each
    other record with name and title, none for these. *)
Theorem csv_record_placement (fold : string -> string) (uuid : nat -> string) :
  (forall rows s, root s = None ->
     importFromCSV fold uuid rows s = (false, s) /\
     importFromCSV_unimported fold uuid rows s = None) /\
  (forall i st p t,
     valid_tree (chart st) t ->
     uuid (minted st) <> "" -> uuid (minted st) <> "__proto__" ->
     dict_get (employees (chart st)) (uuid (minted st)) = None ->
     pending st !! i = Some p ->
     r_name p <> "" -> r_title p <> "" -> r_managerName p = "" ->
     exists st',
       csv_body fold uuid i st = Running st' /\
       pending st' = delete i (pending st) /\ addedAny st' = true /\
       valid (chart st') /\ root (chart st') = Some (top t) /\
       let e := length (mem (chart st)) in
       dict_get (employees (chart st')) (uuid (minted st)) = Some e /\
       name (mem (chart st') !!! e) = r_name p /\
       manager (mem (chart st') !!! e) = Some (top t) /\
       level (mem (chart st') !!! e) = 1 /\
       reports (mem (chart st') !!! top t) = reports (mem (chart st) !!! top t) ++ [e]) /\
  (forall i st p,
     pending st !! i = Some p ->
     r_name p <> "" -> r_title p <> "" -> r_managerName p <> "" ->
     find_by_name fold (r_managerName p) (chart st) = None ->
     csv_body fold uuid i st = Running st) /\
  (forall rows s,
     valid s ->
     (forall j k, uuid j = uuid k -> j = k) ->
     (forall k, uuid k <> "" /\ uuid k <> "__proto__" /\
                dict_get (employees s) (uuid k) = None) ->
     rows <> [] ->
     exists s' left,
       importFromCSV fold uuid rows s = (true, s') /\
       importFromCSV_unimported fold uuid rows s = Some (length left) /\
       valid s' /\
       left = filter (fun p => is_unresolved fold s' p = true) (normalize <$> rows) /\
       length (employees s') + length left =
         length (employees s) +
         length (filter (fun p => has_name_title p = true) (normalize <$> rows))).
Proof.
  split; [|split; [|split]].
  - intros rows s Hr. unfold importFromCSV, importFromCSV_unimported.
    rewrite (pushState_no_root s Hr). by destruct (length rows =? 0).
  - intros i st p t Hv Hu Hup Hfresh Hp Hn Ht Hm.
    rewrite (csv_body_root fold uuid i st p t Hp Hn Ht Hm Hv).
    eexists. split; [reflexivity|]. cbn [pending addedAny chart].
    split; [done|]. split; [done|].
    assert (top t < length (mem (chart st))) as Hr.
    { eapply links_ok_bound; [apply (valid_links _ _ Hv)|apply top_in_locs]. }
    split; [|split; [apply (valid_root _ _ Hv)|]].
    { eexists. apply added_valid; [done|apply top_in_locs|done|done|done]. }
    cbv zeta. cbn [mem employees added].
    fold (mem_added (mem (chart st)) (top t)
            (mkEmployee (uuid (minted st)) (r_name p) (r_title p) (r_lob p) (r_division p)
               (r_dept p) (r_email p) (Some (top t)) []
               (level (mem (chart st) !!! top t) + 1))).
    rewrite mem_added_new, mem_added_manager by done.
    rewrite (levels_ok_top _ _ _ (valid_levels _ _ Hv)). simpl.
    split; [apply dict_get_set|done].
  - intros i st p. apply csv_body_skip.
  - intros rows s Hv Hinj Hfresh Hrows.
    destruct (importFromCSV_run fold uuid rows s Hv Hinj Hfresh Hrows)
      as (s0 & st & _ & _ & Himp & Hleft & Hinv & _ & Hun).
    destruct (csv_inv_end _ _ _ _ _ _ Hinv Hun) as [Hpend Hcount].
    exists (chart st), (pending st).
    split; [done|]. split; [done|]. split; [apply (inv_valid _ _ _ _ _ _ Hinv)|].
    split; [done|]. rewrite (inv_size _ _ _ _ _ _ Hinv). lia.
Qed.

Lemma csv_record_placement_witness :
  (importFromCSV (fun x => x) tally [row_ceo; row_vp] new_OrgChart = (false, new_OrgChart) /\
   importFromCSV_unimported (fun x => x) tally [row_ceo; row_vp] new_OrgChart = None) /\
  (exists s' left,
     importFromCSV (fun x => x) tally [row_ghost; row_ceo] ceo_chart = (true, s') /\
     importFromCSV_unimported (fun x => x) tally [row_ghost; row_ceo] ceo_chart
       = Some (length left) /\
     valid s' /\
     left = filter (fun p => is_unresolved (fun x => x) s' p = true)
                   (normalize <$> [row_ghost; row_ceo]) /\
     length (employees s') + length left =
       length (employees ceo_chart) +
       length (filter (fun p => has_name_title p = true)
                      (normalize <$> [row_ghost; row_ceo]))) /\
  (exists st',
     csv_body (fun x => x) tally 0 (mkCsv ceo_chart [p_ceo] false 0) = Running st' /\
     pending st' = [] /\ addedAny st' = true /\
     valid (chart st') /\ root (chart st') = Some 0 /\
     dict_get (employees (chart st')) "#" = Some 1 /\
     name (mem (chart st') !!! 1) = "CEO" /\
     manager (mem (chart st') !!! 1) = Some 0 /\
     level (mem (chart st') !!! 1) = 1 /\
     reports (mem (chart st') !!! 0) = reports (mem ceo_chart !!! 0) ++ [1]).
Proof.
  pose proof (csv_record_placement (fun x => x) tally) as (H1 & H2 & _ & H4).
  split; [exact (H1 [row_ceo; row_vp] new_OrgChart eq_refl)|]. split.
  - exact (H4 [row_ghost; row_ceo] ceo_chart valid_ceo_chart tally_inj tally_fresh
              ltac:(discriminate)).
  - assert (valid_tree ceo_chart (Node 0 [])) as Hv by valid_tac.
    exact (H2 0 (mkCsv ceo_chart [p_ceo] false 0) p_ceo (Node 0 []) Hv
              ltac:(discriminate) ltac:(discriminate) ltac:(by vm_compute) eq_refl
              ltac:(discriminate) ltac:(discriminate) eq_refl).
Defined.

(* ================================================================== *)
(** * Part 4.  More of the engine                                       *)
(* ================================================================== *)

(** ** [getPath]: the chain of managers *)

Lemma level_lt_height h lvl t x :
  levels_ok h lvl t -> x ∈ locs t -> level (h !!! x) < lvl + height t.
Proof.
  revert lvl. induction t as [l cs IH] using shape_ind'. intros lvl Hlv Hx.
  apply levels_ok_inv in Hlv as (Hl & Hcs).
  rewrite Forall_forall in IH, Hcs.
  apply locs_node_inv in Hx as [->|(c & Hc & Hx)]; [simpl; lia|].
  pose proof (IH c Hc (S lvl) (Hcs c Hc) Hx).
  pose proof (height_child l cs c Hc). lia.
Qed.

Lemma level_zero_top h t x :
  links_ok h None t -> levels_ok h 0 t -> x ∈ locs t -> level (h !!! x) = 0 -> x = top t.
Proof.
  intros Hlinks Hlevels Hx H0. apply locs_top_or_below in Hx as [?|Hx]; [done|].
  destruct (levels_below _ _ _ _ _ Hlinks Hlevels Hx) as (m & _ & Hm). lia.
Qed.

(** The walk of [getPath] from a member at level [n]: [S n] objects are
    put in front of [path], the root first, each the manager of the next. *)
Lemma getPath_from_chain h t :
  links_ok h None t -> levels_ok h 0 t ->
  forall n x, x ∈ locs t -> level (h !!! x) = n ->
  forall fuel path, n < fuel ->
  exists p,
    getPath_from fuel h (Some x) path = Some (p ++ path) /\
    length p = S n /\ last p = Some x /\ head p = Some (top t) /\
    (forall k a, p !! k = Some a -> a ∈ locs t /\ level (h !!! a) = k) /\
    (forall k a b, p !! k = Some a -> p !! S k = Some b -> manager (h !!! b) = Some a).
Proof.
  intros Hlinks Hlevels. induction n as [|n IH]; intros x Hx Hn fuel path Hf.
  - pose proof (level_zero_top _ _ _ Hlinks Hlevels Hx Hn) as ->.
    destruct fuel as [|fuel]; [lia|]. simpl.
    rewrite (links_ok_top_manager _ _ _ Hlinks). exists [top t].
    split; [by destruct fuel|]. split; [done|]. split; [done|]. split; [done|]. split.
    + intros [|k] a Hk; [|done]. injection Hk as <-. done.
    + intros [|k] a b _ Hb; done.
  - assert (x ∈ below t) as Hb.
    { apply locs_top_or_below in Hx as [->|?]; [|done].
      rewrite (levels_ok_top _ _ _ Hlevels) in Hn. lia. }
    destruct (levels_below _ _ _ _ _ Hlinks Hlevels Hb) as (m & Hm & Hlm).
    destruct (links_parent _ _ _ _ Hlinks Hb) as (P & HP & HPin & _).
    assert (P = m) as -> by congruence.
    destruct fuel as [|fuel]; [lia|]. simpl. rewrite Hm.
    destruct (IH m HPin ltac:(lia) fuel (x :: path) ltac:(lia))
      as (p & Hrun & Hlen & Hlast & Hhead & Hlv & Hch).
    exists (p ++ [x]). rewrite <- (assoc (++)). simpl.
    split; [done|]. split; [rewrite length_app; simpl; lia|].
    split; [by rewrite last_snoc|].
    split; [destruct p; [done|done]|]. split.
    + intros k a Hk. apply lookup_app_Some in Hk as [Hk|[Hge Hk]]; [by apply Hlv|].
      apply list_lookup_singleton_Some in Hk as [Hk <-]. split; [done|lia].
    + intros k a b Ha Hb'.
      apply lookup_app_Some in Hb' as [Hb'|[Hge Hb']].
      * apply lookup_app_Some in Ha as [Ha|[Hge' Ha]]; [by eapply Hch|].
        apply lookup_lt_Some in Hb'. lia.
      * apply list_lookup_singleton_Some in Hb' as [Hk <-].
        assert (k = n) as -> by lia.
        apply lookup_app_Some in Ha as [Ha|[Hge' Ha]]; [|lia].
        assert (last p = p !! n) as Hl.
        { rewrite last_lookup. f_equal. lia. }
        congruence.
Qed.

(** X1.  [getPath].  For a member of a valid chart [getPath] returns the
    chain of its managers: as many objects as the member's level plus one,
    the root first and the member last, the object in position [k] at
    level [k] and the manager of the object after it.  For an id that is
    neither in [employees] nor a name every object inherits the path is
    empty; for an inherited name, [constructor] say, it is the inherited
    value alone, which is no employee. *)
Theorem getPath_spec (s : OrgChart) (i : string) :
  valid s ->
  (forall x, dict_get (employees s) i = Some x ->
     exists p,
       getPath i s = Some (Found <$> p) /\
       length p = S (level (mem s !!! x)) /\
       head p = root s /\ last p = Some x /\
       (forall k a, p !! k = Some a -> member s a /\ level (mem s !!! a) = k) /\
       (forall k a b, p !! k = Some a -> p !! S k = Some b ->
                      manager (mem s !!! b) = Some a)) /\
  (unknown_id s i -> getPath i s = Some []) /\
  (builtin_name s i ->
     exists b, employees_get s i = Other b /\ getPath i s = Some [Other b]).
Proof.
  intros [t Hv]. split; [|split].
  - intros x Hx.
    pose proof (proj1 (dict_ok_get _ _ _ _ _ (valid_dict _ _ Hv)) Hx) as [Hin _].
    pose proof (level_lt_height _ _ _ _ (valid_levels _ _ Hv) Hin) as Hlt.
    pose proof (height_le_heap _ _ _ (valid_links _ _ Hv) (valid_nodup _ _ Hv)) as Hh.
    destruct (getPath_from_chain (mem s) t (valid_links _ _ Hv) (valid_levels _ _ Hv)
                (level (mem s !!! x)) x Hin eq_refl (recursion_limit (mem s)) [])
      as (p & Hrun & Hlen & Hlast & Hhead & Hlv & Hch).
    { unfold recursion_limit. simpl in Hlt. lia. }
    rewrite app_nil_r in Hrun. exists p. unfold getPath.
    rewrite (employees_get_Found _ _ _ Hx), Hrun.
    split; [done|]. split; [done|]. split; [by rewrite (valid_root _ _ Hv)|].
    split; [done|]. split; [|done].
    intros k a Hk. destruct (Hlv k a Hk) as [Ha Hl]. split; [|done].
    by apply (valid_member s t).
  - intros Hun. unfold getPath.
    by rewrite (proj2 (employees_get_valid_Falsy s t i Hv) Hun).
  - intros Hb. destruct (proj2 (employees_get_valid_Other s t i Hv) Hb) as [b Hget].
    exists b. split; [done|]. unfold getPath. by rewrite Hget.
Qed.

Lemma getPath_spec_witness :
  valid chart3 /\
  (exists p,
     getPath "u2" chart3 = Some (Found <$> p) /\
     length p = S (level (mem chart3 !!! 2)) /\
     head p = root chart3 /\ last p = Some 2 /\
     (forall k a, p !! k = Some a -> member chart3 a /\ level (mem chart3 !!! a) = k) /\
     (forall k a b, p !! k = Some a -> p !! S k = Some b ->
                    manager (mem chart3 !!! b) = Some a)) /\
  getPath "u7" chart3 = Some [] /\
  (exists b, employees_get chart3 "constructor" = Other b /\
             getPath "constructor" chart3 = Some [Other b]).
Proof.
  pose proof (getPath_spec chart3 "u2" valid_chart3) as (H1 & _ & _).
  pose proof (getPath_spec chart3 "u7" valid_chart3) as (_ & H2 & _).
  pose proof (getPath_spec chart3 "constructor" valid_chart3) as (_ & _ & H3).
  split; [exact valid_chart3|].
  assert (dict_get (employees chart3) "u2" = Some 2) as H by (vm_compute; reflexivity).
  split; [exact (H1 2 H)|]. split.
  - apply H2. split; [vm_compute; reflexivity|]. apply (bool_decide_unpack _). vm_compute. exact I.
  - apply H3. split; [vm_compute; reflexivity|]. apply (bool_decide_unpack _). vm_compute. exact I.
Defined.

(** ** Loading a document and exporting it again *)

(** X2.  [_loadSnapshot] then [_prepareForExport].  Whatever document is
    loaded, into whatever chart, exporting gives the same document back:
    ids, fields and levels are taken over as they stand, also when the
    levels do not fit the nesting or an id occurs twice. *)
Theorem load_then_export (doc : portable) (s0 : OrgChart) :
  _prepareForExport (_loadSnapshot doc s0) = Some doc /\
  history (_loadSnapshot doc s0) = history s0 /\
  future (_loadSnapshot doc s0) = future s0.
Proof.
  exact (loadSnapshot_export doc s0).
Qed.

(** ** [undo] and [redo] on the two stacks *)

(** X3.  [undo] and [redo].  With fewer than two snapshots [undo] does
    nothing, and so does [redo] with an empty [future].  Otherwise [undo]
    moves the top snapshot [c] to [future] and shows the snapshot [p]
    below it; a [redo] right after moves [c] back and shows [c]: the
    stacks are as before the [undo], and the chart is the one of the top
    snapshot.  [redo] followed by [undo] restores the stacks too. *)
Theorem undo_redo_laws (s : OrgChart) :
  (length (history s) < 2 -> undo s = (false, s)) /\
  (future s = [] -> redo s = (false, s)) /\
  (forall l p c, history s = l ++ [p; c] ->
     exists s1 s2,
       undo s = (true, s1) /\ _serializeOrg s1 = Some p /\
       history s1 = l ++ [p] /\ future s1 = future s ++ [c] /\
       redo s1 = (true, s2) /\ _serializeOrg s2 = Some c /\
       history s2 = history s /\ future s2 = future s) /\
  (forall f c l p, future s = f ++ [c] -> history s = l ++ [p] ->
     exists s1 s2,
       redo s = (true, s1) /\ _serializeOrg s1 = Some c /\
       history s1 = history s ++ [c] /\ future s1 = f /\
       undo s1 = (true, s2) /\ _serializeOrg s2 = Some p /\
       history s2 = history s /\ future s2 = future s).
Proof.
  split; [|split; [|split]].
  - intros Hlt. unfold undo. apply Nat.ltb_lt in Hlt. by rewrite Hlt.
  - apply redo_nothing.
  - intros l p c Hh. rewrite (undo_two s l p c Hh).
    set (s0 := set_future (future s ++ [c]) (set_history (l ++ [p]) s)).
    destruct (loadSnapshot_export p s0) as (Hp & Hh1 & Hf1).
    set (s1 := _loadSnapshot p s0) in *.
    assert (future s1 = future s ++ [c]) as Hf1' by (by rewrite Hf1).
    assert (history s1 = l ++ [p]) as Hh1' by (by rewrite Hh1).
    pose proof (redo_one s1 (future s) c Hf1') as Hredo.
    set (s0' := set_history (history s1 ++ [c]) (set_future (future s) s1)) in *.
    destruct (loadSnapshot_export c s0') as (Hc & Hh2 & Hf2).
    exists s1, (_loadSnapshot c s0').
    split; [done|]. split; [done|]. split; [done|]. split; [done|].
    split; [done|]. split; [done|]. split.
    + rewrite Hh2. simpl. rewrite Hh1', Hh. by rewrite <- (assoc (++)).
    + by rewrite Hf2.
  - intros f c l p Hf Hh. rewrite (redo_one s f c Hf).
    set (s0 := set_history (history s ++ [c]) (set_future f s)).
    destruct (loadSnapshot_export c s0) as (Hc & Hh1 & Hf1).
    set (s1 := _loadSnapshot c s0) in *.
    assert (history s1 = l ++ [p; c]) as Hh1'.
    { rewrite Hh1. simpl. rewrite Hh. by rewrite <- (assoc (++)). }
    pose proof (undo_two s1 l p c Hh1') as Hundo.
    set (s0' := set_future (future s1 ++ [c]) (set_history (l ++ [p]) s1)) in *.
    destruct (loadSnapshot_export p s0') as (Hp & Hh2 & Hf2).
    exists s1, (_loadSnapshot p s0').
    split; [done|]. split; [done|]. split; [by rewrite Hh1|].
    split; [by rewrite Hf1|]. split; [done|]. split; [done|]. split.
    + rewrite Hh2. simpl. by rewrite Hh.
    + rewrite Hf2. simpl. rewrite Hf1. simpl. by rewrite Hf.
Qed.

(** ** What a mutation leaves on [history] *)

Lemma pushState_same s s1 :
  pushState s = Some s1 -> mem s1 = mem s /\ root s1 = root s /\ employees s1 = employees s.
Proof. intros Hp. apply pushState_history in Hp as (snap & _ & ->). done. Qed.

(** X4.  the snapshot of a mutation.  [addEmployee], [editEmployee],
    [removeEmployee] and [moveSubtree], when they go through, append one
    snapshot to [history], that of the chart as it was before the call,
    and empty [future].  The snapshot [setRoot] appends is that of the
    chart it has just made. *)
Theorem mutation_snapshot (o : op) (s s1 : OrgChart) :
  outcome o s = Some (true, s1) ->
  exists snap,
    history s1 = history s ++ [snap] /\ future s1 = [] /\
    match o with
    | OpSetRoot _ _ _ _ _ _ _ => _serializeOrg s1 = Some snap
    | _ => _serializeOrg s = Some snap
    end.
Proof.
  destruct o as [u n ti lo dv de em|u n ti mg lo dv de em|i p|i v|A B]; simpl.
  - unfold setRoot. destruct (pushState _) as [s'|] eqn:Hp; [|done].
    intros [= <-]. apply pushState_history in Hp as (snap & Hsnap & ->).
    exists snap. simpl. split; [done|]. split; [done|]. exact Hsnap.
  - unfold addEmployee. destruct (root s); [|intros H; cbv in H; discriminate].
    destruct (pushState s) as [s'|] eqn:Hp; [|done].
    apply pushState_history in Hp as (snap & Hsnap & ->).
    destruct (employees_get _ _); cbn [fmap option_fmap option_map fst snd];
      intros [= <-]; simpl; eauto.
  - unfold editEmployee. destruct (employees_get _ _) as [a|b|]; [| |by intros [=]].
    + destruct (pushState s) as [s'|] eqn:Hp; [|done].
      intros [= <-]. apply pushState_history in Hp as (snap & Hsnap & ->). simpl. eauto.
    + destruct (pushState s) as [s'|] eqn:Hp; [|done].
      destruct (assigns_to_builtin _ _); [|done].
      intros [= <-]. apply pushState_history in Hp as (snap & Hsnap & ->). simpl. eauto.
  - unfold removeEmployee.
    destruct (match root s with
              | Some r => bool_decide (id (mem s !!! r) = i)
              | None => false
              end); [by intros [=]|].
    destruct (employees_get _ _); [|done|by intros [=]].
    destruct (pushState s) as [s'|] eqn:Hp; [|done].
    apply pushState_history in Hp as (snap & Hsnap & ->).
    destruct (match (if truthy v then _ else _) with Found _ => _ | _ => _ end);
      [|done].
    intros [= <-]. simpl. eauto.
  - unfold moveSubtree.
    destruct (employees_get s A) as [a|b|], (employees_get s B) as [a'|b'|];
      try (by intros [=]).
    + destruct (bool_decide _); [by intros [=]|].
      destruct (bool_decide _); [by intros [=]|].
      destruct (_isDescendant _ _ _ _) as [[]|]; [by intros [=]| |done].
      destruct (pushState s) as [s'|] eqn:Hp; [|done].
      destruct (_updateLevels _ _ _ _); [|done].
      intros [= <-]. apply pushState_history in Hp as (snap & Hsnap & ->). simpl. eauto.
    + destruct (bool_decide _); by intros [=].
Qed.

Lemma mutation_snapshot_witness :
  outcome add_cy chart2 = Some (true, default chart2 (apply_op add_cy chart2)) /\
  exists snap,
    history (default chart2 (apply_op add_cy chart2)) = history chart2 ++ [snap] /\
    future (default chart2 (apply_op add_cy chart2)) = [] /\
    _serializeOrg chart2 = Some snap.
Proof.
  assert (outcome add_cy chart2 = Some (true, default chart2 (apply_op add_cy chart2))) as H
    by (vm_compute; reflexivity).
  split; [exact H|].
  exact (mutation_snapshot add_cy chart2 _ H).
Defined.

(** ** The guard that compares references *)

Lemma part001_isDescendant_loop fuel h candidate (cs : list shape) :
  Forall (fun c => Part001._isDescendant fuel h (top c) candidate =
                   Some (bool_decide (candidate ∈ below c))) cs ->
  (fix loop (rs : list loc) : option bool :=
     match rs with
     | [] => Some false
     | r :: rs' =>
         if decide (r = candidate) then Some true
         else match Part001._isDescendant fuel h r candidate with
              | None => None
              | Some true => Some true
              | Some false => loop rs'
              end
     end) (top <$> cs) =
  Some (bool_decide (candidate ∈ cs ≫= locs)).
Proof.
  induction 1 as [|c cs Hc _ IH].
  - rewrite bool_decide_false; [done|]. simpl. apply not_elem_of_nil.
  - rewrite fmap_cons, bind_cons.
    destruct c as [l ccs]. simpl top. simpl locs.
    destruct (decide (l = candidate)) as [->|Hne].
    + rewrite bool_decide_true; [done|]. apply list_elem_of_here.
    + simpl top in Hc. rewrite Hc.
      destruct (bool_decide (candidate ∈ below (Node l ccs))) eqn:Hin.
      * apply bool_decide_eq_true in Hin. rewrite bool_decide_true; [done|].
        apply elem_of_app. left. by apply list_elem_of_further.
      * apply bool_decide_eq_false in Hin. rewrite IH. apply f_equal, bool_decide_ext.
        rewrite elem_of_app, elem_of_cons. split; [by auto|].
        intros [[?|?]|?]; [congruence|done|done].
Qed.

Lemma part001_isDescendant_spec fuel h p u candidate :
  links_ok h p u -> height u <= fuel ->
  Part001._isDescendant fuel h (top u) candidate = Some (bool_decide (candidate ∈ below u)).
Proof.
  revert fuel p. induction u as [l cs IH] using shape_ind'. intros fuel p Hok Hf.
  apply links_ok_inv in Hok as (Hl & Hm & Hr & Hcs).
  destruct fuel as [|fuel]; [simpl in Hf; lia|].
  simpl. rewrite Hr. destruct cs as [|c0 cs0]; [done|].
  rewrite length_fmap. cbn [length Nat.eqb]. apply part001_isDescendant_loop.
  rewrite Forall_forall in IH, Hcs. apply Forall_forall. intros c Hc.
  eapply IH; [done|by apply Hcs|].
  pose proof (height_child l (c0 :: cs0) c Hc). simpl in *. lia.
Qed.

(** On a valid chart the two guards reject the same moves. *)
Lemma part001_moveSubtree_rejects s A B a b :
  valid s ->
  dict_get (employees s) A = Some a -> dict_get (employees s) B = Some b ->
  B = A \/ descendant (mem s) a b ->
  Part001.moveSubtree A B s = Some (false, s).
Proof.
  intros [t Hv] HA HB Hrej.
  pose proof (proj1 (dict_ok_get _ _ _ _ _ (valid_dict _ _ Hv)) HA) as [Ha HidA].
  destruct (subtree_at_Some a t Ha) as [u Hu].
  pose proof (subtree_at_top _ _ _ Hu) as Htu.
  pose proof (subtree_links _ _ _ _ _ (valid_links _ _ Hv) Hu) as Hul.
  apply (cycle_condition s t A B a b u Hv HA HB Hu) in Hrej.
  unfold Part001.moveSubtree.
  rewrite (employees_get_Found _ _ _ HA), (employees_get_Found _ _ _ HB).
  destruct (bool_decide (root s = Some a)); [done|].
  destruct (decide (a = b)) as [->|Hab]; [by rewrite bool_decide_true|].
  rewrite bool_decide_false by done.
  rewrite <- Htu, (part001_isDescendant_spec _ _ _ u b Hul).
  - rewrite bool_decide_true; [done|].
    apply locs_top_or_below in Hrej as [Hb|Hb]; [congruence|done].
  - unfold recursion_limit.
    pose proof (height_le_heap _ _ _ Hul (subtree_NoDup _ _ _ (valid_nodup _ _ Hv) Hu)). lia.
Qed.

(** Two names that every object inherits stand for two values. *)
Lemma builtin_values_differ s t A B :
  valid_tree s t -> builtin_name s A -> builtin_name s B -> A <> B ->
  exists a b, employees_get s A = Other a /\ employees_get s B = Other b /\ a <> b.
Proof.
  intros Hv [HA HinA] [HB HinB] Hne.
  rewrite !(employees_get_plain s _ (valid_no_proto s t Hv)), HA, HB.
  rewrite (bool_decide_eq_true_2 (A ∈ object_prototype_keys)) by done.
  rewrite (bool_decide_eq_true_2 (B ∈ object_prototype_keys)) by done.
  repeat case_bool_decide; eexists _, _; (split; [done|split; [done|congruence]]).
Qed.

(** X5.  the two cycle guards.  On a valid chart [moveSubtree] of the older
    variant, which compares object references, does exactly what the one
    that compares ids does, for two ids of which one at least is not a
    name every object inherits, and for the same inherited name twice.
    For two different inherited names, [constructor] and [toString] say,
    they differ: neither value has an [id], so the guard on ids takes the
    two for the same and the call returns [false], while the guard on
    references goes on and throws. *)
Theorem part001_moveSubtree_agrees (s : OrgChart) (A B : string) :
  valid s ->
  (~ (builtin_name s A /\ builtin_name s B /\ A <> B) ->
     Part001.moveSubtree A B s = moveSubtree A B s) /\
  (builtin_name s A -> builtin_name s B -> A <> B ->
     moveSubtree A B s = Some (false, s) /\ Part001.moveSubtree A B s = None).
Proof.
  intros [t Hv]. split.
  2:{ intros HbA HbB Hne.
      destruct (builtin_values_differ s t A B Hv HbA HbB Hne) as (a & b & HA & HB & Hab).
      unfold Part001.moveSubtree, moveSubtree. rewrite HA, HB.
      split; [done|]. by rewrite bool_decide_eq_false_2. }
  intros Hsame. unfold Part001.moveSubtree, moveSubtree.
  destruct (employees_get s A) as [a|ba|] eqn:HA; [| |done].
  2:{ destruct (employees_get s B) as [b|bb|] eqn:HB; [done| |done].
      destruct (decide (A = B)) as [->|Hne].
      - assert (ba = bb) as -> by congruence. by rewrite bool_decide_eq_true_2.
      - exfalso. apply Hsame. split; [|split; [|done]].
        + apply (employees_get_valid_Other s t A Hv). by eexists.
        + apply (employees_get_valid_Other s t B Hv). by eexists. }
  destruct (employees_get s B) as [b|bb|] eqn:HB; [|done|done].
  apply (employees_get_valid s t A a Hv) in HA.
  apply (employees_get_valid s t B b Hv) in HB.
  destruct (bool_decide (root s = Some a)) eqn:Hroot; [done|].
  apply bool_decide_eq_false in Hroot.
  assert (a <> top t) as Htop by (rewrite (valid_root _ _ Hv) in Hroot; congruence).
  pose proof (proj1 (dict_ok_get _ _ _ _ _ (valid_dict _ _ Hv)) HA) as [Ha HidA].
  destruct (subtree_at_Some a t Ha) as [u Hu].
  destruct (moveSubtree_guard s t A B a b u Hv HA HB Hu Htop) as [-> ->].
  destruct (bool_decide (a = b)); [done|].
  pose proof (subtree_links _ _ _ _ _ (valid_links _ _ Hv) Hu) as Hul.
  rewrite <- (subtree_at_top _ _ _ Hu) at 1.
  rewrite (part001_isDescendant_spec _ _ _ u b Hul).
  2:{ unfold recursion_limit.
      pose proof (height_le_heap _ _ _ Hul (subtree_NoDup _ _ _ (valid_nodup _ _ Hv) Hu)). lia. }
  destruct (bool_decide (b ∈ below u)); [done|].
  rewrite (valid_pushState s t Hv). cbn [mem set_future set_history].
  assert (a ∈ below t) as Habelow by (apply locs_top_or_below in Ha as [?|?]; done).
  destruct (links_parent _ _ _ _ (valid_links _ _ Hv) Habelow) as (P & HP & HPin & _).
  rewrite (detach_eq (mem s) (employees s) t a P (valid_links _ _ Hv) (valid_dict _ _ Hv) Ha HP HPin).
  unfold Part001.detach. by rewrite HP.
Qed.

Lemma part001_moveSubtree_agrees_witness :
  valid chart3 /\
  Part001.moveSubtree "u2" "u3" chart3 = moveSubtree "u2" "u3" chart3 /\
  moveSubtree "constructor" "toString" chart3 = Some (false, chart3) /\
  Part001.moveSubtree "constructor" "toString" chart3 = None.
Proof.
  split; [exact valid_chart3|]. split.
  - apply (part001_moveSubtree_agrees chart3 "u2" "u3" valid_chart3).
    intros [[H _] _]. vm_compute in H. discriminate.
  - apply (part001_moveSubtree_agrees chart3 "constructor" "toString" valid_chart3).
    + split; [vm_compute; reflexivity|]. apply (bool_decide_unpack _). vm_compute. exact I.
    + split; [vm_compute; reflexivity|]. apply (bool_decide_unpack _). vm_compute. exact I.
    + discriminate.
Defined.

(** ** [editEmployee] on a member *)

Lemma update_twice a f g (h : list Employee) :
  update a g (update a f h) = update a (fun e => g (f e)) h.
Proof.
  unfold update. destruct (decide (a < length h)) as [Hlt|Hge].
  - rewrite list_lookup_total_insert, decide_True by done.
    by rewrite list_insert_insert_eq.
  - rewrite !(list_insert_ge h a) by lia. done.
Qed.

(** X6.  [editEmployee].  For a member [editEmployee] returns [true] and
    changes that one object alone, in its six text fields alone: each
    becomes the trimmed new value, or stays when the new value is absent,
    not a string, or blank.  Ids, managers, reports, levels, [root] and
    [employees] are as before and the chart is still valid. *)
Theorem editEmployee_spec (i : string) (p : patch) (s : OrgChart) (x : loc) :
  valid s -> dict_get (employees s) i = Some x ->
  exists s',
    editEmployee i p s = Some (true, s') /\
    valid s' /\ root s' = root s /\ employees s' = employees s /\
    (let e := mem s !!! x in
     mem s' !!! x =
     mkEmployee (id e) (patched (p_name p) (name e)) (patched (p_title p) (title e))
                (patched (p_lob p) (lob e)) (patched (p_division p) (division e))
                (patched (p_dept p) (dept e)) (patched (p_email p) (email e))
                (manager e) (reports e) (level e)) /\
    forall y, y <> x -> mem s' !!! y = mem s !!! y.
Proof.
  intros [t Hv] Hx.
  assert (~ builtin_name s i) as Hnb by (intros [Hnone _]; congruence).
  destruct (editEmployee_valid i p s t Hv Hnb) as (b & s' & Hrun & Hv').
  pose proof (proj1 (dict_ok_get _ _ _ _ _ (valid_dict _ _ Hv)) Hx) as [Hin _].
  unfold editEmployee in Hrun.
  rewrite (employees_get_Found _ _ _ Hx), (valid_pushState s t Hv) in Hrun.
  cbn [mem set_future set_history] in Hrun. rewrite !update_twice in Hrun.
  injection Hrun as <- <-.
  assert (x < length (mem s)) as Hb
    by (eapply links_ok_bound; [apply (valid_links _ _ Hv)|done]).
  eexists. split.
  { unfold editEmployee. rewrite (employees_get_Found _ _ _ Hx), (valid_pushState s t Hv).
    cbn [mem set_future set_history]. rewrite !update_twice. reflexivity. }
  split; [by exists t|]. split; [done|]. split; [done|]. split.
  - simpl. rewrite update_eq by done. by destruct (mem s !!! x).
  - intros y Hy. simpl. by rewrite update_ne.
Qed.

Lemma editEmployee_spec_witness :
  valid chart3 /\
  exists s',
    editEmployee "u2" (mkPatch (Some " Cyrus ") None None None None (Some "  ")) chart3
      = Some (true, s') /\
    valid s' /\ root s' = root chart3 /\ employees s' = employees chart3 /\
    mem s' !!! 2 = mkEmployee "u2" "Cyrus" "Eng" "" "" "" "" (Some 1) [] 2 /\
    forall y, y <> 2 -> mem s' !!! y = mem chart3 !!! y.
Proof.
  split; [exact valid_chart3|].
  assert (dict_get (employees chart3) "u2" = Some 2) as H by (vm_compute; reflexivity).
  exact (editEmployee_spec "u2" (mkPatch (Some " Cyrus ") None None None None (Some "  "))
           chart3 2 valid_chart3 H).
Defined.

(** ** [removeEmployee] and the reports of the removed member *)

Lemma orphan_loop_other (rs : list nat) : forall (h : list Employee) y,
  y ∉ rs -> fold_left (fun h r => update r (set_manager None) h) rs h !!! y = h !!! y.
Proof.
  induction rs as [|r rs IH]; intros h y Hy; simpl; [done|].
  apply not_elem_of_cons in Hy as [Hne Hy]. rewrite IH by done. by rewrite update_ne.
Qed.

(** X7.  removal without reassignment.  When a member other than the root
    is removed and no new manager is named, or the id named is neither in
    [employees] nor a name every object inherits, each of its direct
    reports stays in [employees], with no manager and with the level it
    had.  If there was such a report the
    chart now has a second member without manager, at a level that is not
    0: invariants 1 and 3 are broken. *)
Theorem removeEmployee_orphans (s : OrgChart) (i : string) (v : jsval) (x : loc) :
  valid s -> dict_get (employees s) i = Some x -> root s <> Some x ->
  truthy v = false \/ unknown_id s (to_key v) ->
  exists s',
    removeEmployee i v s = Some (true, s') /\
    dict_get (employees s') i = None /\
    (forall r, r ∈ reports (mem s !!! x) ->
       member s' r /\ manager (mem s' !!! r) = None /\
       level (mem s' !!! r) = level (mem s !!! r) /\ level (mem s' !!! r) <> 0) /\
    (reports (mem s !!! x) <> [] -> ~ single_root s' /\ ~ levels_consistent s').
Proof.
  intros [t Hv] Hx Hroot Hnone.
  pose proof (proj1 (dict_ok_get _ _ _ _ _ (valid_dict _ _ Hv)) Hx) as [Hin Hid].
  assert (x <> top t) as Htop by (rewrite (valid_root _ _ Hv) in Hroot; congruence).
  destruct (orphan_loop (reports (mem s !!! x)) (mem s) (reports_in_bounds s t x Hv Hin))
    as (Hlen & Hrs & Hsame).
  pose proof (orphan_loop_other (reports (mem s !!! x)) (mem s)) as Hother.
  set (hk := fold_left (fun h r => update r (set_manager None) h)
                       (reports (mem s !!! x)) (mem s)) in *.
  destruct (detach_fields x hk) as (Hlend & Hdet).
  assert (forall r, r ∈ reports (mem s !!! x) ->
            r ∈ locs t /\ r <> x /\ r <> top t /\
            level (mem s !!! r) = level (mem s !!! x) + 1) as Hrep.
  { intros r Hr.
    destruct (links_report_manager _ _ _ x r (valid_links _ _ Hv) Hin Hr) as [Hm Hb].
    destruct (levels_below _ _ _ _ _ (valid_links _ _ Hv) (valid_levels _ _ Hv) Hb)
      as (m & Hm' & Hl).
    assert (m = x) as -> by congruence.
    split; [by apply below_in_locs|]. split; [|split; [|done]].
    - intros ->. destruct (subtree_at_Some x t Hin) as [u Hu].
      apply (parent_not_in_subtree _ _ _ _ _ _ (valid_links _ _ Hv) (valid_nodup _ _ Hv)
               Hb Hu Hm).
      rewrite <- (subtree_at_top _ _ _ Hu) at 1. apply top_in_locs.
    - intros ->. rewrite (links_ok_top_manager _ _ _ (valid_links _ _ Hv)) in Hm. done. }
  set (s' := set_employees (dict_delete (employees s) i)
               (set_mem (detach x hk)
                  (set_future [] (set_history (history s ++ [doc_of (mem s) t]) s)))).
  assert (forall y, y ∈ locs t -> y <> x -> member s' y) as Hmemb.
  { intros y Hy Hyx. unfold member. simpl.
    assert (i <> "__proto__") as Hip by (rewrite <- Hid; by apply (valid_own _ _ Hv)).
    apply elem_of_dict_values. exists (id (mem s !!! y)).
    split; [|by apply (valid_own _ _ Hv)].
    apply dict_delete_elem; [done|]. split.
    - by apply (proj2 (valid_dict _ _ Hv)).
    - intros Heq. apply Hyx.
      eapply dict_ok_inj; [apply (valid_dict _ _ Hv)|done|done|congruence]. }
  exists s'. split; [|split; [|split]].
  - unfold removeEmployee.
    rewrite (remove_root_check s t i x Hv Hx), bool_decide_false by done.
    rewrite (employees_get_Found _ _ _ Hx), (valid_pushState s t Hv).
    cbn [mem set_future set_history employees].
    assert (forall s0, mem s0 = mem s -> employees s0 = employees s ->
              (if truthy v then employees_get s0 (to_key v) else Falsy) = Falsy) as ->.
    { intros s0 Hm He. destruct Hnone as [->|Hun]; [done|]. destruct (truthy v); [|done].
      rewrite (employees_get_ext s s0) by done.
      by apply (employees_get_valid_Falsy s t). }
    all: reflexivity.
  - simpl. apply dict_get_delete. rewrite <- Hid. by apply (valid_own _ _ Hv).
  - intros r Hr. destruct (Hrep r Hr) as (Hrt & Hrx & _ & Hlv). simpl.
    destruct (Hdet r) as (_ & -> & ->). destruct (Hsame r) as [_ ->].
    split; [by apply Hmemb|]. split; [by apply Hrs|]. split; [done|lia].
  - intros Hne. destruct (reports (mem s !!! x)) as [|r rs] eqn:Hreports; [done|].
    assert (r ∈ r :: rs) as Hr by apply list_elem_of_here.
    destruct (Hrep r Hr) as (Hrt & Hrx & Hrtop & Hlv).
    assert (manager (mem s' !!! r) = None) as Hmr.
    { simpl. destruct (Hdet r) as (_ & -> & _). by apply Hrs. }
    assert (level (mem s' !!! r) = level (mem s !!! x) + 1) as Hlr.
    { simpl. destruct (Hdet r) as (_ & _ & ->). destruct (Hsame r) as [_ ->]. done. }
    split.
    + intros [Hempty|(r0 & _ & _ & Huniq)].
      * pose proof (Hmemb r Hrt Hrx) as Hm. unfold member in Hm. rewrite Hempty in Hm.
        by apply elem_of_nil in Hm.
      * assert (manager (mem s' !!! top t) = None) as Hmt.
        { simpl. destruct (Hdet (top t)) as (_ & -> & _).
          rewrite Hother.
          - apply (links_ok_top_manager _ _ _ (valid_links _ _ Hv)).
          - intros Hin'. by destruct (Hrep _ Hin') as (_ & _ & ? & _). }
        pose proof (Huniq r (Hmemb r Hrt Hrx) Hmr).
        pose proof (Huniq (top t) (Hmemb (top t) (top_in_locs t) ltac:(done)) Hmt).
        congruence.
    + intros Hcons. specialize (Hcons r (Hmemb r Hrt Hrx)).
      rewrite Hmr, Hlr in Hcons. lia.
Qed.

Lemma removeEmployee_orphans_witness :
  valid chart3 /\
  exists s',
    removeEmployee "u1" JNull chart3 = Some (true, s') /\
    dict_get (employees s') "u1" = None /\
    (forall r, r ∈ reports (mem chart3 !!! 1) ->
       member s' r /\ manager (mem s' !!! r) = None /\
       level (mem s' !!! r) = level (mem chart3 !!! r) /\ level (mem s' !!! r) <> 0) /\
    (reports (mem chart3 !!! 1) <> [] -> ~ single_root s' /\ ~ levels_consistent s').
Proof.
  split; [exact valid_chart3|].
  assert (dict_get (employees chart3) "u1" = Some 1) as H1 by (vm_compute; reflexivity).
  assert (root chart3 <> Some 1) as Hr by (vm_compute; discriminate).
  exact (removeEmployee_orphans chart3 "u1" JNull 1 valid_chart3 H1 Hr (or_introl eq_refl)).
Defined.

(** X8.  removal with reassignment.  When a member other than the root is
    removed and its reports are handed to a member outside its subtree
    that is at its own level, or when those reports have no reports of
    their own, the chart is valid again and satisfies invariants 1-4. *)
Theorem removeEmployee_reassign_keeps_valid (s : OrgChart) (i : string) (v : jsval)
    (a x : loc) :
  valid s -> dict_get (employees s) i = Some a -> root s <> Some a ->
  truthy v = true -> dict_get (employees s) (to_key v) = Some x ->
  x <> a -> ~ descendant (mem s) a x ->
  level (mem s !!! x) = level (mem s !!! a) \/
  (forall r, r ∈ reports (mem s !!! a) -> reports (mem s !!! r) = []) ->
  exists s', removeEmployee i v s = Some (true, s') /\ valid s' /\ invariants s' /\
             dict_get (employees s') i = None.
Proof.
  intros [t Hv] Hget Hroot Htr Hx Hxa Hnd Hlvl.
  assert (a <> top t) as Htop by (rewrite (valid_root _ _ Hv) in Hroot; congruence).
  destruct (removeEmployee_reassign i v s t a x Hv Hget Htop Htr Hx Hxa Hnd Hlvl)
    as (s' & Hrun & Hv').
  exists s'. split; [done|]. split; [done|]. split; [by apply valid_invariants|].
  unfold removeEmployee in Hrun.
  rewrite (remove_root_check s t i a Hv Hget), bool_decide_false in Hrun by done.
  rewrite (employees_get_Found _ _ _ Hget), (valid_pushState s t Hv) in Hrun.
  cbn [mem set_future set_history employees] in Hrun.
  rewrite (employees_get_ext s) in Hrun by done.
  rewrite Htr, (employees_get_Found _ _ _ Hx) in Hrun.
  injection Hrun as <-. simpl. apply dict_get_delete.
  pose proof (proj1 (dict_ok_get _ _ _ _ _ (valid_dict _ _ Hv)) Hget) as [Hin Hid].
  rewrite <- Hid. by apply (valid_own _ _ Hv).
Qed.

Lemma removeEmployee_reassign_keeps_valid_witness :
  valid chart3 /\
  exists s', removeEmployee "u1" (JString "u0") chart3 = Some (true, s') /\
             valid s' /\ invariants s' /\ dict_get (employees s') "u1" = None.
Proof.
  split; [exact valid_chart3|].
  assert (dict_get (employees chart3) "u1" = Some 1) as H1 by (vm_compute; reflexivity).
  assert (dict_get (employees chart3) (to_key (JString "u0")) = Some 0) as H0
    by (vm_compute; reflexivity).
  assert (root chart3 <> Some 1) as Hr by (vm_compute; discriminate).
  assert (~ descendant (mem chart3) 1 0) as Hnd.
  { intros H. inversion H as [? ? Hin|? r ? Hin Hd]; subst.
    - vm_compute in Hin.
      repeat (apply elem_of_cons in Hin as [Hin|Hin]; [discriminate Hin|]). inversion Hin.
    - vm_compute in Hin.
      repeat (apply elem_of_cons in Hin as [->|Hin];
              [inversion Hd as [? ? Hin'|? ? ? Hin' _]; subst; vm_compute in Hin'; inversion Hin'|]).
      inversion Hin. }
  assert (forall r, r ∈ reports (mem chart3 !!! 1) -> reports (mem chart3 !!! r) = []) as Hl.
  { intros r Hin. vm_compute in Hin.
    repeat (apply elem_of_cons in Hin as [->|Hin]; [reflexivity|]). inversion Hin. }
  exact (removeEmployee_reassign_keeps_valid chart3 "u1" (JString "u0") 1 0 valid_chart3
           H1 Hr eq_refl H0 ltac:(discriminate) Hnd (or_intror Hl)).
Defined.

(* ================================================================== *)
(** * Part 5.  The CSV import on any list of records                    *)
(* ================================================================== *)

(** X9.  [importFromCSV] on any records.  On a valid chart, with the
    generated ids new and distinct, the import of a non-empty list of
    records returns [true] and leaves a valid chart.  Its [while] loop is
    left with its condition false (the passes are not cut short), and each
    record that is still pending then has a name and a title and names a
    manager that no member of the final chart is called: no record that
    could be placed is left out.  The chart has one new member for each id
    generated, and the records with name and title are those imported and
    those still pending.  Names are compared in lower case, [fold] being
    the lower-casing of those that are not plain ASCII. *)
Theorem importFromCSV_resolves (fold : string -> string) (uuid : nat -> string)
    (rows : list csv_row) (s : OrgChart) :
  valid s ->
  (forall j k, uuid j = uuid k -> j = k) ->
  (forall k, uuid k <> "" /\ uuid k <> "__proto__" /\
             dict_get (employees s) (uuid k) = None) ->
  rows <> [] ->
  exists s0 st,
    pushState s = Some s0 /\
    csv_while fold uuid (S (length rows)) (mkCsv s0 (normalize <$> rows) true 0)
      = Running st /\
    importFromCSV fold uuid rows s = (true, chart st) /\
    valid (chart st) /\ invariants (chart st) /\
    (pending st = [] \/ addedAny st = false) /\
    Forall (unresolved fold (chart st)) (pending st) /\
    length (employees (chart st)) = length (employees s) + minted st /\
    minted st + length (pending st) =
      length (filter (fun p => has_name_title p = true) (normalize <$> rows)).
Proof.
  intros Hv Hinj Hfresh Hrows.
  destruct (importFromCSV_run fold uuid rows s Hv Hinj Hfresh Hrows)
    as (s0 & st & Hpush & Hrun & Himp & _ & Hinv & Hexit & Hun).
  destruct (csv_inv_end _ _ _ _ _ _ Hinv Hun) as [_ Hcount].
  exists s0, st. destruct Hinv as [Hvalid _ Hsize _ _].
  split; [done|]. split; [done|]. split; [done|]. split; [done|].
  split; [by apply valid_invariants|]. done.
Qed.

Lemma importFromCSV_resolves_witness :
  valid ceo_chart /\
  exists s0 st,
    pushState ceo_chart = Some s0 /\
    csv_while (fun x => x) tally 5
      (mkCsv s0 (normalize <$> [row_eng; row_ghost; row_vp; row_ceo]) true 0)
      = Running st /\
    importFromCSV (fun x => x) tally [row_eng; row_ghost; row_vp; row_ceo] ceo_chart
      = (true, chart st) /\
    valid (chart st) /\ invariants (chart st) /\
    (pending st = [] \/ addedAny st = false) /\
    Forall (unresolved (fun x => x) (chart st)) (pending st) /\
    length (employees (chart st)) = length (employees ceo_chart) + minted st /\
    minted st + length (pending st) =
      length (filter (fun p => has_name_title p = true)
                     (normalize <$> [row_eng; row_ghost; row_vp; row_ceo])).
Proof.
  split; [exact valid_ceo_chart|].
  exact (importFromCSV_resolves (fun x => x) tally [row_eng; row_ghost; row_vp; row_ceo]
           ceo_chart valid_ceo_chart tally_inj tally_fresh ltac:(discriminate)).
Defined.

(* ================================================================== *)
(** * Part 6.  Files                                                    *)
(* ================================================================== *)

(** X11.  a chart saved and loaded again.  The document [exportToJSON]
    writes for a valid chart, loaded by [importFromJSON] into any chart,
    gives a valid chart with the same members: same ids, fields, managers,
    reports and levels.  The load adds one snapshot to [history], so it
    cannot be undone when [history] was empty before. *)
Theorem export_then_import (s s0 : OrgChart) :
  valid s ->
  exists doc s',
    exportToJSON s = Some doc /\
    importFromJSON (Document doc) s0 = (true, s') /\
    valid s' /\ (forall i, view s' i = view s i) /\
    exportToJSON s' = Some doc /\
    history s' = history s0 ++ [doc] /\ future s' = [] /\
    (history s0 = [] -> undo s' = (false, s')).
Proof.
  intros [t Hv]. exists (doc_of (mem s) t).
  destruct (loadSnapshot_valid s t s0 Hv) as (Hv' & Hdoc & Hh & Hf & _).
  cbv zeta in Hv', Hdoc, Hh, Hf.
  set (doc := doc_of (mem s) t) in *.
  set (s1 := _loadSnapshot doc s0) in *.
  set (t' := shape_of_doc (length (mem s0)) doc) in *.
  pose proof (valid_pushState s1 t' Hv') as Hpush. rewrite Hdoc in Hpush.
  set (s' := set_future [] (set_history (history s1 ++ [doc]) s1)) in *.
  assert (valid_tree s' t') as Hv'' by (by eapply valid_tree_ext; [..|apply Hv']).
  exists s'. split; [|split; [|split; [|split; [|split; [|split; [|split]]]]]].
  - unfold exportToJSON. rewrite (valid_root _ _ Hv). by apply valid_prepareForExport.
  - unfold importFromJSON.
    change ((_recreateFromJSON doc None (set_employees [] s0)).1) with s1.
    by rewrite Hpush.
  - by exists t'.
  - apply (same_doc_view_eq s t s' t' Hv Hv''). exact Hdoc.
  - unfold exportToJSON. rewrite (valid_root _ _ Hv'').
    rewrite (valid_prepareForExport _ _ Hv''). simpl. by rewrite Hdoc.
  - simpl. by rewrite Hh.
  - done.
  - intros Hempty. unfold undo. simpl. by rewrite Hh, Hempty.
Qed.

Lemma export_then_import_witness :
  valid chart3 /\
  exists doc s',
    exportToJSON chart3 = Some doc /\
    importFromJSON (Document doc) new_OrgChart = (true, s') /\
    valid s' /\ (forall i, view s' i = view chart3 i) /\
    exportToJSON s' = Some doc /\
    history s' = history new_OrgChart ++ [doc] /\ future s' = [] /\
    (history new_OrgChart = [] -> undo s' = (false, s')).
Proof.
  split; [exact valid_chart3|].
  exact (export_then_import chart3 new_OrgChart valid_chart3).
Defined.

(* ================================================================== *)
(** * Part 7.  The menus                                                *)
(* ================================================================== *)

Lemma employeeChoices_ids s i :
  i ∈ (employeeChoices s).*2 <->
  exists l, member s l /\ root s <> Some l /\ id (mem s !!! l) = i.
Proof.
  unfold employeeChoices. rewrite <- list_fmap_compose. rewrite list_elem_of_fmap. split.
  - intros (l & -> & Hl). apply list_elem_of_filter in Hl as [Hr Hl]. by exists l.
  - intros (l & Hl & Hr & <-). exists l. split; [done|]. by apply list_elem_of_filter.
Qed.

Lemma managerChoices_ids s A i :
  i ∈ (managerChoices A s).*2 <->
  exists l, member s l /\ id (mem s !!! l) <> A /\ id (mem s !!! l) = i.
Proof.
  unfold managerChoices. rewrite <- list_fmap_compose. rewrite list_elem_of_fmap. split.
  - intros (l & -> & Hl). apply list_elem_of_filter in Hl as [Hr Hl]. by exists l.
  - intros (l & Hl & Hr & <-). exists l. split; [done|]. by apply list_elem_of_filter.
Qed.

Lemma member_lookup s t l :
  valid_tree s t -> member s l -> dict_get (employees s) (id (mem s !!! l)) = Some l.
Proof.
  intros Hv Hl. apply (dict_ok_get _ _ _ _ _ (valid_dict _ _ Hv)). split; [|done].
  by apply (valid_member s t).
Qed.

(** X12.  the move dialog.  On a valid chart the menu offers for moving the
    ids of all members but the root, and as new manager the ids of all
    members but the one chosen.  A move made from these two lists is never
    refused for an unknown id, for the root or for moving under itself: it
    is refused exactly when the new manager is a descendant of the
    employee, and goes through, with a valid chart, otherwise. *)
Theorem menu_move (s : OrgChart) (A B : string) :
  valid s ->
  A ∈ (employeeChoices s).*2 -> B ∈ (managerChoices A s).*2 ->
  exists a b,
    dict_get (employees s) A = Some a /\ dict_get (employees s) B = Some b /\
    (descendant (mem s) a b -> moveSubtree A B s = Some (false, s)) /\
    (~ descendant (mem s) a b ->
     exists s', moveSubtree A B s = Some (true, s') /\ valid s').
Proof.
  intros [t Hv] HA HB.
  apply employeeChoices_ids in HA as (a & Ha & Hroot & <-).
  apply managerChoices_ids in HB as (b & Hb & Hne & <-).
  pose proof (member_lookup s t a Hv Ha) as HgetA.
  pose proof (member_lookup s t b Hv Hb) as HgetB.
  exists a, b. split; [done|]. split; [done|].
  assert (a ∈ locs t) as Hat by (by apply (valid_member s t)).
  destruct (subtree_at_Some a t Hat) as [u Hu].
  pose proof (cycle_condition s t _ _ a b u Hv HgetA HgetB Hu) as Hiff.
  split.
  - intros Hd. eapply moveSubtree_reject; [done..|]. right. apply Hiff. by right.
  - intros Hnd.
    assert (a <> top t) as Htop by (rewrite (valid_root _ _ Hv) in Hroot; congruence).
    destruct (moveSubtree_accept s t _ _ a b u Hv HgetA HgetB Hu Htop) as (s' & Hrun & Hv' & _).
    { intros Hin. apply Hiff in Hin as [?|?]; done. }
    exists s'. split; [done|by eexists].
Qed.

Lemma menu_move_witness :
  valid chart3 /\ "u2" ∈ (employeeChoices chart3).*2 /\ "u3" ∈ (managerChoices "u2" chart3).*2 /\
  exists a b,
    dict_get (employees chart3) "u2" = Some a /\ dict_get (employees chart3) "u3" = Some b /\
    (descendant (mem chart3) a b -> moveSubtree "u2" "u3" chart3 = Some (false, chart3)) /\
    (~ descendant (mem chart3) a b ->
     exists s', moveSubtree "u2" "u3" chart3 = Some (true, s') /\ valid s').
Proof.
  assert ("u2" ∈ (employeeChoices chart3).*2) as HA by (vm_compute; elem_tac).
  assert ("u3" ∈ (managerChoices "u2" chart3).*2) as HB by (vm_compute; elem_tac).
  split; [exact valid_chart3|]. split; [exact HA|]. split; [exact HB|].
  exact (menu_move chart3 "u2" "u3" valid_chart3 HA HB).
Defined.

(** X13.  the remove dialog.  On a valid chart the removal of an employee
    taken from the list the menu offers (the members without the root) is
    never refused, whether the reports are not reassigned ([null]) or the
    new manager is taken from the list the menu then offers.  That list
    holds every direct report of the employee chosen: the menu does not
    keep the reports from being handed to one of themselves. *)
Theorem menu_remove (s : OrgChart) (A : string) (newManagerId : jsval) :
  valid s ->
  A ∈ (employeeChoices s).*2 ->
  newManagerId = JNull \/
  (exists B, newManagerId = JString B /\ B ∈ (managerChoices A s).*2) ->
  exists a s',
    dict_get (employees s) A = Some a /\
    removeEmployee A newManagerId s = Some (true, s') /\
    dict_get (employees s') A = None /\
    forall r, r ∈ reports (mem s !!! a) -> id (mem s !!! r) ∈ (managerChoices A s).*2.
Proof.
  intros [t Hv] HA Hnew.
  apply employeeChoices_ids in HA as (a & Ha & Hroot & <-).
  pose proof (member_lookup s t a Hv Ha) as Hget.
  assert (a ∈ locs t) as Hat by (by apply (valid_member s t)).
  assert (a <> top t) as Htop by (rewrite (valid_root _ _ Hv) in Hroot; congruence).
  assert (id (mem s !!! a) <> "__proto__") as Hown by (by apply (valid_own _ _ Hv)).
  assert (exists s', removeEmployee (id (mem s !!! a)) newManagerId s = Some (true, s') /\
                     employees s' = dict_delete (employees s) (id (mem s !!! a)))
    as (s' & Hrun & Hemp).
  { unfold removeEmployee.
    rewrite (remove_root_check s t _ a Hv Hget), bool_decide_false by done.
    rewrite (employees_get_Found _ _ _ Hget), (valid_pushState s t Hv).
    cbn [mem set_future set_history employees].
    destruct Hnew as [->|(B & -> & HB)]; [by eexists|].
    apply managerChoices_ids in HB as (b & Hb & _ & <-).
    assert (b ∈ locs t) as Hbt by (by apply (valid_member s t)).
    assert (truthy (JString (id (mem s !!! b))) = true) as ->.
    { unfold truthy. apply negb_true_iff, bool_decide_eq_false.
      by apply (valid_ids _ _ Hv). }
    rewrite (employees_get_ext s) by done. simpl to_key.
    rewrite (employees_get_Found _ _ _ (member_lookup s t b Hv Hb)).
    by eexists. }
  exists a, s'. split; [done|]. split; [done|]. split.
  - rewrite Hemp. by apply dict_get_delete.
  - intros r Hr. apply managerChoices_ids. exists r.
    destruct (links_report_manager _ _ _ a r (valid_links _ _ Hv) Hat Hr) as [Hm Hb].
    assert (r ∈ locs t) as Hrt by (by apply below_in_locs).
    split; [by apply (valid_member s t)|]. split; [|done].
    intros Heq. assert (r = a) as -> by (by eapply dict_ok_inj; [apply (valid_dict _ _ Hv)|..]).
    destruct (subtree_at_Some a t Hat) as [u Hu].
    apply (parent_not_in_subtree _ _ _ _ _ _ (valid_links _ _ Hv) (valid_nodup _ _ Hv)
             Hb Hu Hm).
    rewrite <- (subtree_at_top _ _ _ Hu) at 1. apply top_in_locs.
Qed.

Lemma menu_remove_witness :
  valid chart3 /\ "u1" ∈ (employeeChoices chart3).*2 /\
  "u2" ∈ (managerChoices "u1" chart3).*2 /\
  exists a s',
    dict_get (employees chart3) "u1" = Some a /\
    removeEmployee "u1" (JString "u2") chart3 = Some (true, s') /\
    dict_get (employees s') "u1" = None /\
    forall r, r ∈ reports (mem chart3 !!! a) ->
              id (mem chart3 !!! r) ∈ (managerChoices "u1" chart3).*2.
Proof.
  assert ("u1" ∈ (employeeChoices chart3).*2) as HA by (vm_compute; elem_tac).
  assert ("u2" ∈ (managerChoices "u1" chart3).*2) as HB by (vm_compute; elem_tac).
  split; [exact valid_chart3|]. split; [exact HA|]. split; [exact HB|].
  exact (menu_remove chart3 "u1" (JString "u2") valid_chart3 HA
           (or_intror (ex_intro _ "u2" (conj eq_refl HB)))).
Defined.

(* ================================================================== *)
(** * Part 8.  Printing                                                 *)
(* ================================================================== *)

(** The loop over the reports, under the line of the parent. *)
Ltac same_walk IH :=
  simpl;
  match goal with
  | |- context [length (reports ?e) - 1] => generalize (length (reports e) - 1)
  end;
  intros n; generalize 0;
  match goal with
  | |- context [reports ?e] => generalize (reports e)
  end;
  let rs := fresh "rs" in let IHrs := fresh "IHrs" in let idx := fresh "idx" in
  intros rs; induction rs as [|r rs IHrs]; intros idx; [done|];
  rewrite IH;
  match goal with
  | |- context [walk ?f ?fu ?h ?r ?p ?b] => destruct (walk f fu h r p b); [|done]
  end;
  specialize (IHrs (S idx));
  repeat match goal with
  | H : context [match ?X with Some _ => _ | None => _ end] |- _ =>
      destruct X; simpl in H
  end;
  congruence.

Lemma printSubtree_walk fuel : forall h node prefix isTail,
  _printSubtree fuel h node prefix isTail = walk plain_text fuel h node prefix isTail.
Proof.
  induction fuel as [|fuel IH]; intros h node prefix isTail; [done|]. same_walk IH.
Qed.

Lemma printNode_walk green blue fuel : forall h node prefix isTail,
  _printNode green blue fuel h node prefix isTail =
  walk (coloured_text green blue) fuel h node prefix isTail.
Proof.
  induction fuel as [|fuel IH]; intros h node prefix isTail; [done|]. same_walk IH.
Qed.

Lemma append_cons x (a b : string) : (String x a ++ b)%string = String x (a ++ b)%string.
Proof. reflexivity. Qed.

Lemma append_assoc' (a b c : string) : ((a ++ b) ++ c)%string = (a ++ b ++ c)%string.
Proof. induction a as [|x a IH]; [done|]. rewrite !append_cons. by f_equal. Qed.

Lemma append_empty_r (a : string) : (a ++ "")%string = a.
Proof. induction a as [|x a IH]; [done|]. rewrite append_cons. by f_equal. Qed.

Lemma cat_snoc bs b : cat (bs ++ [b]) = (cat bs ++ b)%string.
Proof.
  induction bs as [|x bs IH].
  { change (cat ([] ++ [b])) with (b ++ "")%string. rewrite append_empty_r. reflexivity. }
  change (cat ((x :: bs) ++ [b])) with (x ++ cat (bs ++ [b]))%string.
  change (cat (x :: bs)) with (x ++ cat bs)%string.
  by rewrite IH, append_assoc'.
Qed.

Lemma walk_each fmt fuel h childPrefix n d (cs : list shape) :
  Forall (fun c => forall isTail, exists lines,
            walk fmt fuel h (top c) childPrefix isTail = Some lines /\
            Forall2 (line_ok fmt h) lines (nodes_at d c)) cs ->
  forall idx, exists ls,
    (fix each (rs : list loc) (idx : nat) : option (list string) :=
       match rs with
       | [] => Some []
       | report :: rs' =>
           match walk fmt fuel h report childPrefix (idx =? n) with
           | Some ls =>
               match each rs' (S idx) with
               | Some ls' => Some (ls ++ ls')
               | None => None
               end
           | None => None
           end
       end) (top <$> cs) idx = Some ls /\
    Forall2 (line_ok fmt h) ls (cs ≫= nodes_at d).
Proof.
  induction 1 as [|c cs Hc _ IH]; intros idx.
  - exists []. split; [done|constructor].
  - rewrite fmap_cons, bind_cons.
    destruct (Hc (idx =? n)) as (l1 & -> & H1).
    destruct (IH (S idx)) as (l2 & -> & H2).
    exists (l1 ++ l2). split; [done|]. by apply Forall2_app.
Qed.

Lemma walk_spec fmt h u : forall fuel p blocks isTail,
  links_ok h p u -> height u <= fuel -> Forall is_block blocks ->
  exists lines,
    walk fmt fuel h (top u) (cat blocks) isTail = Some lines /\
    Forall2 (line_ok fmt h) lines (nodes_at (length blocks) u).
Proof.
  induction u as [l cs IH] using shape_ind'. intros fuel p blocks isTail Hok Hf Hbl.
  apply links_ok_inv in Hok as (Hl & Hm & Hr & Hcs).
  destruct fuel as [|fuel]; [simpl in Hf; lia|].
  simpl. rewrite Hr.
  set (blk := if isTail then "    " else "│   ").
  assert (is_block blk) as Hblk by (subst blk; destruct isTail; [by left|by right]).
  destruct (walk_each fmt fuel h (cat blocks ++ blk)%string (length (top <$> cs) - 1)
              (S (length blocks)) cs) with (idx := 0) as (ls & -> & Hls).
  { rewrite Forall_forall in IH, Hcs. apply Forall_forall. intros c Hc isTail'.
    rewrite <- cat_snoc.
    replace (S (length blocks)) with (length (blocks ++ [blk]))
      by (rewrite length_app; simpl; lia).
    eapply IH; [done|by apply Hcs| |].
    - pose proof (height_child l cs c Hc). simpl in *. lia.
    - apply Forall_app. split; [done|by apply Forall_singleton]. }
  eexists. split; [done|]. constructor; [|done].
  exists blocks, (if isTail then "└── " else "├── ").
  split; [done|]. split; [done|]. split; [destruct isTail; [by left|by right]|done].
Qed.

Lemma nodes_at_locs t : forall d, (nodes_at d t).*1 = locs t.
Proof.
  induction t as [l cs IH] using shape_ind'. intros d.
  cbn [nodes_at locs]. rewrite fmap_cons. cbn [fst]. f_equal.
  induction IH as [|c cs Hc _ IHcs]; [done|].
  by rewrite !bind_cons, fmap_app, Hc, IHcs.
Qed.

Lemma nodes_at_level h t : forall lvl d x k,
  levels_ok h lvl t -> (x, k) ∈ nodes_at d t -> level (h !!! x) + d = lvl + k.
Proof.
  induction t as [l cs IH] using shape_ind'. intros lvl d x k Hlv Hin.
  apply levels_ok_inv in Hlv as (Hl & Hcs). simpl in Hin.
  apply elem_of_cons in Hin as [[= -> ->]|Hin]; [lia|].
  apply list_elem_of_bind in Hin as (c & Hin & Hc).
  rewrite Forall_forall in IH, Hcs.
  pose proof (IH c Hc (S lvl) (S d) x k (Hcs c Hc) Hin). lia.
Qed.

(** Lines and nodes side by side, the depth read off the levels. *)
Lemma lines_by_level fmt h t lvl d lines :
  levels_ok h lvl t ->
  Forall2 (line_ok fmt h) lines (nodes_at d t) ->
  Forall2 (fun line x => tree_line (fmt (h !!! x)) (level (h !!! x) + d - lvl) line)
          lines (locs t).
Proof.
  intros Hlv Hall. rewrite <- (nodes_at_locs t d). apply Forall2_fmap_r.
  apply Forall2_same_length_lookup_2; [by eapply Forall2_length|].
  intros i line [x k] Hline Hnode.
  pose proof (Forall2_lookup_lr _ _ _ _ _ _ Hall Hline Hnode) as Hok.
  unfold line_ok in Hok. simpl in *.
  pose proof (nodes_at_level h t lvl d x k Hlv (list_elem_of_lookup_2 _ _ _ Hnode)).
  by replace (level (h !!! x) + d - lvl) with k by lia.
Qed.

Lemma dict_values_NoDup s t : valid_tree s t -> NoDup (dict_values (employees s)).
Proof.
  intros Hv. destruct (valid_dict _ _ Hv) as [Hnd Hd].
  rewrite (dict_values_all _ (dict_ok_own _ _ _ (valid_dict _ _ Hv) (valid_own _ _ Hv))).
  apply (NoDup_fmap_1 (fun l => id (mem s !!! l))).
  assert (((fun l => id (mem s !!! l)) <$> (employees s).*2) = (employees s).*1) as ->;
    [|done].
  assert (Forall (fun p => id (mem s !!! p.2) = p.1) (employees s)) as Hall.
  { apply Forall_forall. intros [i l] Hin. by apply Hd in Hin as [_ ?]. }
  clear Hnd Hd. induction Hall as [|[i l] d Hp _ IH]; [done|].
  rewrite !fmap_cons. simpl in *. by rewrite Hp, IH.
Qed.

Lemma dict_values_perm s t : valid_tree s t -> dict_values (employees s) ≡ₚ locs t.
Proof.
  intros Hv. apply NoDup_Permutation.
  - by eapply dict_values_NoDup.
  - apply (valid_nodup _ _ Hv).
  - intros l. apply (valid_member s t l Hv).
Qed.

(** X14.  [print].  Without a root [print] logs the one line that says so.
    On a valid chart it logs one line for each member and no other, the
    root first; the line of a member at level [d] is [d] blocks of
    indentation, a connector, then its name and its title. *)
Theorem print_spec (green blue red : string -> string) (s : OrgChart) :
  (root s = None ->
   print green blue red s = Some [red "Organization chart is empty. Add a CEO first."]) /\
  (valid s ->
   exists lines order,
     print green blue red s = Some lines /\
     order ≡ₚ dict_values (employees s) /\ head order = root s /\
     Forall2 (fun line x => tree_line (coloured_text green blue (mem s !!! x))
                                      (level (mem s !!! x)) line) lines order).
Proof.
  split.
  - intros Hr. unfold print. by rewrite Hr.
  - intros [t Hv].
    destruct (walk_spec (coloured_text green blue) (mem s) t (recursion_limit (mem s)) None [] true
                (valid_links _ _ Hv)) as (lines & Hrun & Hall); [|done|].
    { unfold recursion_limit.
      pose proof (height_le_heap _ _ _ (valid_links _ _ Hv) (valid_nodup _ _ Hv)). lia. }
    exists lines, (locs t). split; [|split; [|split]].
    + unfold print. rewrite (valid_root _ _ Hv), printNode_walk. exact Hrun.
    + symmetry. by apply dict_values_perm.
    + rewrite (valid_root _ _ Hv). by destruct t.
    + pose proof (lines_by_level _ _ _ _ _ _ (valid_levels _ _ Hv) Hall) as H.
      eapply Forall2_impl; [exact H|]. intros line x Hl. simpl in Hl.
      by replace (level (mem s !!! x) + 0 - 0) with (level (mem s !!! x)) in Hl by lia.
Qed.

Lemma print_spec_witness :
  valid chart3 /\
  exists lines order,
    print no_colour no_colour no_colour chart3 = Some lines /\
    order ≡ₚ dict_values (employees chart3) /\ head order = root chart3 /\
    Forall2 (fun line x => tree_line (coloured_text no_colour no_colour (mem chart3 !!! x))
                                     (level (mem chart3 !!! x)) line) lines order.
Proof.
  split; [exact valid_chart3|].
  exact (proj2 (print_spec no_colour no_colour no_colour chart3) valid_chart3).
Defined.

(** X15.  [printSubtree].  For a member of a valid chart [printSubtree] logs
    one line for the member, first, and one for each of its descendants,
    nobody twice and nobody else; the line of a descendant [d] levels
    below the member is [d] blocks of indentation, a connector, then its
    name and its title in brackets. *)
Theorem printSubtree_spec (s : OrgChart) (a : loc) :
  valid s -> member s a ->
  exists lines order,
    printSubtree a s = Some lines /\
    NoDup order /\ head order = Some a /\
    (forall x, x ∈ order <-> x = a \/ descendant (mem s) a x) /\
    Forall2 (fun line x => tree_line (plain_text (mem s !!! x))
                                     (level (mem s !!! x) - level (mem s !!! a)) line)
            lines order.
Proof.
  intros [t Hv] Ha.
  apply (valid_member s t a Hv) in Ha.
  destruct (subtree_at_Some a t Ha) as [u Hu].
  pose proof (subtree_at_top _ _ _ Hu) as Htu.
  pose proof (subtree_links _ _ _ _ _ (valid_links _ _ Hv) Hu) as Hul.
  pose proof (subtree_levels _ _ _ _ _ (valid_levels _ _ Hv) Hu) as Hulv.
  pose proof (subtree_NoDup _ _ _ (valid_nodup _ _ Hv) Hu) as Hndu.
  destruct (walk_spec plain_text (mem s) u (recursion_limit (mem s)) _ [] true Hul)
    as (lines & Hrun & Hall); [|done|].
  { unfold recursion_limit. pose proof (height_le_heap _ _ _ Hul Hndu). lia. }
  exists lines, (locs u). split; [|split; [done|split; [|split]]].
  - unfold printSubtree. rewrite printSubtree_walk, <- Htu. exact Hrun.
  - rewrite <- Htu. by destruct u.
  - intros x. rewrite locs_top_or_below, Htu, <- (descendant_below _ _ _ _ Hul), Htu. done.
  - pose proof (lines_by_level _ _ _ _ _ _ Hulv Hall) as H.
    eapply Forall2_impl; [exact H|]. intros line x Hl. simpl in Hl.
    by replace (level (mem s !!! x) + 0 - level (mem s !!! a))
      with (level (mem s !!! x) - level (mem s !!! a)) in Hl by lia.
Qed.

Lemma printSubtree_spec_witness :
  valid chart3 /\ member chart3 1 /\
  exists lines order,
    printSubtree 1 chart3 = Some lines /\
    NoDup order /\ head order = Some 1 /\
    (forall x, x ∈ order <-> x = 1 \/ descendant (mem chart3) 1 x) /\
    Forall2 (fun line x => tree_line (plain_text (mem chart3 !!! x))
                                     (level (mem chart3 !!! x) - level (mem chart3 !!! 1)) line)
            lines order.
Proof.
  assert (member chart3 1) as Hm by (vm_compute; elem_tac).
  split; [exact valid_chart3|]. split; [exact Hm|].
  exact (printSubtree_spec chart3 1 valid_chart3 Hm).
Defined.

(* ================================================================== *)
(** * Part 9.  The statistics report                                    *)
(* ================================================================== *)

(** ** Counting by level *)

Lemma sum_list_alter_S (arr : list nat) i :
  i < length arr -> sum_list (alter S i arr) = S (sum_list arr).
Proof.
  revert i. induction arr as [|x arr IH]; intros [|i] Hi; simpl in Hi; try lia.
  - simpl. unfold id. lia.
  - specialize (IH i ltac:(lia)). simpl in *. unfold id in *.
    change (list_alter S i arr) with (alter S i arr). lia.
Qed.

Lemma count_levels_fold (h : list Employee) (es : list nat) M : forall arr : list nat,
  length arr = M + 1 -> Forall (fun e => level (h !!! e) <= M) es ->
  let arr' := fold_left (fun arr e => alter S (level (h !!! e)) arr) es arr in
  length arr' = M + 1 /\
  sum_list arr' = sum_list arr + length es /\
  forall k n, arr !! k = Some n ->
    arr' !! k = Some (n + length (filter (fun e => level (h !!! e) = k) es)).
Proof.
  induction es as [|e es IH]; intros arr Hlen Hall; simpl.
  - split; [done|]. split; [lia|]. intros k n Hk. rewrite Hk. f_equal. lia.
  - apply Forall_cons in Hall as [He Hall].
    destruct (IH (alter S (level (h !!! e)) arr)) as (Hl & Hs & Hk); [by rewrite length_alter|done|].
    split; [done|]. split.
    + rewrite Hs, sum_list_alter_S by lia. lia.
    + intros k n Hn. rewrite filter_cons.
      destruct (decide (level (h !!! e) = k)) as [Heq|Hne].
      * rewrite (Hk k (S n)); [simpl; f_equal; lia|].
        rewrite <- Heq, list_lookup_alter_eq, Heq, Hn. done.
      * rewrite (Hk k n); [done|]. by rewrite list_lookup_alter_ne.
Qed.

Lemma count_levels_spec (h : list Employee) (es : list nat) :
  let M := max_list ((fun e => level (h !!! e)) <$> es) in
  length (count_levels h es M) = M + 1 /\
  sum_list (count_levels h es M) = length es /\
  forall k, k <= M ->
    count_levels h es M !! k = Some (length (filter (fun e => level (h !!! e) = k) es)).
Proof.
  intros M. unfold count_levels.
  destruct (count_levels_fold h es M (replicate (M + 1) 0)) as (Hl & Hs & Hk).
  - by rewrite length_replicate.
  - apply Forall_forall. intros e He. apply max_list_elem_of_le.
    apply list_elem_of_fmap. by exists e.
  - split; [done|]. split.
    + rewrite Hs, sum_list_replicate. lia.
    + intros k Hle. rewrite (Hk k 0); [done|]. apply lookup_replicate_2. lia.
Qed.

(** ** Managers and individual contributors *)

Lemma filter_split_length {A} (P Q : A -> Prop) `{forall x, Decision (P x)}
    `{forall x, Decision (Q x)} (l : list A) :
  (forall x, P x <-> ~ Q x) -> length (filter P l) + length (filter Q l) = length l.
Proof.
  intros Hpq. induction l as [|x l IH]; [done|]. rewrite !filter_cons.
  destruct (decide (P x)) as [HP|HP], (decide (Q x)) as [HQ|HQ]; simpl; try lia.
  - by apply Hpq in HP.
  - exfalso. apply HP. by apply Hpq.
Qed.

Lemma most_reports_fold (h : list Employee) (es : list nat) : forall mx who,
  (match who with Some m => length (reports (h !!! m)) = mx /\ 0 < mx | None => mx = 0 end) ->
  let r := fold_left (fun '(maxReports, who) e =>
                        if maxReports <? length (reports (h !!! e))
                        then (length (reports (h !!! e)), Some e)
                        else (maxReports, who)) es (mx, who) in
  mx <= r.1 /\
  (forall e, e ∈ es -> length (reports (h !!! e)) <= r.1) /\
  match r.2 with
  | Some m => (who = Some m \/ m ∈ es) /\ length (reports (h !!! m)) = r.1 /\ 0 < r.1
  | None => r.1 = 0
  end.
Proof.
  induction es as [|e es IH]; intros mx who Hacc; simpl.
  - split; [done|]. split; [by intros e ?%elem_of_nil|].
    destruct who as [m|]; [|done]. destruct Hacc. auto.
  - destruct (mx <? length (reports (h !!! e))) eqn:Hlt.
    + apply Nat.ltb_lt in Hlt.
      destruct (IH (length (reports (h !!! e))) (Some e)) as (Hle & Hall & Hwho); [split; [done|lia]|].
      split; [lia|]. split.
      * intros e' [->|He']%elem_of_cons; [done|by apply Hall].
      * destruct (fold_left _ es _) as [mx' [m|]]; simpl in *; [|done].
        destruct Hwho as ([[= <-]|Hin] & ? & ?).
        -- split; [right; apply list_elem_of_here|done].
        -- split; [right; by apply list_elem_of_further|done].
    + apply Nat.ltb_ge in Hlt.
      destruct (IH mx who Hacc) as (Hle & Hall & Hwho).
      split; [done|]. split.
      * intros e' [->|He']%elem_of_cons; [lia|by apply Hall].
      * destruct (fold_left _ es _) as [mx' [m|]]; simpl in *; [|done].
        destruct Hwho as ([->|Hin] & ? & ?).
        -- split; [by left|done].
        -- split; [right; by apply list_elem_of_further|done].
Qed.

(** ** Reporting lines *)

Lemma edges_count h p t :
  links_ok h p t ->
  sum_list ((fun e => length (reports (h !!! e))) <$> locs t) + 1 = length (locs t).
Proof.
  revert p. induction t as [l cs IH] using shape_ind'. intros p Hok.
  apply links_ok_inv in Hok as (_ & _ & Hr & Hcs).
  cbn [locs]. rewrite fmap_cons. cbn [sum_list_with length]. rewrite Hr, length_fmap.
  assert (sum_list ((fun e => length (reports (h !!! e))) <$> (cs ≫= locs)) + length cs
          = length (cs ≫= locs)) as Hsum;
    [|change (Datatypes.id (length cs)) with (length cs); lia].
  clear Hr. induction cs as [|c cs IHcs]; [done|].
  apply Forall_cons in IH as [IHc IH]. apply Forall_cons in Hcs as [Hc Hcs].
  rewrite bind_cons, fmap_app, sum_list_with_app, length_app. simpl.
  specialize (IHc _ Hc). specialize (IHcs IH Hcs). lia.
Qed.

Lemma filter_one {A} (P : A -> Prop) `{forall x, Decision (P x)} (l : list A) r :
  NoDup l -> r ∈ l -> P r -> (forall x, x ∈ l -> P x -> x = r) -> length (filter P l) = 1.
Proof.
  intros Hnd Hr HP Huniq.
  assert (filter P l ≡ₚ [r]) as ->; [|done].
  apply NoDup_Permutation; [by apply NoDup_filter|apply NoDup_singleton|].
  intros x. rewrite list_elem_of_filter, list_elem_of_singleton. split.
  - intros [Hx Hin]. by apply Huniq.
  - intros ->. done.
Qed.

(** X16.  the statistics report.  Without employees no report is made.  On
    a valid chart the counts by level have one entry for each level from
    0 to the deepest, none of them 0, the entry of level 0 being 1, and
    add up to the number of employees; managers and individual
    contributors add up to it too; the reporting lines are one fewer;
    and the manager named as having the most direct reports is a member
    that has as many as anybody has (nobody is named when nobody has a
    report). *)
Theorem printStatisticsReport_spec (s : OrgChart) :
  (employees s = [] -> printStatisticsReport s = None) /\
  (valid s ->
   exists st,
     printStatisticsReport s = Some st /\
     totalEmployees st = length (employees s) /\ 0 < totalEmployees st /\
     length (employeesByLevel st) = maxLevel st + 1 /\
     sum_list (employeesByLevel st) = totalEmployees st /\
     employeesByLevel st !! 0 = Some 1 /\
     (forall k n, employeesByLevel st !! k = Some n ->
        0 < n /\ n = length (filter (fun e => level (mem s !!! e) = k)
                                    (dict_values (employees s)))) /\
     managersCount st + individualContributors st = totalEmployees st /\
     sum_list ((fun e => length (reports (mem s !!! e))) <$> dict_values (employees s)) + 1
       = totalEmployees st /\
     (forall e, member s e -> length (reports (mem s !!! e)) <= maxReports st) /\
     match managerWithMostReports st with
     | Some m => member s m /\ length (reports (mem s !!! m)) = maxReports st /\
                 0 < maxReports st
     | None => maxReports st = 0
     end).
Proof.
  split.
  - intros He. unfold printStatisticsReport. by rewrite He.
  - intros [t Hv].
    pose proof (dict_values_perm s t Hv) as Hperm.
    set (es := dict_values (employees s)) in *.
    set (h := mem s).
    assert (length es = length (employees s)) as Hlen.
    { unfold es.
      rewrite (dict_values_all _ (dict_ok_own _ _ _ (valid_dict _ _ Hv) (valid_own _ _ Hv))).
      by rewrite length_fmap. }
    assert (top t ∈ es) as Htop by (rewrite Hperm; apply top_in_locs).
    assert (0 < length es) as Hpos by (destruct es; [by apply elem_of_nil in Htop|simpl; lia]).
    destruct (count_levels_spec h es) as (Hcl & Hcs & Hck).
    set (M := max_list ((fun e => level (h !!! e)) <$> es)) in *.
    destruct (most_reports_fold h es 0 None eq_refl) as (_ & Hmax & Hwho).
    eexists. split; [|split; [|split; [|split; [|split; [|split; [|split; [|split; [|split; [|split]]]]]]]]].
    + unfold printStatisticsReport. fold es. fold h.
      destruct (length es =? 0) eqn:H0; [apply Nat.eqb_eq in H0; lia|]. reflexivity.
    + simpl. done.
    + simpl. lia.
    + simpl. exact Hcl.
    + simpl. exact Hcs.
    + simpl. fold M. rewrite (Hck 0) by lia. f_equal.
      apply (filter_one _ _ (top t)).
      * unfold es. by eapply dict_values_NoDup.
      * done.
      * apply (levels_ok_top _ _ _ (valid_levels _ _ Hv)).
      * intros x Hx H0. rewrite Hperm in Hx.
        by eapply level_zero_top; [apply (valid_links _ _ Hv)|apply (valid_levels _ _ Hv)|..].
    + simpl. fold M. intros k n Hk.
      assert (k <= M) as Hle.
      { apply lookup_lt_Some in Hk. fold es in Hk. fold h in Hk. rewrite Hcl in Hk. lia. }
      rewrite (Hck k Hle) in Hk. injection Hk as <-. split; [|done].
      (* a member on each level up to the deepest *)
      assert (M ∈ (fun e => level (h !!! e)) <$> es) as HM.
      { apply max_list_elem_of. destruct es; [simpl in Hpos; lia|done]. }
      apply list_elem_of_fmap in HM as (x & HMx & Hx).
      assert (x ∈ locs t) as Hxt by (by rewrite <- Hperm).
      destruct (getPath_from_chain h t (valid_links _ _ Hv) (valid_levels _ _ Hv)
                  M x Hxt (eq_sym HMx) (S M) [] ltac:(lia))
        as (p & _ & Hplen & _ & _ & Hlv & _).
      destruct (lookup_lt_is_Some_2 p k ltac:(lia)) as [a Ha].
      destruct (Hlv k a Ha) as [Hat Hla].
      assert (a ∈ filter (fun e => level (h !!! e) = k) es) as Hin.
      { apply list_elem_of_filter. split; [done|by rewrite Hperm]. }
      destruct (filter _ es); [by apply elem_of_nil in Hin|simpl; lia].
    + simpl. apply filter_split_length. intros x. lia.
    + simpl. fold es. fold h. rewrite Hperm.
      rewrite (edges_count h None t (valid_links _ _ Hv)). by rewrite <- Hperm.
    + simpl. intros e He. by apply Hmax.
    + simpl. fold es. fold h.
      destruct (most_reports h es) as [mx [m|]] eqn:Hmost; unfold most_reports in Hmost;
        rewrite Hmost in Hwho; simpl in *; [|done].
      destruct Hwho as ([?|Hin] & ? & ?); [done|]. done.
Qed.

Lemma printStatisticsReport_spec_witness :
  valid chart3 /\
  exists st,
    printStatisticsReport chart3 = Some st /\
    totalEmployees st = length (employees chart3) /\ 0 < totalEmployees st /\
    length (employeesByLevel st) = maxLevel st + 1 /\
    sum_list (employeesByLevel st) = totalEmployees st /\
    employeesByLevel st !! 0 = Some 1 /\
    (forall k n, employeesByLevel st !! k = Some n ->
       0 < n /\ n = length (filter (fun e => level (mem chart3 !!! e) = k)
                                   (dict_values (employees chart3)))) /\
    managersCount st + individualContributors st = totalEmployees st /\
    sum_list ((fun e => length (reports (mem chart3 !!! e))) <$> dict_values (employees chart3)) + 1
      = totalEmployees st /\
    (forall e, member chart3 e -> length (reports (mem chart3 !!! e)) <= maxReports st) /\
    match managerWithMostReports st with
    | Some m => member chart3 m /\ length (reports (mem chart3 !!! m)) = maxReports st /\
                0 < maxReports st
    | None => maxReports st = 0
    end.
Proof.
  split; [exact valid_chart3|].
  exact (proj2 (printStatisticsReport_spec chart3) valid_chart3).
Defined.
